(** * The environment registry of [gym/envs/registration.py]

    A shallow embedding of the identifier parser, the specification record,
    the specification tree and the registry, followed by the properties the
    specification states about them.

    Modelling conventions.
    - A Python [str] is a [string]; its characters are the code points
      U+0000..U+00FF, classified as Python's [re] module classifies them.
    - A Python [int] is a [Z]: unbounded.  The conversion [int] from a
      string is the interpreter's, which refuses a digit string of more than
      [int_max_str_digits] characters; [str] is applied to versions only,
      and a version that the parser read has no more digits than that.
    - A [dict] is an insertion-ordered association list ([Dict] below).
    - A raised exception is the [Raise] outcome of [result]. *)

From Stdlib Require Import ZArith Ascii String List DecimalString DecimalZ.
From Stdlib Require Import Sorted Permutation Lia.
From stdpp Require Import base decidable option list strings.

Open Scope Z_scope.
Open Scope string_scope.

(** ** Exceptions *)

(** The exception classes of [gym.error] that the registry raises. *)
Inductive GymErrorKind :=
  | Error               (* error.Error itself: malformed id, missing entry point *)
  | NamespaceNotFound
  | NameNotFound
  | VersionNotFound
  | DeprecatedEnv.

(** A raised exception: one of gym's own, with its message, or one of the
    interpreter's: [TypeError] when [None] is ordered against anything or a
    relative module name is imported without package, [KeyError] when a
    plain dict is read or popped at an absent key, [AssertionError] when an
    [assert] fails, [ValueError] when [int] is given too many digits, when
    an unpacking finds the wrong number of values or when the empty module
    name is imported, [AttributeError] when an object lacks the attribute
    read, [ModuleNotFoundError] when an import finds no module; or an
    exception of any other class, raised by code outside this module.  The
    interpreter's messages are not modelled. *)
Inductive Exception :=
  | GymError (kind : GymErrorKind) (message : string)
  | TypeError
  | KeyError
  | AssertionError
  | ValueError
  | AttributeError
  | ModuleNotFoundError
  | OtherException (class_name : string).

Inductive result (A : Type) :=
  | Ok (a : A)
  | Raise (e : Exception).
Arguments Ok {A} a.
Arguments Raise {A} e.

Definition bind {A B} (m : result A) (k : A -> result B) : result B :=
  match m with
  | Ok a => k a
  | Raise e => Raise e
  end.

Declare Scope py_scope.
Delimit Scope py_scope with py.
Notation "'let*' x ':=' m 'in' k" := (bind m (fun x => k))
  (at level 10, x pattern, m at level 100, k at level 200) : py_scope.
Notation "'do' m 'then' k" := (bind m (fun _ => k))
  (at level 10, m at level 100, k at level 200) : py_scope.
Open Scope py_scope.

Definition succeeds {A} (m : result A) : bool :=
  match m with Ok _ => true | Raise _ => false end.

(** Modelled from the spec: the class hierarchy of [gym/error.py], which is
    not among the sources.  The spec has relocation lookup failures caught by
    the [except error.UnregisteredEnv] clause of [versions]; those failures
    are [NamespaceNotFound] and [NameNotFound], and [VersionNotFound] is
    their sibling.  [DeprecatedEnv] and [Error] are not unregistered-env
    errors, and neither are the interpreter's exceptions. *)
Definition is_UnregisteredEnv (e : Exception) : bool :=
  match e with
  | GymError NamespaceNotFound _ => true
  | GymError NameNotFound _ => true
  | GymError VersionNotFound _ => true
  | _ => false
  end.

(** ** Characters and integers *)

Definition code (c : ascii) : N := N_of_ascii c.

Definition between (lo hi : N) (c : ascii) : bool :=
  ((lo <=? code c) && (code c <=? hi))%N.

(** [\d] : a decimal digit.  Below U+0100 these are the ASCII digits. *)
Definition is_decimal (c : ascii) : bool := between 48 57 c.

(** [str.isalnum] on one character, below U+0100: ASCII letters and digits,
    the Latin-1 letters, and the superscript digits and vulgar fractions. *)
Definition is_alnum (c : ascii) : bool :=
  is_decimal c || between 65 90 c || between 97 122 c
  || (code c =? 170)%N || between 178 179 c || (code c =? 181)%N
  || between 185 186 c || between 188 190 c
  || between 192 214 c || between 216 246 c || between 248 255 c.

(** [\w] *)
Definition is_word (c : ascii) : bool := is_alnum c || (code c =? 95)%N.

(** [[\w:-]] *)
Definition is_namespace_char (c : ascii) : bool :=
  is_word c || (code c =? 58)%N || (code c =? 45)%N.

(** [[\w:.-]] *)
Definition is_name_char (c : ascii) : bool :=
  is_word c || (code c =? 58)%N || (code c =? 46)%N || (code c =? 45)%N.

Fixpoint all_chars (p : ascii -> bool) (s : string) : bool :=
  match s with
  | EmptyString => true
  | String c s' => p c && all_chars p s'
  end.

(** The longest prefix of [s] whose characters satisfy [p], and the rest. *)
Fixpoint span_chars (p : ascii -> bool) (s : string) : string * string :=
  match s with
  | EmptyString => (EmptyString, EmptyString)
  | String c s' =>
      if p c then let '(run, rest) := span_chars p s' in (String c run, rest)
      else (EmptyString, s)
  end.

Definition digit_value (c : ascii) : Z := Z.of_N (code c) - 48.

Fixpoint int_acc (s : string) (acc : Z) : Z :=
  match s with
  | EmptyString => acc
  | String c s' => int_acc s' (10 * acc + digit_value c)
  end.

(** [sys.get_int_max_str_digits()], as the interpreter starts. *)
Definition int_max_str_digits : Z := 4300.

(** [int(s)] on a string of decimal digits (leading zeros allowed): a
    string of more than [int_max_str_digits] digits, leading zeros counted,
    is refused with [ValueError]. *)
Definition int (s : string) : result Z :=
  if (Z.of_nat (String.length s) <=? int_max_str_digits)%Z
  then Ok (int_acc s 0)
  else Raise ValueError.

(** [str(n)] on an integer of at most [int_max_str_digits] digits. *)
Definition str (n : Z) : string := NilZero.string_of_int (Z.to_int n).

(** ** The identifier parser *)

Definition pattern : string :=
  "re.compile('^(?:(?P<namespace>[\\w:-]+)\\/)?(?:(?P<name>[\\w:.-]+?))(?:-v(?P<version>\\d+))?$')".

(** [(?P<namespace>[\w:-]+)\/] at the start of [s]: the greedy run of
    namespace characters must be non-empty and followed by a slash.  A
    shorter run is followed by a namespace character, never by the slash, so
    backtracking into the run cannot succeed. *)
Definition match_namespace (s : string) : option (string * string) :=
  match span_chars is_namespace_char s with
  | (String c ns, String slash rest) =>
      if Ascii.eqb slash "/" then Some (String c ns, rest) else None
  | _ => None
  end.

(** [-v(?P<version>\d+)] spanning all of [s]: the digits of the group. *)
Definition match_version (s : string) : option string :=
  match s with
  | String dash (String v (String d ds)) =>
      if Ascii.eqb dash "-" && Ascii.eqb v "v"
         && all_chars is_decimal (String d ds)
      then Some (String d ds)
      else None
  | _ => None
  end.

(** [(?:-v(?P<version>\d+))?$] : the optional group is tried first, then
    skipped. *)
Definition match_suffix (s : string) : option (option string) :=
  match match_version s with
  | Some v => Some (Some v)
  | None => match s with EmptyString => Some None | _ => None end
  end.

(** [(?P<name>[\w:.-]+?)] followed by the suffix: the lazy quantifier takes
    one name character, tries the suffix, and only on failure takes one
    more. *)
Fixpoint match_name (s : string) : option (string * option string) :=
  match s with
  | EmptyString => None
  | String c s' =>
      if is_name_char c then
        match match_suffix s' with
        | Some v => Some (String c EmptyString, v)
        | None =>
            match match_name s' with
            | Some (n, v) => Some (String c n, v)
            | None => None
            end
        end
      else None
  end.

(** [pattern.fullmatch(id)] : the groups [namespace], [name] and [version]
    of the match, as strings. *)
Definition fullmatch (id : string)
  : option (option string * string * option string) :=
  let without_namespace :=
    match match_name id with
    | Some (n, v) => Some (None, n, v)
    | None => None
    end in
  match match_namespace id with
  | Some (ns, rest) =>
      match match_name rest with
      | Some (n, v) => Some (Some ns, n, v)
      | None => without_namespace
      end
  | None => without_namespace
  end.

Definition parse_env_id (id : string)
  : result (option string * string * option Z) :=
  match fullmatch id with
  | None =>
      Raise (GymError Error
        ("Malformed environment ID: " ++ id ++ "."
         ++ "(Currently all IDs must be of the form " ++ pattern ++ ".)"))
  | Some (namespace, name, version) =>
      match version with
      | Some digits =>
          let* version := int digits in Ok (namespace, name, Some version)
      | None => Ok (namespace, name, None)
      end
  end.

(** ** Dictionaries

    A [dict] keeps its keys in insertion order: assigning to a present key
    replaces the value in place, assigning to an absent key appends. *)

Definition Dict (K V : Type) : Type := list (K * V).

Section Dict.
Context {K V : Type} `{EqDecision K}.

(** [d.get(k)] *)
Fixpoint dict_get (k : K) (d : Dict K V) : option V :=
  match d with
  | [] => None
  | (k', v) :: d' => if decide (k = k') then Some v else dict_get k d'
  end.

(** [k in d] *)
Definition dict_in (k : K) (d : Dict K V) : bool :=
  match dict_get k d with Some _ => true | None => false end.

(** [d[k] = v] *)
Fixpoint dict_set (k : K) (v : V) (d : Dict K V) : Dict K V :=
  match d with
  | [] => [(k, v)]
  | (k', v') :: d' =>
      if decide (k = k') then (k', v) :: d' else (k', v') :: dict_set k v d'
  end.

(** [d.pop(k)] for a present key: a dict binds a key at most once, so
    dropping every binding of [k] drops that one. *)
Fixpoint dict_pop (k : K) (d : Dict K V) : Dict K V :=
  match d with
  | [] => []
  | (k', v') :: d' =>
      if decide (k = k') then dict_pop k d' else (k', v') :: dict_pop k d'
  end.

(** [list(d.keys())], [list(d.values())] *)
Definition dict_keys (d : Dict K V) : list K := map fst d.
Definition dict_values (d : Dict K V) : list V := map snd d.

(** [d.update(other)] *)
Definition dict_update (d other : Dict K V) : Dict K V :=
  fold_left (fun acc kv => dict_set (fst kv) (snd kv) acc) other d.
End Dict.

(** ** Ordering with [None]

    [a > b] and [a < b] on version keys: ordering [None] against anything
    raises [TypeError]. *)

Definition py_gt (a b : option Z) : result bool :=
  match a, b with
  | Some x, Some y => Ok (y <? x)%Z
  | _, _ => Raise TypeError
  end.

Definition py_lt (a b : option Z) : result bool :=
  match a, b with
  | Some x, Some y => Ok (x <? y)%Z
  | _, _ => Raise TypeError
  end.

Section KeyFunctions.
Context {A : Type} (key : A -> option Z).

Fixpoint max_loop (items : list A) (maxitem : A) : result A :=
  match items with
  | [] => Ok maxitem
  | item :: items' =>
      let* greater := py_gt (key item) (key maxitem) in
      max_loop items' (if greater then item else maxitem)
  end.

(** [max(items, key=key, default=None)] : the first item of largest key;
    a single item is returned without any comparison. *)
Definition py_max (items : list A) : result (option A) :=
  match items with
  | [] => Ok None
  | first :: items' => let* m := max_loop items' first in Ok (Some m)
  end.

(** [x] goes in front of the first element that is not smaller. *)
Fixpoint sorted_insert (x : A) (l : list A) : result (list A) :=
  match l with
  | [] => Ok [x]
  | y :: l' =>
      let* smaller := py_lt (key y) (key x) in
      if smaller then let* r := sorted_insert x l' in Ok (y :: r)
      else Ok (x :: y :: l')
  end.

(** [sorted(items, key=key)] : a stable sort by [<].  Every element of a
    list of two or more is compared at least once, so a [None] key there
    raises [TypeError], and a list of at most one element is returned
    without any comparison; which comparisons are made otherwise does not
    show in the outcome. *)
Fixpoint py_sorted (items : list A) : result (list A) :=
  match items with
  | [] => Ok []
  | x :: items' => let* r := py_sorted items' in sorted_insert x r
  end.
End KeyFunctions.

(** [", ".join(parts)] *)
Fixpoint join (sep : string) (parts : list string) : string :=
  match parts with
  | [] => ""
  | [p] => p
  | p :: parts' => p ++ sep ++ join sep parts'
  end.

(** An f-string field holding an [Optional[str]] or an [Optional[int]]. *)
Definition fmt_str (o : option string) : string :=
  match o with Some s => s | None => "None" end.
Definition fmt_int (o : option Z) : string :=
  match o with Some n => str n | None => "None" end.

(** ** What the module takes from outside *)

(** The relocation table of [gym/envs/__relocated__.py] (a bare name to its
    new namespace, which can be [None], and its external package),
    [difflib.get_close_matches] with its [n] argument, and whether
    [importlib.util.find_spec] finds a package. *)
Class Externals := {
  internal_env_relocation_map : Dict string (option string * string);
  get_close_matches : string -> list string -> nat -> list string;
  find_spec : string -> bool
}.

(** ** Values and the store of keyword dictionaries *)

(** A keyword-argument value: an immutable scalar, or any other object,
    held by reference. *)
Inductive PyValue :=
  | PyNone
  | PyBool (b : bool)
  | PyInt (n : Z)
  | PyStr (s : string)
  | PyObject (address : nat).

(** Dictionaries of keyword arguments are objects: a record holds a
    reference to one, and the store maps references to contents. *)
Definition Kwargs : Type := Dict string PyValue.
Abbreviation Store := (list Kwargs).

(** The contents behind a reference the store holds. *)
Definition deref (h : Store) (r : nat) : Kwargs :=
  match h !! r with Some d => d | None => [] end.

(** A new object, at the next free reference. *)
Definition alloc (h : Store) (d : Kwargs) : nat * Store :=
  (List.length h, (h ++ [d])%list).

(** ** What instantiation takes from outside

    Objects other than records and keyword dictionaries (modules, classes,
    functions, environments) are named by their addresses.  From outside
    come: [importlib.import_module(mod_name)] followed by
    [getattr(mod, attr_name)], which gives the object found; the call of a
    construction target on keyword arguments, which gives the environment
    made; the attribute [unwrapped] of an environment; and [copy.deepcopy]
    on such an object.  Each of them returns or raises.  Outside code is
    taken to leave the records and the keyword dictionaries as they are: it
    is handed neither (the target is given the keyword arguments unpacked,
    not the dictionary that holds them).  What it does to the objects
    behind the addresses, and to the registry, is not followed here. *)
Class Runtime := {
  import_attribute : string -> string -> result nat;
  call : nat -> Kwargs -> result nat;
  unwrapped : nat -> result nat;
  deepcopy_object : nat -> result nat
}.

(** The checks that [importlib.import_module(name)] makes before it imports
    anything: a relative name needs a package, and the name is not empty. *)
Definition import_check (name : string) : result unit :=
  if String.prefix "." name then Raise TypeError
  else match name with
       | EmptyString => Raise ValueError
       | String _ _ => Ok tt
       end.

(** [s.split(":")] : the first part and the parts after it. *)
Fixpoint split_colon (s : string) : string * list string :=
  match s with
  | EmptyString => (EmptyString, [])
  | String c s' =>
      let '(part, parts) := split_colon s' in
      if (code c =? 58)%N then (EmptyString, part :: parts)
      else (String c part, parts)
  end.

(** [load(name)] : the unpacking of [name.split(":")] into two names raises
    [ValueError] unless there is exactly one colon. *)
Definition load `{Runtime} (name : string) : result nat :=
  match split_colon name with
  | (mod_name, [attr_name]) =>
      do import_check mod_name then
      import_attribute mod_name attr_name
  | _ => Raise ValueError
  end.

(** [copy.deepcopy] on a keyword value and on a keyword dictionary, whose
    keys are strings: a scalar is its own copy, and the values are copied in
    the order of the dictionary. *)
Definition deepcopy_value `{Runtime} (v : PyValue) : result PyValue :=
  match v with
  | PyObject address =>
      let* copied := deepcopy_object address in Ok (PyObject copied)
  | scalar => Ok scalar
  end.

Fixpoint deepcopy_dict `{Runtime} (d : Kwargs) : result Kwargs :=
  match d with
  | [] => Ok []
  | (k, v) :: d' =>
      let* v' := deepcopy_value v in
      let* d'' := deepcopy_dict d' in
      Ok ((k, v') :: d'')
  end.

(** ** The specification record *)

Inductive EntryPoint :=
  | Callable (object : nat)
  | Path (name : string).       (* "module.name:Class", resolved by [load] *)

Module EnvSpec.

Record t := {
  entry_point : option EntryPoint;
  reward_threshold : option Z;
  nondeterministic : bool;
  max_episode_steps : option Z;
  order_enforce : option bool;
  kwargs : nat;                 (* reference into the store *)
  namespace : option string;
  name : string;
  version : option Z
}.

(** The keyword arguments of the constructor.  [a_kwargs] is the
    reference of the dictionary passed, or of the fresh one that
    [default_factory=dict] makes. *)
Record args := {
  a_entry_point : option EntryPoint;
  a_reward_threshold : option Z;
  a_nondeterministic : bool;
  a_max_episode_steps : option Z;
  a_order_enforce : option bool;
  a_kwargs : nat
}.

Definition defaults (fresh_dict : nat) : args :=
  {| a_entry_point := None; a_reward_threshold := None;
     a_nondeterministic := false; a_max_episode_steps := None;
     a_order_enforce := Some true; a_kwargs := fresh_dict |}.

(** [EnvSpec(id, **kwargs)] : the dataclass constructor followed by
    [__post_init__]. *)
Definition __init__ (init_id : string) (a : args) : result t :=
  let* (namespace, name, version) := parse_env_id init_id in
  Ok {| entry_point := a_entry_point a;
        reward_threshold := a_reward_threshold a;
        nondeterministic := a_nondeterministic a;
        max_episode_steps := a_max_episode_steps a;
        order_enforce := a_order_enforce a;
        kwargs := a_kwargs a;
        namespace := namespace; name := name; version := version |}.

Definition make_id (ns : option string) (n : string) (v : option Z) : string :=
  let namespace := match ns with None => "" | Some ns => ns ++ "/" end in
  let version := match v with None => "" | Some v => "-v" ++ str v end in
  namespace ++ n ++ version.

(** The [id] property. *)
Definition id (self : t) : string :=
  make_id (namespace self) (name self) (version self).

Definition set_namespace (ns : option string) (self : t) : t :=
  {| entry_point := entry_point self;
     reward_threshold := reward_threshold self;
     nondeterministic := nondeterministic self;
     max_episode_steps := max_episode_steps self;
     order_enforce := order_enforce self;
     kwargs := kwargs self;
     namespace := ns; name := name self; version := version self |}.

Definition set_kwargs (r : nat) (self : t) : t :=
  {| entry_point := entry_point self;
     reward_threshold := reward_threshold self;
     nondeterministic := nondeterministic self;
     max_episode_steps := max_episode_steps self;
     order_enforce := order_enforce self;
     kwargs := r;
     namespace := namespace self; name := name self;
     version := version self |}.

(** *** Records as objects

    A record is an object: [make] is called on a reference to it, and
    [copy.deepcopy] makes a new one.  The store of records maps a reference
    to the fields of the record behind it. *)
Abbreviation Instances := (list t).

Definition set_entry_point (e : option EntryPoint) (self : t) : t :=
  {| entry_point := e;
     reward_threshold := reward_threshold self;
     nondeterministic := nondeterministic self;
     max_episode_steps := max_episode_steps self;
     order_enforce := order_enforce self;
     kwargs := kwargs self;
     namespace := namespace self; name := name self;
     version := version self |}.

(** *** Environments

    The construction target and the wrappers are outside the registry:
    an environment is the object that the target returned, the base
    environment [env.unwrapped] under it, the record stored there, and the
    wrappers put around it. *)

Inductive Wrapper :=
  | TimeLimit (max_episode_steps : Z)
  | OrderEnforcing.

Record Env := {
  constructed : nat;            (* what the target returned *)
  base : nat;                   (* env.unwrapped *)
  spec : nat;                   (* env.unwrapped.spec, a record of the store *)
  wrappers : list Wrapper       (* outermost first *)
}.

Section WithRuntime.
Context `{Runtime}.

(** [copy.deepcopy(record)] : the fields are copied in their order, the
    entry point before the keyword dictionary; a string, a number, a
    boolean and [None] are their own copies.  The copy is a new record with
    a new dictionary. *)
Definition deepcopy (h : Store) (objects : Instances) (record : t)
  : result (nat * Store * Instances) :=
  let* copied_entry_point :=
    match entry_point record with
    | Some (Callable fn) =>
        let* copied := deepcopy_object fn in Ok (Some (Callable copied))
    | other => Ok other
    end in
  let* copied_kwargs := deepcopy_dict (deref h (kwargs record)) in
  let '(copied_kwargs, h) := alloc h copied_kwargs in
  let copied :=
    set_kwargs copied_kwargs (set_entry_point copied_entry_point record) in
  Ok (List.length objects, h, (objects ++ [copied])%list).

(** [self.make] with keyword arguments [call_kwargs], on the two stores.
    A reference that names no record has no attribute to read. *)
Definition make (h : Store) (objects : Instances) (self : nat)
  (call_kwargs : Kwargs) : Store * Instances * result Env :=
  match objects !! self with
  | None => (h, objects, Raise AttributeError)
  | Some record =>
      match entry_point record with
      | None =>
          (h, objects,
           Raise (GymError Error
             ("Attempting to make deprecated env " ++ id record ++ ". "
              ++ "(HINT: is there a newer registered version of this env?)")))
      | Some target =>
          (* _kwargs = self.kwargs.copy() *)
          let '(_kwargs, h) := alloc h (deref h (kwargs record)) in
          (* _kwargs.update(kwargs) *)
          let h := <[_kwargs := dict_update (deref h _kwargs) call_kwargs]> h in
          (* env = self.entry_point( **_kwargs ), or
             cls = load(self.entry_point); env = cls( **_kwargs ) *)
          let called :=
            let* fn :=
              match target with
              | Callable fn => Ok fn
              | Path name => load name
              end in
            call fn (deref h _kwargs) in
          match called with
          | Raise e => (h, objects, Raise e)
          | Ok env =>
              (* spec = copy.deepcopy(self) *)
              match deepcopy h objects record with
              | Raise e => (h, objects, Raise e)
              | Ok (spec, h, objects) =>
                  (* spec.kwargs = _kwargs *)
                  let objects := alter (set_kwargs _kwargs) spec objects in
                  (* env.unwrapped.spec = spec *)
                  match unwrapped env with
                  | Raise e => (h, objects, Raise e)
                  | Ok unwrapped_env =>
                      (* env.spec.max_episode_steps, self.order_enforce *)
                      let steps :=
                        match objects !! spec with
                        | Some stored => max_episode_steps stored
                        | None => None
                        end in
                      let enforce :=
                        match objects !! self with
                        | Some stored => order_enforce stored
                        | None => None
                        end in
                      let wrappers :=
                        match steps with
                        | Some steps => [TimeLimit steps]
                        | None =>
                            match enforce with
                            | Some true => [OrderEnforcing]
                            | _ => []
                            end
                        end in
                      (h, objects,
                       Ok {| constructed := env; base := unwrapped_env;
                             spec := spec; wrappers := wrappers |})
                  end
              end
          end
      end
  end.

End WithRuntime.

End EnvSpec.

(** ** The specification tree *)

Module EnvSpecTree.

Definition Versions : Type := Dict (option Z) EnvSpec.t.
Definition Names : Type := Dict string Versions.

Record t := {
  tree : Dict (option string) Names;
  _length : Z
}.

Definition __init__ : t := {| tree := []; _length := 0 |}.

(** [self.tree[namespace]] and [self.tree[namespace][name]].  The tree is
    a [defaultdict]: reading an absent key yields the empty mapping.  Every
    read below is made after the key was found present, except in
    [__setitem__], whose assignment stores what was read. *)
Definition names_of (self : t) (namespace : option string) : Names :=
  match dict_get namespace (tree self) with
  | Some names => names
  | None => []
  end.

Definition versions_of (self : t) (namespace : option string)
  (name : string) : Versions :=
  match dict_get name (names_of self namespace) with
  | Some versions => versions
  | None => []
  end.

(** [filter(None, keys)] keeps the keys that are truthy. *)
Definition truthy (namespace : option string) : bool :=
  match namespace with
  | Some (String _ _) => true
  | _ => false
  end.

Definition namespaces (self : t) : list string :=
  omap (fun k => if truthy k then k else None) (dict_keys (tree self)).

Section WithExternals.
Context `{Externals}.

Definition _assert_namespace_exists (self : t)
  (namespace : option string) : result unit :=
  if dict_in namespace (tree self) then Ok tt
  else
    let message := "Namespace `" ++ fmt_str namespace ++ "` does not exist." in
    let message :=
      if truthy namespace then
        match get_close_matches (fmt_str namespace) (namespaces self) 3 with
        | suggestion :: _ =>
            message ++ " Did you mean: `" ++ suggestion ++ "`?"
        | [] =>
            message ++ " Have you installed the proper package for `"
                    ++ fmt_str namespace ++ "`?"
        end
      else message in
    Raise (GymError NamespaceNotFound message).

Definition names (self : t) (namespace : option string)
  : result (list string) :=
  do _assert_namespace_exists self namespace then
  Ok (dict_keys (names_of self namespace)).

Definition _assert_name_exists (self : t) (namespace : option string)
  (name : string) : result unit :=
  do _assert_namespace_exists self namespace then
  if dict_in name (names_of self namespace) then Ok tt
  else
    match namespace, dict_get name internal_env_relocation_map with
    | None, Some (relocated_namespace, relocated_package) =>
        let message :=
          "The environment `" ++ name
          ++ "` has been moved out of Gym to the package `"
          ++ relocated_package ++ "`." in
        let message :=
          if find_spec relocated_package then message
          else message ++ " Please install the package via `pip install "
                       ++ relocated_package ++ "`." in
        let message :=
          if bool_decide (namespace = relocated_namespace) then message
          else message
               ++ " You can instantiate the new namespaced environment as `"
               ++ fmt_str relocated_namespace ++ "/" ++ name ++ "`." in
        Raise (GymError NameNotFound message)
    | _, _ =>
        let message := "Environment `" ++ name ++ "` doesn't exist" in
        let message :=
          match namespace with
          | Some ns => message ++ " in namespace `" ++ ns ++ "`"
          | None => message
          end in
        let message := message ++ "." in
        let* known := names self namespace in
        let message :=
          match get_close_matches name known 1 with
          | suggestion :: _ =>
              message ++ " Did you mean: `" ++ suggestion ++ "`?"
          | [] => message
          end in
        Raise (GymError NameNotFound message)
    end.

(** [except error.UnregisteredEnv: pass] around the relocated lookup. *)
Definition versions (self : t) (namespace : option string)
  (name : string) : result (list EnvSpec.t) :=
  do _assert_name_exists self namespace name then
  let versions := dict_values (versions_of self namespace name) in
  match namespace, dict_get name internal_env_relocation_map with
  | None, Some (relocated_namespace, _) =>
      match _assert_name_exists self relocated_namespace name with
      | Ok _ =>
          Ok (versions ++
              dict_values (versions_of self relocated_namespace name))%list
      | Raise e =>
          if is_UnregisteredEnv e then Ok versions else Raise e
      end
  | _, _ => Ok versions
  end.

Definition _assert_version_exists (self : t) (namespace : option string)
  (name : string) (version : option Z) : result unit :=
  do _assert_name_exists self namespace name then
  if dict_in version (versions_of self namespace name) then Ok tt
  else
    let all_versions := dict_values (versions_of self namespace name) in
    let* latest_spec := py_max EnvSpec.version all_versions in
    let message :=
      match version with
      | Some v => "Environment version `v" ++ str v ++ "` for `"
      | None => "The default version for `"
      end in
    let message :=
      match namespace with
      | Some ns => message ++ ns ++ "/"
      | None => message
      end in
    let message := message ++ name ++ "` " in
    let deprecated_by :=
      match latest_spec, version with
      | Some latest, Some v =>
          match EnvSpec.version latest with
          | Some latest_version =>
              if (v <? latest_version)%Z then Some latest_version else None
          | None => None
          end
      | _, _ => None
      end in
    match deprecated_by with
    | Some latest_version =>
        let message := message ++ "is deprecated. " in
        let message :=
          message ++ "Please use the latest version `v"
                  ++ str latest_version ++ "`." in
        Raise (GymError DeprecatedEnv message)
    | None =>
        let message := message ++ name ++ " could not be found. " in
        match all_versions with
        | _ :: _ =>
            let* all_versions_sorted :=
              py_sorted EnvSpec.version all_versions in
            let message := message ++ "Valid versions are: [ " in
            let message :=
              message ++
              join ", "
                (map (fun spec => "`v" ++ fmt_int (EnvSpec.version spec) ++ "`")
                     all_versions_sorted) in
            let message := message ++ " ]." in
            Raise (GymError VersionNotFound message)
        | [] =>
            let message :=
              message ++ "This environment appears to be unversioned." in
            Raise (GymError VersionNotFound message)
        end
    end.

Definition __getitem__ (self : t) (key : string) : result EnvSpec.t :=
  let* (namespace, name, version) := parse_env_id key in
  do _assert_version_exists self namespace name version then
  match dict_get version (versions_of self namespace name) with
  | Some spec => Ok spec
  | None => Raise KeyError
  end.

Definition __setitem__ (self : t) (key : string) (value : EnvSpec.t)
  : result t :=
  let* (namespace, name, version) := parse_env_id key in
  let versions := dict_set version value (versions_of self namespace name) in
  let names := dict_set name versions (names_of self namespace) in
  Ok {| tree := dict_set namespace names (tree self);
        _length := _length self + 1 |}.

Definition __delitem__ (self : t) (key : string) : result t :=
  let* (namespace, name, version) := parse_env_id key in
  do _assert_version_exists self namespace name version then
  (* Remove the envspec with this version. *)
  let versions := dict_pop version (versions_of self namespace name) in
  (* Remove the name if it's empty. *)
  let names :=
    match versions with
    | [] => dict_pop name (names_of self namespace)
    | _ => dict_set name versions (names_of self namespace)
    end in
  (* Remove the namespace if it's empty. *)
  let tree :=
    match names with
    | [] => dict_pop namespace (tree self)
    | _ => dict_set namespace names (tree self)
    end in
  Ok {| tree := tree; _length := _length self - 1 |}.

Definition __contains__ (self : t) (key : string) : result bool :=
  let* (namespace, name, version) := parse_env_id key in
  Ok (dict_in namespace (tree self)
      && dict_in name (names_of self namespace)
      && dict_in version (versions_of self namespace name)).

Definition __len__ (self : t) : Z := _length self.

End WithExternals.

(** The leaves in iteration order, each with the keys of its position. *)
Definition items (self : t)
  : list (option string * string * option Z * EnvSpec.t) :=
  flat_map (fun '(namespace, names) =>
    flat_map (fun '(name, versions) =>
      map (fun '(version, spec) => (namespace, name, version, spec))
          versions) names) (tree self).

Fixpoint iterate (leaves : list (option string * string * option Z * EnvSpec.t))
  : result (list string) :=
  match leaves with
  | [] => Ok []
  | (namespace, name, version, spec) :: leaves' =>
      if bool_decide (EnvSpec.namespace spec = namespace)
         && bool_decide (EnvSpec.name spec = name)
         && bool_decide (EnvSpec.version spec = version)
      then let* ids := iterate leaves' in Ok (EnvSpec.id spec :: ids)
      else Raise AssertionError
  end.

(** The ids that the generator [__iter__] yields when run to its end. *)
Definition __iter__ (self : t) : result (list string) :=
  iterate (items self).

End EnvSpecTree.

(** ** Generator-based context managers

    A function under [contextlib.contextmanager] whose single [yield] stands
    outside any [try] statement: the code before the [yield] and the code
    after it, as changes of a state [S]. *)

Record ContextManager (S : Type) := {
  before_yield : S -> S;
  after_yield : S -> S
}.
Arguments before_yield {S} _ _.
Arguments after_yield {S} _ _.

Section With.
Context {S : Type}.

(** [next(gen)] : run to the [yield]. *)
Definition __enter__ (cm : ContextManager S) (s : S) : S :=
  before_yield cm s.

(** Leaving without exception is [next(gen)]: the generator runs from the
    [yield] to its end.  Leaving by an exception is [gen.throw(exc)]: the
    exception is raised at the [yield], nothing there handles it, and it
    leaves the generator at once; the statements after the [yield] are
    not run, and the exception propagates out of the [with]. *)
Definition __exit__ (cm : ContextManager S) (exc : option Exception)
  (s : S) : S :=
  match exc with
  | None => after_yield cm s
  | Some _ => s
  end.

(** [with cm: body].  The body changes the state and either completes or
    raises. *)
Definition with_statement (cm : ContextManager S)
  (body : S -> S * option Exception) (s : S) : S * option Exception :=
  let s := __enter__ cm s in
  let '(s, exc) := body s in
  (__exit__ cm exc s, exc).
End With.

(** ** The registry *)

(** [head, sep, tail = s.partition(":")] when [":" in s]. *)
Fixpoint partition_colon (s : string) : option (string * string) :=
  match s with
  | EmptyString => None
  | String c s' =>
      if (code c =? 58)%N then Some (EmptyString, s')
      else match partition_colon s' with
           | Some (head, tail) => Some (String c head, tail)
           | None => None
           end
  end.

(** [logger.warn(message)] : the message is appended to the log. *)
Definition warn (log : list string) (message : string) : list string :=
  app log [message].

Module EnvRegistry.

Record t := {
  env_specs : EnvSpecTree.t;
  _ns : option string
}.

Definition __init__ : t :=
  {| env_specs := EnvSpecTree.__init__; _ns := None |}.

Definition set_ns (ns : option string) (self : t) : t :=
  {| env_specs := env_specs self; _ns := ns |}.

(** The generator function [namespace]: [self._ns = ns; yield;
    self._ns = None]. *)
Definition namespace (ns : string) : ContextManager t :=
  {| before_yield := set_ns (Some ns);
     after_yield := set_ns None |}.

(** What importing a module does: its code runs, which can change the
    global registry and log messages (a package registers its environments
    when it is imported), and the import completes or raises.  The registry
    is the global one, the only instance that the module creates.  The
    function describes the imports of one moment: a module that was
    imported before is not run again, and leaves the registry as it is. *)
Class Modules := {
  run_module : string -> t -> t * list string * option Exception
}.

Section WithExternals.
Context {E : Externals} {R : Runtime} {M : Modules}.

(** [importlib.import_module(name)] *)
Definition import_module (name : string) (registry : t)
  : t * list string * option Exception :=
  match import_check name with
  | Raise e => (registry, [], Some e)
  | Ok _ => run_module name registry
  end.

(** [spec] returns the registry as the import leaves it, the messages that
    the imported module logged, and its outcome: of the exceptions of the
    import, [ModuleNotFoundError] alone is caught. *)
Definition spec (self : t) (path : string)
  : t * list string * result EnvSpec.t :=
  match partition_colon path with
  | Some (mod_name, id) =>
      match import_module mod_name self with
      | (self, log, None) =>
          (self, log, EnvSpecTree.__getitem__ (env_specs self) id)
      | (self, log, Some ModuleNotFoundError) =>
          (self, log,
           Raise (GymError Error
             ("A module (" ++ mod_name
              ++ ") was specified for the environment but was not found, "
              ++ "make sure the package is installed with `pip install` before calling `gym.make()`")))
      | (self, log, Some e) => (self, log, Raise e)
      end
  | None => (self, [], EnvSpecTree.__getitem__ (env_specs self) path)
  end.

(** [register] returns the warnings it logs and its outcome. *)
Definition register (self : t) (id : string) (kwargs : EnvSpec.args)
  : list string * result t :=
  match EnvSpec.__init__ id kwargs with
  | Raise e => ([], Raise e)
  | Ok spec =>
      let '(log, spec) :=
        match _ns self with
        | Some ns =>
            (match EnvSpec.namespace spec with
             | Some given =>
                 ["Custom namespace '" ++ given
                  ++ "' is being overridden by namespace '" ++ ns ++ "'. "
                  ++ "If you are developing a plugin you shouldn't specify a namespace in `register` calls. "
                  ++ "The namespace is specified through the entry point key."]
             | None => []
             end,
             (* Replace namespace *)
             EnvSpec.set_namespace (Some ns) spec)
        | None => ([], spec)
        end in
      match EnvSpecTree.__contains__ (env_specs self) (EnvSpec.id spec) with
      | Raise e => (log, Raise e)
      | Ok present =>
          let log :=
            if present then warn log ("Overriding environment " ++ id)
            else log in
          (log,
           let* specs :=
             EnvSpecTree.__setitem__ (env_specs self) (EnvSpec.id spec) spec in
           Ok {| env_specs := specs; _ns := _ns self |})
      end
  end.

(** [make] returns the messages logged during the call (those of an
    imported module, then its own warning), the stores and its outcome;
    what becomes of the registry is told by [spec].  The messages logged at
    the info level are left out.  The tree holds its records by value: for
    the call of its [make] the record found is an object of the store. *)
Definition make (h : Store) (objects : EnvSpec.Instances) (self : t)
  (path : string) (kwargs : Kwargs)
  : list string * (Store * EnvSpec.Instances * result EnvSpec.Env) :=
  match spec self path with
  | (_, log, Raise e) => (log, (h, objects, Raise e))
  | (self, log, Ok spec) =>
      match EnvSpecTree.versions (env_specs self)
              (EnvSpec.namespace spec) (EnvSpec.name spec) with
      | Raise e => (log, (h, objects, Raise e))
      | Ok versions =>
          let versioned :=
            List.filter (fun s => match EnvSpec.version s with
                                  | Some v => negb (v =? 0)%Z
                                  | None => false
                                  end) versions in
          match py_max EnvSpec.version versioned with
          | Raise e => (log, (h, objects, Raise e))
          | Ok latest_spec =>
              let warning :=
                match latest_spec, EnvSpec.version spec with
                | Some latest, Some v =>
                    match EnvSpec.version latest with
                    | Some latest_version =>
                        if (v <? latest_version)%Z then
                          ["The environment " ++ EnvSpec.id spec
                           ++ " is out of date. You should consider "
                           ++ "upgrading to version `v" ++ str latest_version
                           ++ "` " ++ "with the environment ID `"
                           ++ EnvSpec.id latest ++ "`."]
                        else []
                    | None => []
                    end
                | _, _ => []
                end in
              (app log warning,
               EnvSpec.make h (objects ++ [spec])%list (List.length objects)
                 kwargs)
          end
      end
  end.

End WithExternals.

End EnvRegistry.

(** ** The grammar of identifiers, as the specification words it

    [[namespace/]name[-vVERSION]] : an optional namespace of word characters,
    dashes and colons, a name of word characters, dashes, colons and dots,
    and an optional version of decimal digits after a literal [-v]. *)

Definition nonempty (s : string) : bool :=
  match s with EmptyString => false | String _ _ => true end.

Definition matches_grammar (id : string) : Prop :=
  exists (ns : option string) (n : string) (digits : option string),
    id = match ns with Some ns => ns ++ "/" | None => "" end
         ++ n
         ++ match digits with Some ds => "-v" ++ ds | None => "" end
    /\ match ns with
       | Some ns => nonempty ns && all_chars is_namespace_char ns = true
       | None => True
       end
    /\ nonempty n && all_chars is_name_char n = true
    /\ match digits with
       | Some ds => nonempty ds && all_chars is_decimal ds = true
       | None => True
       end.

(** ** Auxiliary notions of the statements *)

(** The text that [EnvSpec.id] puts after the name. *)
Definition version_suffix (v : option Z) : string :=
  match v with None => "" | Some v => "-v" ++ str v end.

(** The number that the digits of a [version] group spell, and whether
    [int] accepts them. *)
Definition version_of (digits : option string) : option Z :=
  match digits with
  | Some ds => Some (int_acc ds 0)
  | None => None
  end.

Definition within_limit (digits : option string) : bool :=
  match digits with
  | Some ds => (Z.of_nat (String.length ds) <=? int_max_str_digits)%Z
  | None => true
  end.

(** [c * n] on a one-character string [c]. *)
Fixpoint repeat_char (c : ascii) (n : nat) : string :=
  match n with
  | O => EmptyString
  | S n' => String c (repeat_char c n')
  end.

(** The three levels of a position are all present. *)
Definition present (self : EnvSpecTree.t) (namespace : option string)
  (name : string) (version : option Z) : Prop :=
  exists names versions spec,
    dict_get namespace (EnvSpecTree.tree self) = Some names
    /\ dict_get name names = Some versions
    /\ dict_get version versions = Some spec.

Definition present_b (self : EnvSpecTree.t) (namespace : option string)
  (name : string) (version : option Z) : bool :=
  dict_in namespace (EnvSpecTree.tree self)
  && dict_in name (EnvSpecTree.names_of self namespace)
  && dict_in version (EnvSpecTree.versions_of self namespace name).

(** The integer of a key; only read where the key is present. *)
Definition key_value {A : Type} (key : A -> option Z) (x : A) : Z :=
  match key x with Some z => z | None => 0 end.

(** Every item carries an integer key. *)
Definition versioned {A : Type} (key : A -> option Z) (items : list A) : Prop :=
  Forall (fun x => key x <> None) items.

(** ** Sample data *)

(** An installation without the relocated packages, whose relocation table
    moves Breakout to the namespace ALE and FrozenLake to another package
    without a namespace, and where no close match is ever offered. *)
Definition sample_externals : Externals :=
  {| internal_env_relocation_map :=
       [("Breakout", (Some "ALE", "ale-py"));
        ("FrozenLake", (None, "gym-toytext"))];
     get_close_matches := fun _ _ _ => [];
     find_spec := fun _ => false |}.

(** The outcome of [register(id)], without the log. *)
Definition registered (self : EnvRegistry.t) (id : string)
  : result EnvRegistry.t :=
  snd (EnvRegistry.register self id (EnvSpec.defaults 0)).

(** A record as [register] builds it from an id alone. *)
Definition sample_spec (ns : option string) (n : string) (v : option Z)
  : EnvSpec.t :=
  {| EnvSpec.entry_point := None; EnvSpec.reward_threshold := None;
     EnvSpec.nondeterministic := false; EnvSpec.max_episode_steps := None;
     EnvSpec.order_enforce := Some true; EnvSpec.kwargs := 0%nat;
     EnvSpec.namespace := ns; EnvSpec.name := n; EnvSpec.version := v |}.

(** The tree after [register("A-v0")] and [register("A-v1")]. *)
Definition tree_A_v0_v1 : EnvSpecTree.t :=
  {| EnvSpecTree.tree :=
       [(None, [("A", [(Some 0, sample_spec None "A" (Some 0));
                       (Some 1, sample_spec None "A" (Some 1))])])];
     EnvSpecTree._length := 2 |}.

(** The tree after [register("A")] and [register("A-v1")]. *)
Definition tree_A_A_v1 : EnvSpecTree.t :=
  {| EnvSpecTree.tree :=
       [(None, [("A", [(None, sample_spec None "A" None);
                       (Some 1, sample_spec None "A" (Some 1))])])];
     EnvSpecTree._length := 2 |}.

(** The tree that holds the single id [A-v0]. *)
Definition tree_A_v0 : EnvSpecTree.t :=
  {| EnvSpecTree.tree := [(None, [("A", [(Some 0, sample_spec None "A" (Some 0))])])];
     EnvSpecTree._length := 1 |}.

(** The tree after [register("Breakout-v0")] and
    [register("ALE/Breakout-v5")]. *)
Definition tree_Breakout : EnvSpecTree.t :=
  {| EnvSpecTree.tree :=
       [(None, [("Breakout", [(Some 0, sample_spec None "Breakout" (Some 0))])]);
        (Some "ALE",
         [("Breakout", [(Some 5, sample_spec (Some "ALE") "Breakout" (Some 5))])])];
     EnvSpecTree._length := 2 |}.

(** A tree with [A-v0] at the root and [ALE/Breakout-v5], without any
    Breakout at the root. *)
Definition tree_A_ALE_Breakout : EnvSpecTree.t :=
  {| EnvSpecTree.tree :=
       [(None, [("A", [(Some 0, sample_spec None "A" (Some 0))])]);
        (Some "ALE",
         [("Breakout", [(Some 5, sample_spec (Some "ALE") "Breakout" (Some 5))])])];
     EnvSpecTree._length := 2 |}.

(** A record whose stored keyword arguments are [render_mode="human"] and
    [frameskip=4], and a store that holds them. *)
Definition sample_store : Store :=
  [[("render_mode", PyStr "human"); ("frameskip", PyInt 4)]].

Definition sample_target_spec : EnvSpec.t :=
  {| EnvSpec.entry_point := Some (Path "gym.envs.atari:AtariEnv");
     EnvSpec.reward_threshold := None; EnvSpec.nondeterministic := false;
     EnvSpec.max_episode_steps := None; EnvSpec.order_enforce := Some true;
     EnvSpec.kwargs := 0%nat;
     EnvSpec.namespace := None; EnvSpec.name := "Pong";
     EnvSpec.version := Some 0 |}.

(** An installation in which [gym.envs.atari:AtariEnv] is the class at
    address 7 and no other attribute of any module is found; a call of
    that class makes the environment at address 100, unless it is given a
    [frameskip] of 0, which it refuses; every environment is its own base,
    and every object is its own deep copy, except the object at address 13,
    which cannot be copied. *)
Definition sample_runtime : Runtime :=
  {| import_attribute := fun mod_name attr_name =>
       if String.eqb mod_name "gym.envs.atari" && String.eqb attr_name "AtariEnv"
       then Ok 7%nat else Raise ModuleNotFoundError;
     call := fun fn arguments =>
       if (fn =? 7)%nat then
         match dict_get "frameskip" arguments with
         | Some (PyInt 0) => Raise ValueError
         | _ => Ok 100%nat
         end
       else Raise TypeError;
     unwrapped := fun env => Ok env;
     deepcopy_object := fun address =>
       if (address =? 13)%nat then Raise TypeError else Ok address |}.

(** An installation in which importing [my_pkg] registers [A-v1], and no
    other module is found. *)
Definition sample_modules : EnvRegistry.Modules :=
  {| EnvRegistry.run_module := fun name registry =>
       if String.eqb name "my_pkg" then
         match EnvRegistry.register registry "A-v1" (EnvSpec.defaults 0) with
         | (log, Ok registry') => (registry', log, None)
         | (log, Raise e) => (registry, log, Some e)
         end
       else (registry, [], Some ModuleNotFoundError) |}.

(** ** Reading every record: [all]

    [EnvRegistry.all] returns [self.env_specs.values()], the values view of
    the mapping: walking it takes each id that [__iter__] yields, in turn,
    and reads it through [__getitem__]. *)

Fixpoint read_leaves `{Externals} (self : EnvSpecTree.t)
  (leaves : list (option string * string * option Z * EnvSpec.t))
  : result (list EnvSpec.t) :=
  match leaves with
  | [] => Ok []
  | (namespace, name, version, spec) :: leaves' =>
      if bool_decide (EnvSpec.namespace spec = namespace)
         && bool_decide (EnvSpec.name spec = name)
         && bool_decide (EnvSpec.version spec = version)
      then
        let* value := EnvSpecTree.__getitem__ self (EnvSpec.id spec) in
        let* values := read_leaves self leaves' in
        Ok (value :: values)
      else Raise AssertionError
  end.

(** [list(self.all())] *)
Definition registry_all `{Externals} (self : EnvRegistry.t)
  : result (list EnvSpec.t) :=
  read_leaves (EnvRegistry.env_specs self)
    (EnvSpecTree.items (EnvRegistry.env_specs self)).

(** ** Contexts of the plugin loader *)

(** What a [with] statement can be given here: a generator-based manager
    whose [yield] is bare, a generator-based manager whose body is
    [with inner: yield], or [contextlib.nullcontext()]. *)
Inductive Context (S : Type) :=
  | Generator (cm : ContextManager S)
  | Within (inner : Context S)
  | nullcontext.
Arguments Generator {S} cm.
Arguments Within {S} inner.
Arguments nullcontext {S}.

Fixpoint enter {S : Type} (c : Context S) (s : S) : S :=
  match c with
  | Generator cm => before_yield cm s
  | Within inner => enter inner s
  | nullcontext => s
  end.

(** Leaving [Within inner] is leaving the inner [with] statement, by an
    exception exactly when the body was left by one; the inner manager
    returns nothing true, so the exception propagates. *)
Fixpoint leave {S : Type} (c : Context S) (raised : bool) (s : S) : S :=
  match c with
  | Generator cm => if raised then s else after_yield cm s
  | Within inner => leave inner raised s
  | nullcontext => s
  end.

(** The module-level [namespace(ns)], on the global registry. *)
Definition namespace (ns : string) : Context EnvRegistry.t :=
  Within (Generator (EnvRegistry.namespace ns)).

(** ** The plugin loader *)

(** [s.endswith(suffix)] *)
Fixpoint endswith (s suffix : string) : bool :=
  String.eqb s suffix
  || match s with
     | EmptyString => false
     | String _ s' => endswith s' suffix
     end.

(** An exception that code outside the registry raises: its [str], and
    whether its class derives from [Exception]. *)
Record Raised := {
  raised_str : string;
  is_Exception : bool
}.

(** Reading [plugin.module] and [plugin.attr]. *)
Inductive Attributes :=
  | HasAttributes (module : string) (attr : option string)
  | RaisesAttributeError
  | RaisesOther.

(** The function a plugin names: called without arguments, it changes the
    global registry, logs messages, and returns or raises. *)
Definition Callback : Type :=
  EnvRegistry.t -> EnvRegistry.t * list string * option Raised.

(** An entry point of the group: its name and value, what reading its
    attributes gives, and what [plugin.load()] gives. *)
Record Plugin := {
  plugin_name : string;
  plugin_value : string;
  plugin_attributes : Attributes;
  plugin_load : Raised + Callback
}.

Inductive Loaded :=
  | Completed
  | Failed (e : Exception)
  | Propagated (r : Raised).

(** The [try] statement that finds the module and the attribute, and its
    [finally] clause. *)
Definition check_attr (plugin : Plugin) : result unit :=
  let '(module, attr) :=
    match plugin_attributes plugin with
    | HasAttributes module attr => (Some module, attr)
    | RaisesAttributeError =>
        match partition_colon (plugin_value plugin) with
        | Some (module, attr) => (Some module, Some attr)
        | None => (Some (plugin_value plugin), None)
        end
    | RaisesOther => (None, None)
    end in
  match attr with
  | None =>
      Raise (GymError Error
        ("Gym environment plugin `" ++ fmt_str module
         ++ "` must specify a function to execute, not a root module"))
  | Some _ => Ok tt
  end.

(** The context of a plugin, and the warning logged for an unsupported
    magic key. *)
Definition plugin_context (name : string)
  : list string * Context EnvRegistry.t :=
  if String.prefix "__" name && endswith name "__" then
    if String.eqb name "__root__" || String.eqb name "__internal__" then
      ([], nullcontext)
    else
      (["The environment namespace magic key `" ++ name ++ "` is unsupported. "
        ++ "To register an environment at the root namespace you should specify "
        ++ "the `__root__` namespace."],
       namespace name)
  else ([], namespace name).

(** One turn of the loop of [load_env_plugins], on the global registry and
    the log. *)
Definition load_plugin (plugin : Plugin) (registry : EnvRegistry.t)
  (log : list string) : EnvRegistry.t * list string * Loaded :=
  match check_attr plugin with
  | Raise e => (registry, log, Failed e)
  | Ok _ =>
      let '(warnings, context) := plugin_context (plugin_name plugin) in
      let log := app log warnings in
      let registry := enter context registry in
      let '(registry, log, raised) :=
        (* fn = plugin.load() *)
        match plugin_load plugin with
        | inl r => (registry, log, Some r)
        | inr fn =>
            (* try: fn()  except Exception as e: logger.warn(str(e)) *)
            let '(registry, messages, raised) := fn registry in
            let log := app log messages in
            match raised with
            | Some r =>
                if is_Exception r then (registry, warn log (raised_str r), None)
                else (registry, log, Some r)
            | None => (registry, log, None)
            end
        end in
      match raised with
      | Some r => (leave context true registry, log, Propagated r)
      | None => (leave context false registry, log, Completed)
      end
  end.

(** [load_env_plugins], over the entry points that
    [metadata.entry_points(group=entry_point)] lists. *)
Fixpoint load_env_plugins (plugins : list Plugin) (registry : EnvRegistry.t)
  (log : list string) : EnvRegistry.t * list string * Loaded :=
  match plugins with
  | [] => (registry, log, Completed)
  | plugin :: plugins' =>
      match load_plugin plugin registry log with
      | (registry, log, Completed) => load_env_plugins plugins' registry log
      | stopped => stopped
      end
  end.

(** A plugin function that makes one [register(id)] call. *)
Definition registering (id : string) : Callback :=
  fun registry =>
    match EnvRegistry.register registry id (EnvSpec.defaults 0) with
    | (log, Ok registry') => (registry', log, None)
    | (log, Raise e) =>
        (registry, log,
         Some {| raised_str := match e with GymError _ m => m | _ => "" end;
                 is_Exception := true |})
    end.

(** A plugin named [ALE] whose function registers [Pong-v5], then fails. *)
Definition sample_plugin : Plugin :=
  {| plugin_name := "ALE";
     plugin_value := "ale_py.gym:register_gym_envs";
     plugin_attributes := HasAttributes "ale_py.gym" (Some "register_gym_envs");
     plugin_load :=
       inr (fun registry =>
              let '(registry, log, _) := registering "Pong-v5" registry in
              (registry, log,
               Some {| raised_str := "no ROMs"; is_Exception := true |})) |}.

(** ** Namespaces that the grammar admits *)

Definition no_slash (c : ascii) : bool := negb (Ascii.eqb c "/").

(** A non-empty string of namespace characters. *)
Definition valid_namespace (ns : string) : bool :=
  nonempty ns && all_chars is_namespace_char ns.

(** The record that the constructor [EnvSpec] builds for an id that parses
    to the name and version, once its namespace is set. *)
Definition spec_of (a : EnvSpec.args) (namespace : option string)
  (name : string) (version : option Z) : EnvSpec.t :=
  {| EnvSpec.entry_point := EnvSpec.a_entry_point a;
     EnvSpec.reward_threshold := EnvSpec.a_reward_threshold a;
     EnvSpec.nondeterministic := EnvSpec.a_nondeterministic a;
     EnvSpec.max_episode_steps := EnvSpec.a_max_episode_steps a;
     EnvSpec.order_enforce := EnvSpec.a_order_enforce a;
     EnvSpec.kwargs := EnvSpec.a_kwargs a;
     EnvSpec.namespace := namespace; EnvSpec.name := name;
     EnvSpec.version := version |}.

Definition no_colon (c : ascii) : bool := negb (code c =? 58)%N.

(** ** Well-formed trees *)

Section DictChecks.
Context {K V : Type} `{EqDecision K}.

(** No key is bound twice. *)
Fixpoint distinct_keys (d : Dict K V) : bool :=
  match d with
  | [] => true
  | (k, _) :: d' => negb (dict_in k d') && distinct_keys d'
  end.

(** Every binding satisfies [p]. *)
Fixpoint dict_all (p : K -> V -> bool) (d : Dict K V) : bool :=
  match d with
  | [] => true
  | (k, v) :: d' => p k v && dict_all p d'
  end.

Definition is_empty (d : Dict K V) : bool :=
  match d with [] => true | _ => false end.

(** The sum of [f] over the values. *)
Fixpoint dict_sum (f : V -> nat) (d : Dict K V) : nat :=
  match d with
  | [] => 0%nat
  | (_, v) :: d' => (f v + dict_sum f d')%nat
  end.
End DictChecks.

(** The record at a position carries the keys of the position, and the
    position is the one that its canonical id parses to. *)
Definition leaf_ok (namespace : option string) (name : string)
  (version : option Z) (spec : EnvSpec.t) : bool :=
  bool_decide (EnvSpec.namespace spec = namespace)
  && bool_decide (EnvSpec.name spec = name)
  && bool_decide (EnvSpec.version spec = version)
  && match parse_env_id (EnvSpec.make_id namespace name version) with
     | Ok (namespace', name', version') =>
         bool_decide (namespace' = namespace)
         && bool_decide (name' = name)
         && bool_decide (version' = version)
     | Raise _ => false
     end.

Definition versions_ok (namespace : option string) (name : string)
  (versions : EnvSpecTree.Versions) : bool :=
  negb (is_empty versions) && distinct_keys versions
  && dict_all (leaf_ok namespace name) versions.

Definition names_ok (namespace : option string) (names : EnvSpecTree.Names)
  : bool :=
  negb (is_empty names) && distinct_keys names
  && dict_all (versions_ok namespace) names.

(** A tree as [register] and [__delitem__] build it: each level binds a key
    once, no namespace is without names, no name is without versions, and
    every leaf sits at the position of its own id. *)
Definition well_formed (self : EnvSpecTree.t) : bool :=
  distinct_keys (EnvSpecTree.tree self)
  && dict_all names_ok (EnvSpecTree.tree self).

(** A leaf of the iteration is the record that its position reads. *)
Definition leaf_found (self : EnvSpecTree.t)
  (leaf : option string * string * option Z * EnvSpec.t) : Prop :=
  let '(namespace, name, version, spec) := leaf in
  leaf_ok namespace name version spec = true
  /\ present_b self namespace name version = true
  /\ dict_get version (EnvSpecTree.versions_of self namespace name) = Some spec.

(** The number of leaves under a namespace. *)
Abbreviation leaves_of_names :=
  (dict_sum (fun versions : EnvSpecTree.Versions => List.length versions)).

(** The number of leaves. *)
Definition leaf_count (self : EnvSpecTree.t) : Z :=
  Z.of_nat (List.length (EnvSpecTree.items self)).

(** * Properties *)

(** ** Strings and characters *)

#[local] Arguments String.append !s1 s2 : simpl nomatch.

Lemma append_assoc (a b c : string) : (a ++ b) ++ c = a ++ (b ++ c).
Proof. induction a as [|x a IH]; simpl; [reflexivity | now rewrite IH]. Qed.

Lemma append_empty_l (a : string) : "" ++ a = a.
Proof. reflexivity. Qed.

Lemma append_empty_r (a : string) : a ++ "" = a.
Proof. induction a as [|x a IH]; simpl; [reflexivity | now rewrite IH]. Qed.

Lemma all_chars_app (p : ascii -> bool) (a b : string) :
  all_chars p (a ++ b) = all_chars p a && all_chars p b.
Proof.
  induction a as [|x a IH]; simpl; [reflexivity |].
  rewrite IH. now rewrite andb_assoc.
Qed.

Lemma all_chars_weaken (p q : ascii -> bool) (s : string) :
  (forall c, p c = true -> q c = true) ->
  all_chars p s = true -> all_chars q s = true.
Proof.
  intros Hpq. induction s as [|x s IH]; simpl; [reflexivity |].
  intros [Hx Hs]%andb_true_iff. rewrite (Hpq _ Hx). now apply IH.
Qed.

Lemma span_chars_app (p : ascii -> bool) (run : string) (c : ascii) (rest : string) :
  all_chars p run = true -> p c = false ->
  span_chars p (run ++ String c rest) = (run, String c rest).
Proof.
  intros Hrun Hc. induction run as [|x run IH]; simpl in *.
  - now rewrite Hc.
  - apply andb_true_iff in Hrun as [Hx Hrun]. rewrite Hx, (IH Hrun). reflexivity.
Qed.

Lemma span_chars_spec (p : ascii -> bool) (s run rest : string) :
  span_chars p s = (run, rest) ->
  s = run ++ rest /\ all_chars p run = true.
Proof.
  revert run rest. induction s as [|x s IH]; simpl; intros run rest Hs.
  - inversion Hs. split; reflexivity.
  - destruct (p x) eqn:Hx.
    + destruct (span_chars p s) as [run' rest'] eqn:Hspan.
      inversion Hs; subst. destruct (IH _ _ eq_refl) as [-> Hall].
      simpl. rewrite Hx. split; [reflexivity | exact Hall].
    + inversion Hs; subst. split; reflexivity.
Qed.

Lemma is_decimal_name_char (c : ascii) :
  is_decimal c = true -> is_name_char c = true.
Proof.
  intros Hc. unfold is_name_char, is_word, is_alnum. now rewrite Hc.
Qed.

(** ** Decimal numerals *)

Lemma int_acc_of_uint_acc (d : Decimal.uint) (acc : positive) :
  int_acc (NilEmpty.string_of_uint d) (Z.pos acc)
  = Z.pos (Pos.of_uint_acc d acc).
Proof.
  revert acc. induction d; intros acc; simpl; try reflexivity;
    rewrite <- IHd; f_equal; unfold digit_value; simpl; lia.
Qed.

Lemma int_acc_of_uint (d : Decimal.uint) :
  int_acc (NilEmpty.string_of_uint d) 0 = Z.of_N (Pos.of_uint d).
Proof.
  induction d; simpl; try reflexivity; try exact IHd;
    apply (int_acc_of_uint_acc d).
Qed.

Lemma string_of_uint_decimal (d : Decimal.uint) :
  all_chars is_decimal (NilEmpty.string_of_uint d) = true.
Proof. induction d; simpl; auto. Qed.

Lemma string_of_uint_length (d : Decimal.uint) :
  String.length (NilEmpty.string_of_uint d) = Decimal.nb_digits d.
Proof. induction d; simpl; congruence. Qed.

(** Every string of decimal digits is the text of a numeral. *)
Lemma decimal_string_uint (s : string) :
  all_chars is_decimal s = true ->
  exists d, NilEmpty.string_of_uint d = s.
Proof.
  induction s as [|c s IH]; simpl; [now exists Decimal.Nil |].
  intros [Hc Hs]%andb_true_iff. destruct (IH Hs) as [d <-].
  destruct c as [[] [] [] [] [] [] [] []]; try discriminate;
    first [ now exists (Decimal.D0 d) | now exists (Decimal.D1 d)
          | now exists (Decimal.D2 d) | now exists (Decimal.D3 d)
          | now exists (Decimal.D4 d) | now exists (Decimal.D5 d)
          | now exists (Decimal.D6 d) | now exists (Decimal.D7 d)
          | now exists (Decimal.D8 d) | now exists (Decimal.D9 d) ].
Qed.

Lemma str_of_N (x : N) :
  str (Z.of_N x) = NilZero.string_of_uint (N.to_uint x).
Proof. now destruct x. Qed.

Lemma str_nonneg_digits (n : Z) :
  0 <= n ->
  exists d ds, str n = String d ds
               /\ all_chars is_decimal (String d ds) = true
               /\ int_acc (String d ds) 0 = n.
Proof.
  intros Hn. destruct n as [|p|p]; [| | lia].
  - exists "0"%char, "". repeat split.
  - unfold str. simpl.
    assert (Hnil : Pos.to_uint p <> Decimal.Nil).
    { intros E. pose proof (DecimalPos.Unsigned.of_to p) as Hp.
      rewrite E in Hp. discriminate. }
    assert (Hstr : NilZero.string_of_uint (Pos.to_uint p)
                   = NilEmpty.string_of_uint (Pos.to_uint p)).
    { destruct (Pos.to_uint p); [congruence | reflexivity ..]. }
    rewrite Hstr.
    pose proof (string_of_uint_decimal (Pos.to_uint p)) as Hdec.
    pose proof (int_acc_of_uint (Pos.to_uint p)) as Hint.
    rewrite DecimalPos.Unsigned.of_to in Hint.
    destruct (NilEmpty.string_of_uint (Pos.to_uint p)) as [|d ds] eqn:E.
    + destruct (Pos.to_uint p); simpl in E; congruence.
    + exists d, ds. repeat split; [exact Hdec | exact Hint].
Qed.

Lemma int_acc_nonneg (s : string) (acc : Z) :
  all_chars is_decimal s = true -> 0 <= acc -> 0 <= int_acc s acc.
Proof.
  revert acc. induction s as [|c s IH]; simpl; intros acc Hs Hacc; [exact Hacc |].
  apply andb_true_iff in Hs as [Hc Hs]. apply IH; [exact Hs |].
  unfold is_decimal, between in Hc. apply andb_true_iff in Hc as [Hlo _].
  apply N.leb_le in Hlo. unfold digit_value. lia.
Qed.

(** The text of the number that a digit string spells is no longer than the
    digit string: it is the string without its leading zeros. *)
Lemma str_length_le (ds : string) :
  nonempty ds && all_chars is_decimal ds = true ->
  (String.length (str (int_acc ds 0)) <= String.length ds)%nat.
Proof.
  intros [Hne Hds]%andb_true_iff.
  destruct (decimal_string_uint ds Hds) as [d <-].
  assert (Hd : d <> Decimal.Nil) by (intros ->; discriminate).
  rewrite int_acc_of_uint, str_of_N.
  change (Pos.of_uint d) with (N.of_uint d).
  rewrite DecimalN.Unsigned.to_of.
  pose proof (DecimalFacts.nb_digits_unorm d Hd) as Hle.
  rewrite string_of_uint_length.
  assert (Hunorm : NilZero.string_of_uint (Decimal.unorm d)
                   = NilEmpty.string_of_uint (Decimal.unorm d)).
  { destruct (Decimal.unorm d) eqn:E; [| reflexivity ..].
    exfalso. revert E. apply DecimalFacts.unorm_nonnil. }
  rewrite Hunorm, string_of_uint_length. exact Hle.
Qed.

Lemma int_ok (s : string) :
  Z.of_nat (String.length s) <= int_max_str_digits ->
  int s = Ok (int_acc s 0).
Proof.
  intros Hs. unfold int. now rewrite (proj2 (Z.leb_le _ _) Hs).
Qed.

Lemma int_inv (s : string) (z : Z) :
  int s = Ok z ->
  z = int_acc s 0 /\ Z.of_nat (String.length s) <= int_max_str_digits.
Proof.
  unfold int. destruct (_ <=? _)%Z eqn:E; [| discriminate].
  apply Z.leb_le in E. now intros [= <-].
Qed.

Lemma int_raises (s : string) (e : Exception) :
  int s = Raise e ->
  e = ValueError /\ int_max_str_digits < Z.of_nat (String.length s).
Proof.
  unfold int. destruct (_ <=? _)%Z eqn:E; [discriminate |].
  apply Z.leb_gt in E. now intros [= <-].
Qed.

(** [int] reads back what [str] wrote, wherever the number came from a digit
    string that [int] accepts. *)
Lemma int_str (ds : string) :
  nonempty ds && all_chars is_decimal ds = true ->
  Z.of_nat (String.length ds) <= int_max_str_digits ->
  int (str (int_acc ds 0)) = Ok (int_acc ds 0).
Proof.
  intros Hds Hlen. pose proof (str_length_le ds Hds) as Hle.
  apply andb_true_iff in Hds as [_ Hdec].
  assert (Hnn : 0 <= int_acc ds 0) by (apply int_acc_nonneg; [exact Hdec | lia]).
  destruct (str_nonneg_digits _ Hnn) as (d & rest & Hstr & _ & Hval).
  rewrite int_ok by lia. now rewrite Hstr, Hval.
Qed.

(** ** The parser *)

Lemma match_version_digits (ds : string) :
  nonempty ds && all_chars is_decimal ds = true ->
  match_version ("-v" ++ ds) = Some ds.
Proof.
  intros [Hne Hds]%andb_true_iff. destruct ds as [|d ds]; [discriminate |].
  simpl. simpl in Hds. now rewrite Hds.
Qed.

Lemma match_version_inv (s ds : string) :
  match_version s = Some ds ->
  s = "-v" ++ ds /\ nonempty ds && all_chars is_decimal ds = true.
Proof.
  destruct s as [|c1 [|c2 [|d rest]]]; simpl; try discriminate.
  destruct (Ascii.eqb c1 "-") eqn:E1; [| discriminate].
  destruct (Ascii.eqb c2 "v") eqn:E2; [| discriminate].
  apply Ascii.eqb_eq in E1, E2. subst. simpl.
  destruct (is_decimal d && all_chars is_decimal rest) eqn:Hds; [| discriminate].
  intros [= <-]. simpl. now rewrite Hds.
Qed.

Lemma match_version_str (z : Z) :
  0 <= z -> match_version (version_suffix (Some z)) = Some (str z).
Proof.
  intros Hz. destruct (str_nonneg_digits z Hz) as (d & ds & Hstr & Hdec & Hint).
  unfold version_suffix. rewrite Hstr. apply match_version_digits.
  exact Hdec.
Qed.

Lemma match_version_not_digits (c1 c2 : ascii) (t : string) :
  all_chars is_decimal t = false ->
  match_version (String c1 (String c2 t)) = None.
Proof.
  destruct t as [|d ds]; simpl; [reflexivity |].
  intros ->. now rewrite andb_false_r.
Qed.

(** A version suffix never starts inside the text of a name that is
    followed by [-v]: the dash is not a digit. *)
Lemma match_version_inside (n rest : string) :
  n <> "" -> match_version (n ++ "-v" ++ rest) = None.
Proof.
  intros Hn. destruct n as [|c1 [|c2 n]]; [congruence | |].
  - simpl. destruct (Ascii.eqb c1 "-"); reflexivity.
  - change (String c1 (String c2 n) ++ "-v" ++ rest)
      with (String c1 (String c2 (n ++ "-v" ++ rest))).
    apply match_version_not_digits.
    rewrite all_chars_app. simpl. now rewrite andb_false_r.
Qed.

Lemma match_suffix_inv (s : string) (v : option string) :
  match_suffix s = Some v ->
  match v with
  | Some ds => match_version s = Some ds
  | None => s = ""
  end.
Proof.
  unfold match_suffix. destruct (match_version s) as [z|] eqn:E.
  - now intros [= <-].
  - destruct s; [now intros [= <-] | discriminate].
Qed.

(** The digits of a version group spell a number that is not negative. *)
Lemma version_of_nonneg (s : string) (v : option string) :
  match_suffix s = Some v ->
  match version_of v with Some z => 0 <= z | None => True end.
Proof.
  intros Hs%match_suffix_inv. destruct v as [ds|]; [| exact I].
  apply match_version_inv in Hs as [_ [_ Hds]%andb_true_iff].
  apply int_acc_nonneg; [exact Hds | lia].
Qed.

Lemma match_suffix_version_suffix (v : option Z) :
  match v with Some z => 0 <= z | None => True end ->
  match_suffix (version_suffix v) = Some (option_map str v).
Proof.
  destruct v as [z|]; intros Hv; [| reflexivity].
  unfold match_suffix. now rewrite match_version_str.
Qed.

Lemma match_suffix_inside (n rest : string) :
  n <> "" -> match_suffix (n ++ "-v" ++ rest) = None.
Proof.
  intros Hn. unfold match_suffix. rewrite match_version_inside by exact Hn.
  destruct n; [congruence | reflexivity].
Qed.

(** What a successful match of the name says about its parts. *)
Lemma match_name_inv (s n : string) (v : option string) :
  match_name s = Some (n, v) ->
  nonempty n && all_chars is_name_char n = true
  /\ exists suffix, s = n ++ suffix /\ match_suffix suffix = Some v.
Proof.
  revert n. induction s as [|c s IH]; intros n; simpl; [discriminate |].
  destruct (is_name_char c) eqn:Hc; [| discriminate].
  destruct (match_suffix s) as [v'|] eqn:Hsuf.
  - intros [= <- <-]. simpl. rewrite Hc. split; [reflexivity |].
    exists s. split; [reflexivity | exact Hsuf].
  - destruct (match_name s) as [[n' v']|] eqn:Hname; [| discriminate].
    intros [= <- <-]. destruct (IH _ eq_refl) as ([_ Hn']%andb_true_iff & suffix & -> & Hs).
    simpl. rewrite Hc, Hn'. split; [reflexivity |].
    exists suffix. split; [reflexivity | exact Hs].
Qed.

(** The lazy search stops at the end of a name that the suffix follows:
    no shorter name has a suffix after it. *)
Lemma match_name_exact (n suffix : string) (v : option string) :
  nonempty n && all_chars is_name_char n = true ->
  match_suffix suffix = Some v ->
  (forall a b, a <> "" -> b <> "" -> n = a ++ b ->
               match_suffix (b ++ suffix) = None) ->
  match_name (n ++ suffix) = Some (n, v).
Proof.
  intros [Hne Hn]%andb_true_iff Hsuf.
  induction n as [|c n IH]; [discriminate |]. intros Hshort.
  simpl in Hn. apply andb_true_iff in Hn as [Hc Hn]. simpl. rewrite Hc.
  destruct n as [|c' n].
  - simpl. now rewrite Hsuf.
  - rewrite (Hshort (String c "") (String c' n))
      by (discriminate || reflexivity).
    rewrite IH; [reflexivity | reflexivity | exact Hn |].
    intros a b Ha Hb Hab. apply (Hshort (String c a) b); [discriminate | exact Hb |].
    simpl. now rewrite Hab.
Qed.

(** Matching the name again on the canonical text finds the same name, and
    as digits the text of the number that the digits spelled. *)
Lemma match_name_canonical (s n : string) (v : option string) :
  match_name s = Some (n, v) ->
  match_name (n ++ version_suffix (version_of v))
  = Some (n, option_map str (version_of v)).
Proof.
  revert n. induction s as [|c s IH]; intros n; simpl; [discriminate |].
  destruct (is_name_char c) eqn:Hc; [| discriminate].
  destruct (match_suffix s) as [v'|] eqn:Hsuf.
  - intros [= <- <-]. simpl. rewrite Hc.
    rewrite match_suffix_version_suffix; [reflexivity |].
    exact (version_of_nonneg _ _ Hsuf).
  - destruct (match_name s) as [[n' v']|] eqn:Hname; [| discriminate].
    intros [= <- <-]. simpl. rewrite Hc.
    destruct (match_name_inv _ _ _ Hname) as ([Hne _]%andb_true_iff & suffix & Hs & Hv).
    assert (Hn' : n' <> "") by (destruct n'; [discriminate | congruence]).
    assert (Hnone : match_suffix (n' ++ version_suffix (version_of v')) = None).
    { destruct v' as [ds|]; simpl.
      - apply match_suffix_inside. exact Hn'.
      - apply match_suffix_inv in Hv. subst suffix.
        rewrite append_empty_r in Hs. rewrite append_empty_r, <- Hs. exact Hsuf. }
    rewrite Hnone, (IH _ eq_refl). reflexivity.
Qed.

(** The lazy search for the name finds a match whenever one exists. *)
Lemma match_name_complete (n suffix : string) (v : option string) :
  nonempty n && all_chars is_name_char n = true ->
  match_suffix suffix = Some v ->
  exists n' v', match_name (n ++ suffix) = Some (n', v').
Proof.
  intros [Hne Hn]%andb_true_iff Hsuf.
  induction n as [|c n IH]; [discriminate |].
  simpl in Hn. apply andb_true_iff in Hn as [Hc Hn]. simpl. rewrite Hc.
  destruct (match_suffix (n ++ suffix)) as [v'|] eqn:E; [eauto |].
  destruct n as [|c' n].
  - simpl in E. congruence.
  - destruct (IH eq_refl Hn) as (n' & v' & ->). eauto.
Qed.

Lemma match_namespace_inv (s ns rest : string) :
  match_namespace s = Some (ns, rest) ->
  s = ns ++ "/" ++ rest
  /\ nonempty ns && all_chars is_namespace_char ns = true.
Proof.
  unfold match_namespace.
  destruct (span_chars is_namespace_char s) as [run tail] eqn:Hspan.
  apply span_chars_spec in Hspan as [-> Hrun].
  destruct run as [|c run]; [discriminate |].
  destruct tail as [|slash tail]; [discriminate |].
  destruct (Ascii.eqb slash "/") eqn:E; [| discriminate].
  apply Ascii.eqb_eq in E. subst. intros [= <- <-].
  split; [reflexivity | exact Hrun].
Qed.

Lemma match_namespace_app (ns rest : string) :
  nonempty ns && all_chars is_namespace_char ns = true ->
  match_namespace (ns ++ "/" ++ rest) = Some (ns, rest).
Proof.
  intros [Hne Hns]%andb_true_iff. unfold match_namespace.
  change ("/" ++ rest) with (String "/" rest).
  rewrite span_chars_app by (exact Hns || reflexivity).
  destruct ns; [discriminate | reflexivity].
Qed.

(** A string without any slash has no namespace part. *)
Lemma match_namespace_no_slash (s : string) :
  all_chars (fun c => negb (Ascii.eqb c "/")) s = true ->
  match_namespace s = None.
Proof.
  intros Hs. destruct (match_namespace s) as [[ns rest]|] eqn:E; [| reflexivity].
  apply match_namespace_inv in E as [-> _].
  rewrite all_chars_app in Hs. simpl in Hs.
  now rewrite andb_false_r in Hs.
Qed.

Lemma name_char_not_slash (c : ascii) :
  is_name_char c = true -> negb (Ascii.eqb c "/") = true.
Proof.
  intros Hc. destruct (Ascii.eqb c "/") eqn:E; [| reflexivity].
  apply Ascii.eqb_eq in E. subst. discriminate.
Qed.

Lemma version_suffix_no_slash (v : option Z) :
  match v with Some z => 0 <= z | None => True end ->
  all_chars (fun c => negb (Ascii.eqb c "/")) (version_suffix v) = true.
Proof.
  destruct v as [z|]; [| reflexivity]. intros Hz.
  destruct (str_nonneg_digits z Hz) as (d & ds & Hstr & Hdec & _).
  simpl. rewrite Hstr.
  apply (all_chars_weaken is_decimal); [| exact Hdec].
  intros c Hc. apply name_char_not_slash, is_decimal_name_char, Hc.
Qed.

Lemma make_id_unfold (ns : option string) (n : string) (v : option Z) :
  EnvSpec.make_id ns n v
  = match ns with Some ns => ns ++ "/" | None => "" end
    ++ n ++ version_suffix v.
Proof. reflexivity. Qed.

(** The name and the digits that a full match found were found by the
    search for the name, and its namespace is one of the grammar. *)
Lemma fullmatch_inv (id : string) (ns : option string) (n : string)
  (v : option string) :
  fullmatch id = Some (ns, n, v) ->
  (exists s, match_name s = Some (n, v)
             /\ id = match ns with Some o => o ++ "/" | None => "" end ++ s)
  /\ match ns with
     | Some ns => nonempty ns && all_chars is_namespace_char ns = true
     | None => True
     end.
Proof.
  unfold fullmatch. intros Hid.
  destruct (match_namespace id) as [[ns' rest]|] eqn:Hns.
  - destruct (match_name rest) as [[n' v']|] eqn:Hrest.
    + inversion Hid; subst.
      apply match_namespace_inv in Hns as [-> Hns]. split; [| exact Hns].
      exists rest. split; [exact Hrest |]. now rewrite append_assoc.
    + destruct (match_name id) as [[n' v']|] eqn:Hn; [| discriminate].
      inversion Hid; subst. eauto.
  - destruct (match_name id) as [[n' v']|] eqn:Hn; [| discriminate].
    inversion Hid; subst. eauto.
Qed.

Lemma fullmatch_canonical (id : string) (ns : option string) (n : string)
  (v : option string) :
  fullmatch id = Some (ns, n, v) ->
  fullmatch (EnvSpec.make_id ns n (version_of v))
  = Some (ns, n, option_map str (version_of v)).
Proof.
  intros [(s & Hs & _) Hnsok]%fullmatch_inv. unfold fullmatch.
  pose proof (match_name_canonical _ _ _ Hs) as Hcanon.
  rewrite make_id_unfold. destruct ns as [ns|].
  - rewrite append_assoc, match_namespace_app by exact Hnsok.
    now rewrite Hcanon.
  - rewrite append_empty_l, Hcanon.
    rewrite match_namespace_no_slash; [reflexivity |].
    rewrite all_chars_app.
    destruct (match_name_inv _ _ _ Hs) as ([_ Hn]%andb_true_iff & suffix & _ & Hsuf).
    rewrite (all_chars_weaken is_name_char _ n name_char_not_slash Hn).
    apply version_suffix_no_slash. exact (version_of_nonneg _ _ Hsuf).
Qed.

(** The outcome of the parser, from the outcome of the match. *)
Lemma parse_env_id_fullmatch (id : string) :
  parse_env_id id
  = match fullmatch id with
    | None =>
        Raise (GymError Error
          ("Malformed environment ID: " ++ id ++ "."
           ++ "(Currently all IDs must be of the form " ++ pattern ++ ".)"))
    | Some (ns, n, v) =>
        if within_limit v then Ok (ns, n, version_of v) else Raise ValueError
    end.
Proof.
  unfold parse_env_id. destruct (fullmatch id) as [[[ns n] [ds|]]|];
    try reflexivity.
  unfold int, within_limit. now destruct (_ <=? _)%Z.
Qed.

Lemma parse_env_id_inv (id : string) (ns : option string) (n : string)
  (v : option Z) :
  parse_env_id id = Ok (ns, n, v) ->
  exists digits,
    fullmatch id = Some (ns, n, digits)
    /\ v = version_of digits
    /\ within_limit digits = true.
Proof.
  rewrite parse_env_id_fullmatch.
  destruct (fullmatch id) as [[[ns' n'] ds]|]; [| discriminate].
  destruct (within_limit ds) eqn:Hlimit; [| discriminate].
  intros [= <- <- <-]. eauto.
Qed.

(** The digits of a version that the parser read, written again by [str],
    are digits that [int] accepts and reads as the same number. *)
Lemma version_of_str (s : string) (digits : option string) :
  match_suffix s = Some digits ->
  within_limit digits = true ->
  within_limit (option_map str (version_of digits)) = true
  /\ version_of (option_map str (version_of digits)) = version_of digits.
Proof.
  intros Hs%match_suffix_inv Hlimit. destruct digits as [ds|]; [| auto].
  apply match_version_inv in Hs as [_ Hds].
  simpl in Hlimit. apply Z.leb_le in Hlimit.
  pose proof (int_str ds Hds Hlimit) as Hint.
  apply int_inv in Hint as [Hval Hlen]. simpl. split.
  - now apply Z.leb_le.
  - now rewrite <- Hval.
Qed.

Lemma parse_env_id_canonical (id : string) (ns : option string) (n : string)
  (v : option Z) :
  parse_env_id id = Ok (ns, n, v) ->
  parse_env_id (EnvSpec.make_id ns n v) = Ok (ns, n, v).
Proof.
  intros (digits & Hmatch & -> & Hlimit)%parse_env_id_inv.
  rewrite parse_env_id_fullmatch, (fullmatch_canonical _ _ _ _ Hmatch).
  destruct (fullmatch_inv _ _ _ _ Hmatch) as [(s & Hs & _) _].
  destruct (match_name_inv _ _ _ Hs) as (_ & suffix & _ & Hsuf).
  destruct (version_of_str _ _ Hsuf Hlimit) as [-> ->]. reflexivity.
Qed.

Lemma fullmatch_complete (id : string) :
  matches_grammar id -> exists t, fullmatch id = Some t.
Proof.
  intros (ns & n & digits & -> & Hns & Hn & Hds).
  assert (Hsuf : exists v, match_suffix
            match digits with Some ds => "-v" ++ ds | None => "" end = Some v).
  { destruct digits as [ds|]; [| now exists None].
    exists (Some ds). unfold match_suffix.
    now rewrite match_version_digits. }
  destruct Hsuf as [v Hsuf].
  destruct (match_name_complete _ _ _ Hn Hsuf) as (n' & v' & Hname).
  unfold fullmatch. destruct ns as [ns|].
  - rewrite append_assoc, match_namespace_app by exact Hns.
    rewrite Hname. eauto.
  - rewrite append_empty_l, Hname.
    destruct (match_namespace _) as [[ns' rest]|]; [| eauto].
    destruct (match_name rest) as [[n'' v'']|]; eauto.
Qed.

(** What a match of the name says about the text matched. *)
Lemma match_name_spelled (s n : string) (v : option string) :
  match_name s = Some (n, v) ->
  s = n ++ match v with Some ds => "-v" ++ ds | None => "" end
  /\ nonempty n && all_chars is_name_char n = true
  /\ match v with
     | Some ds => nonempty ds && all_chars is_decimal ds = true
     | None => True
     end.
Proof.
  intros (Hn & suffix & -> & Hsuf)%match_name_inv.
  apply match_suffix_inv in Hsuf. destruct v as [ds|].
  - apply match_version_inv in Hsuf as (-> & Hds). auto.
  - subst. auto.
Qed.

Lemma fullmatch_sound (id : string) (t : option string * string * option string) :
  fullmatch id = Some t -> matches_grammar id.
Proof.
  destruct t as [[ns n] v]. intros [(s & Hs & ->) Hns]%fullmatch_inv.
  destruct (match_name_spelled _ _ _ Hs) as (-> & Hn & Hv).
  exists ns, n, v. auto.
Qed.

(** A version that the parser read is written by [str] in no more digits
    than [int] accepts. *)
Lemma parsed_version_str (id : string) (ns : option string) (n : string)
  (z : Z) :
  parse_env_id id = Ok (ns, n, Some z) ->
  0 <= z /\ Z.of_nat (String.length (str z)) <= int_max_str_digits.
Proof.
  intros (digits & Hmatch & Hz & Hlimit)%parse_env_id_inv.
  destruct digits as [ds|]; [| discriminate]. injection Hz as ->.
  destruct (fullmatch_inv _ _ _ _ Hmatch) as [(s & Hs & _) _].
  destruct (match_name_spelled _ _ _ Hs) as (_ & _ & Hds).
  pose proof (str_length_le ds Hds) as Hle.
  simpl in Hlimit. apply Z.leb_le in Hlimit. split; [| lia].
  apply andb_true_iff in Hds as [_ Hds].
  apply int_acc_nonneg; [exact Hds | lia].
Qed.

(** ** Dictionaries *)

Section DictFacts.
Context {K V : Type} `{EqDecision K}.
Implicit Types (k : K) (v : V) (d : Dict K V).

Lemma dict_get_set_eq k v d : dict_get k (dict_set k v d) = Some v.
Proof.
  induction d as [|[k' v'] d IH]; simpl.
  - now rewrite decide_True.
  - destruct (decide (k = k')) as [->|Hne]; simpl.
    + now rewrite decide_True.
    + now rewrite decide_False.
Qed.

Lemma dict_get_set_ne k k' v d :
  k <> k' -> dict_get k' (dict_set k v d) = dict_get k' d.
Proof.
  intros Hne. induction d as [|[k0 v0] d IH]; simpl.
  - rewrite decide_False by congruence. reflexivity.
  - destruct (decide (k = k0)) as [->|Hk]; simpl.
    + now rewrite !decide_False by congruence.
    + now rewrite IH.
Qed.

Lemma dict_get_pop_eq k d : dict_get k (dict_pop k d) = None.
Proof.
  induction d as [|[k' v'] d IH]; simpl; [reflexivity |].
  destruct (decide (k = k')) as [->|Hne]; simpl; [exact IH |].
  now rewrite decide_False.
Qed.

Lemma dict_get_pop_ne k k' d :
  k <> k' -> dict_get k' (dict_pop k d) = dict_get k' d.
Proof.
  intros Hne. induction d as [|[k0 v0] d IH]; simpl; [reflexivity |].
  destruct (decide (k = k0)) as [->|Hk]; simpl.
  - rewrite IH. now rewrite decide_False by congruence.
  - now rewrite IH.
Qed.

Lemma dict_in_set_eq k v d : dict_in k (dict_set k v d) = true.
Proof. unfold dict_in. now rewrite dict_get_set_eq. Qed.

Lemma dict_in_pop_eq k d : dict_in k (dict_pop k d) = false.
Proof. unfold dict_in. now rewrite dict_get_pop_eq. Qed.

Lemma dict_in_true k d : dict_in k d = true <-> exists v, dict_get k d = Some v.
Proof.
  unfold dict_in. destruct (dict_get k d) as [v|]; split; eauto.
  - discriminate.
  - intros [v Hv]. discriminate.
Qed.

Lemma dict_set_nonempty k v d : dict_set k v d <> [].
Proof.
  destruct d as [|[k' v'] d]; simpl; [discriminate |].
  destruct (decide (k = k')); discriminate.
Qed.

Lemma dict_get_singleton k d :
  dict_keys d = [k] -> exists v, d = [(k, v)].
Proof.
  destruct d as [|[k' v'] [|? ?]]; simpl; try discriminate.
  intros [= ->]. eauto.
Qed.

(** Updating with a dictionary: its bindings win, the others stay. *)
Lemma dict_get_update k d other :
  NoDup (dict_keys other) ->
  dict_get k (dict_update d other)
  = match dict_get k other with
    | Some v => Some v
    | None => dict_get k d
    end.
Proof.
  unfold dict_update. revert d.
  induction other as [|[k1 v1] other IH]; intros d Hnd; simpl; [reflexivity |].
  inversion Hnd as [|? ? Hnotin Hnd']; subst.
  rewrite (IH _ Hnd'). destruct (decide (k = k1)) as [->|Hne].
  - assert (Hnone : dict_get k1 other = None).
    { clear -Hnotin. induction other as [|[k2 v2] other IH]; simpl; [reflexivity |].
      simpl in Hnotin. rewrite not_elem_of_cons in Hnotin.
      destruct Hnotin as [Hne Hnotin].
      rewrite decide_False by exact Hne. now apply IH. }
    rewrite Hnone. apply dict_get_set_eq.
  - destruct (dict_get k other); [reflexivity |].
    apply dict_get_set_ne. congruence.
Qed.
End DictFacts.

(** ** The specification tree *)

Lemma present_b_true self namespace name version :
  present_b self namespace name version = true
  <-> present self namespace name version.
Proof.
  unfold present_b, present, EnvSpecTree.versions_of, EnvSpecTree.names_of, dict_in.
  destruct (dict_get namespace (EnvSpecTree.tree self)) as [names|]; simpl.
  - destruct (dict_get name names) as [versions|] eqn:Hn; simpl.
    + destruct (dict_get version versions) as [spec|] eqn:Hv; simpl.
      * split; [intros _; exists names, versions, spec; auto | reflexivity].
      * split; [discriminate |]. intros (? & ? & ? & [= <-] & Hn' & Hv').
        rewrite Hn in Hn'. injection Hn' as <-. congruence.
    + split; [discriminate |]. intros (? & ? & ? & [= <-] & ? & ?). congruence.
  - split; [discriminate |]. intros (? & ? & ? & ? & ?). congruence.
Qed.

Lemma versions_of_nonempty self namespace name :
  EnvSpecTree.versions_of self namespace name <> [] ->
  dict_in namespace (EnvSpecTree.tree self) = true
  /\ dict_in name (EnvSpecTree.names_of self namespace) = true.
Proof.
  unfold EnvSpecTree.versions_of, EnvSpecTree.names_of, dict_in.
  destruct (dict_get namespace (EnvSpecTree.tree self)) as [names|]; simpl;
    [| congruence].
  destruct (dict_get name names); simpl; [auto | congruence].
Qed.

(** A position is absent from a tree whose namespace entry is [names], or
    no entry when [names] is empty, as soon as [names] lacks the name or the
    name's versions lack the version. *)
Lemma absent_after_delete self namespace name version (names : EnvSpecTree.Names) :
  dict_get namespace (EnvSpecTree.tree self)
  = match names with [] => None | _ => Some names end ->
  dict_get name names = None
  \/ (exists versions, dict_get name names = Some versions
                       /\ dict_get version versions = None) ->
  dict_in namespace (EnvSpecTree.tree self)
  && dict_in name (EnvSpecTree.names_of self namespace)
  && dict_in version (EnvSpecTree.versions_of self namespace name) = false.
Proof.
  intros Htree Habsent.
  unfold EnvSpecTree.versions_of, EnvSpecTree.names_of, dict_in. rewrite Htree.
  destruct names as [|b names]; [reflexivity |].
  destruct Habsent as [Hn | (versions & Hn & Hv)]; rewrite Hn;
    [reflexivity | now rewrite Hv].
Qed.

Section TreeFacts.
Context `{Externals}.
Implicit Types (self : EnvSpecTree.t).

Lemma assert_namespace_exists_ok self namespace :
  dict_in namespace (EnvSpecTree.tree self) = true ->
  EnvSpecTree._assert_namespace_exists self namespace = Ok tt.
Proof. unfold EnvSpecTree._assert_namespace_exists. now intros ->. Qed.

Lemma assert_namespace_exists_raises self namespace :
  dict_in namespace (EnvSpecTree.tree self) = false ->
  exists message,
    EnvSpecTree._assert_namespace_exists self namespace
    = Raise (GymError NamespaceNotFound message).
Proof. unfold EnvSpecTree._assert_namespace_exists. intros ->. eauto. Qed.

Lemma assert_name_exists_ok self namespace name :
  dict_in namespace (EnvSpecTree.tree self) = true ->
  dict_in name (EnvSpecTree.names_of self namespace) = true ->
  EnvSpecTree._assert_name_exists self namespace name = Ok tt.
Proof.
  intros Hns Hn. unfold EnvSpecTree._assert_name_exists.
  rewrite assert_namespace_exists_ok by exact Hns. simpl. now rewrite Hn.
Qed.

(** A failing name check raises one of the two errors that the relocated
    lookup of [versions] swallows. *)
Lemma assert_name_exists_raises self namespace name :
  dict_in namespace (EnvSpecTree.tree self)
  && dict_in name (EnvSpecTree.names_of self namespace) = false ->
  exists e,
    EnvSpecTree._assert_name_exists self namespace name = Raise e
    /\ is_UnregisteredEnv e = true
    /\ forall message, e <> GymError VersionNotFound message.
Proof.
  intros Hmiss. unfold EnvSpecTree._assert_name_exists.
  destruct (dict_in namespace (EnvSpecTree.tree self)) eqn:Hns.
  - rewrite assert_namespace_exists_ok by exact Hns. simpl in *.
    rewrite Hmiss. unfold EnvSpecTree.names.
    rewrite assert_namespace_exists_ok by exact Hns. simpl.
    destruct namespace as [ns|];
      [| destruct (dict_get name internal_env_relocation_map) as [[[?|] ?]|]];
      simpl; eexists; (split; [reflexivity | split; [reflexivity | discriminate]]).
  - destruct (assert_namespace_exists_raises _ _ Hns) as [message ->].
    simpl. eexists. split; [reflexivity | split; [reflexivity | discriminate]].
Qed.

Lemma assert_version_exists_ok self namespace name version :
  present_b self namespace name version = true ->
  EnvSpecTree._assert_version_exists self namespace name version = Ok tt.
Proof.
  unfold present_b. intros [[Hns Hn]%andb_true_iff Hv]%andb_true_iff.
  unfold EnvSpecTree._assert_version_exists.
  rewrite assert_name_exists_ok by assumption. simpl. now rewrite Hv.
Qed.

Lemma assert_version_exists_raises self namespace name version :
  present_b self namespace name version = false ->
  exists e,
    EnvSpecTree._assert_version_exists self namespace name version = Raise e.
Proof.
  unfold present_b. intros Hmiss.
  unfold EnvSpecTree._assert_version_exists.
  destruct (dict_in namespace (EnvSpecTree.tree self)
            && dict_in name (EnvSpecTree.names_of self namespace)) eqn:Hname.
  - apply andb_true_iff in Hname as [Hns Hn].
    rewrite assert_name_exists_ok by assumption. simpl.
    simpl in Hmiss. rewrite Hmiss.
    destruct (py_max _ _) as [latest|e]; simpl; [| eauto].
    match goal with |- context [match ?d with Some _ => _ | None => _ end] =>
      destruct d end; [eauto |].
    destruct (dict_values _); [eauto |].
    destruct (py_sorted _ _); simpl; eauto.
  - destruct (assert_name_exists_raises _ _ _ Hname) as (e & -> & _). simpl. eauto.
Qed.

Lemma getitem_present self key namespace name version :
  parse_env_id key = Ok (namespace, name, version) ->
  present_b self namespace name version = true ->
  EnvSpecTree.__getitem__ self key
  = match dict_get version (EnvSpecTree.versions_of self namespace name) with
    | Some spec => Ok spec
    | None => Raise KeyError
    end.
Proof.
  intros Hparse Hpresent. unfold EnvSpecTree.__getitem__.
  rewrite Hparse. simpl. now rewrite assert_version_exists_ok.
Qed.

Lemma getitem_succeeds self key namespace name version :
  parse_env_id key = Ok (namespace, name, version) ->
  succeeds (EnvSpecTree.__getitem__ self key)
  = present_b self namespace name version.
Proof.
  intros Hparse.
  destruct (present_b self namespace name version) eqn:Hpresent.
  - rewrite (getitem_present _ _ _ _ _ Hparse Hpresent).
    unfold present_b in Hpresent. apply andb_true_iff in Hpresent as [_ Hv].
    unfold dict_in in Hv. now destruct (dict_get version _).
  - unfold EnvSpecTree.__getitem__. rewrite Hparse. simpl.
    now destruct (assert_version_exists_raises _ _ _ _ Hpresent) as [e ->].
Qed.

(** The tree after an assignment, level by level. *)
Lemma setitem_ok self key value namespace name version :
  parse_env_id key = Ok (namespace, name, version) ->
  exists self',
    EnvSpecTree.__setitem__ self key value = Ok self'
    /\ dict_in namespace (EnvSpecTree.tree self') = true
    /\ EnvSpecTree.names_of self' namespace
       = dict_set name
           (dict_set version value (EnvSpecTree.versions_of self namespace name))
           (EnvSpecTree.names_of self namespace)
    /\ EnvSpecTree.versions_of self' namespace name
       = dict_set version value (EnvSpecTree.versions_of self namespace name)
    /\ EnvSpecTree._length self' = EnvSpecTree._length self + 1.
Proof.
  intros Hparse. unfold EnvSpecTree.__setitem__. rewrite Hparse. simpl.
  eexists. split; [reflexivity |].
  unfold EnvSpecTree.versions_of, EnvSpecTree.names_of. simpl.
  rewrite dict_in_set_eq, !dict_get_set_eq. auto.
Qed.

(** The tree after a deletion at a present position. *)
Lemma delitem_ok self key namespace name version :
  parse_env_id key = Ok (namespace, name, version) ->
  present_b self namespace name version = true ->
  exists self',
    EnvSpecTree.__delitem__ self key = Ok self'
    /\ EnvSpecTree._length self' = EnvSpecTree._length self - 1
    /\ let versions :=
         dict_pop version (EnvSpecTree.versions_of self namespace name) in
       let names :=
         match versions with
         | [] => dict_pop name (EnvSpecTree.names_of self namespace)
         | _ => dict_set name versions (EnvSpecTree.names_of self namespace)
         end in
       dict_get namespace (EnvSpecTree.tree self')
       = match names with [] => None | _ => Some names end.
Proof.
  intros Hparse Hpresent. unfold EnvSpecTree.__delitem__.
  rewrite Hparse. simpl. rewrite assert_version_exists_ok by exact Hpresent.
  simpl. eexists. split; [reflexivity |]. split; [reflexivity |]. simpl.
  match goal with |- context [match ?n with [] => dict_pop namespace _ | _ => _ end] =>
    destruct n eqn:Hn end.
  - apply dict_get_pop_eq.
  - apply dict_get_set_eq.
Qed.
End TreeFacts.

(** ** Assignment, lookup, deletion and membership *)

(** C7.  For every tree and every valid id: after [set(id, record)],
    [get(id)] returns that record; after [set] then [delete], [contains(id)]
    is false; deleting the only version of a name removes the name from its
    namespace; and when that name was the only one of its namespace, the
    namespace is removed from the tree. *)
Theorem set_get_delete_contains `{Externals} (self : EnvSpecTree.t)
  (id : string) (record : EnvSpec.t) (ns : option string) (n : string)
  (v : option Z) :
  parse_env_id id = Ok (ns, n, v) ->
  (exists self1,
     EnvSpecTree.__setitem__ self id record = Ok self1
     /\ EnvSpecTree.__getitem__ self1 id = Ok record
     /\ exists self2,
          EnvSpecTree.__delitem__ self1 id = Ok self2
          /\ EnvSpecTree.__contains__ self2 id = Ok false)
  /\ (dict_keys (EnvSpecTree.versions_of self ns n) = [v] ->
      exists self',
        EnvSpecTree.__delitem__ self id = Ok self'
        /\ dict_in n (EnvSpecTree.names_of self' ns) = false)
  /\ (dict_keys (EnvSpecTree.versions_of self ns n) = [v] ->
      dict_keys (EnvSpecTree.names_of self ns) = [n] ->
      exists self',
        EnvSpecTree.__delitem__ self id = Ok self'
        /\ dict_in ns (EnvSpecTree.tree self') = false).
Proof.
  intros Hparse.
  assert (Hsingle : forall t,
    dict_keys (EnvSpecTree.versions_of t ns n) = [v] ->
    present_b t ns n v = true
    /\ dict_pop v (EnvSpecTree.versions_of t ns n) = []).
  { intros t Hkeys. destruct (dict_get_singleton _ _ Hkeys) as [r Hr].
    destruct (versions_of_nonempty t ns n) as [Hns Hn]; [now rewrite Hr |].
    unfold present_b. rewrite Hns, Hn, Hr. simpl.
    unfold dict_in. simpl. rewrite decide_True by reflexivity.
    split; [reflexivity |]. now rewrite decide_True. }
  repeat split.
  - destruct (setitem_ok self id record _ _ _ Hparse)
      as (self1 & Hset & Hns & Hnames & Hversions & _).
    assert (Hpresent : present_b self1 ns n v = true).
    { unfold present_b.
      now rewrite Hns, Hnames, Hversions, !dict_in_set_eq. }
    exists self1. split; [exact Hset |]. split.
    + rewrite (getitem_present _ _ _ _ _ Hparse Hpresent), Hversions.
      now rewrite dict_get_set_eq.
    + destruct (delitem_ok self1 id _ _ _ Hparse Hpresent)
        as (self2 & Hdel & _ & Htree).
      exists self2. split; [exact Hdel |].
      unfold EnvSpecTree.__contains__. rewrite Hparse. simpl. f_equal.
      apply (absent_after_delete _ _ _ _ _ Htree).
      destruct (dict_pop v (EnvSpecTree.versions_of self1 ns n)) as [|b vs] eqn:Hvs.
      * left. apply dict_get_pop_eq.
      * right. exists (b :: vs). split; [apply dict_get_set_eq |].
        rewrite <- Hvs. apply dict_get_pop_eq.
  - intros Hkeys. destruct (Hsingle _ Hkeys) as [Hpresent Hpop].
    destruct (delitem_ok self id _ _ _ Hparse Hpresent)
      as (self' & Hdel & _ & Htree).
    exists self'. split; [exact Hdel |].
    simpl in Htree. rewrite Hpop in Htree.
    unfold EnvSpecTree.names_of at 1. rewrite Htree.
    destruct (dict_pop n (EnvSpecTree.names_of self ns)) as [|b names] eqn:Hns';
      [reflexivity |].
    rewrite <- Hns'. apply dict_in_pop_eq.
  - intros Hkeys Hnames. destruct (Hsingle _ Hkeys) as [Hpresent Hpop].
    destruct (delitem_ok self id _ _ _ Hparse Hpresent)
      as (self' & Hdel & _ & Htree).
    exists self'. split; [exact Hdel |].
    simpl in Htree. rewrite Hpop in Htree.
    destruct (dict_get_singleton _ _ Hnames) as [vs Hvs].
    rewrite Hvs in Htree. simpl in Htree. rewrite decide_True in Htree by reflexivity.
    unfold dict_in. now rewrite Htree.
Qed.

Lemma set_get_delete_contains_witness :
  (exists self1,
     EnvSpecTree.__setitem__ tree_A_v0 "A-v0" (sample_spec None "A" (Some 0))
     = Ok self1
     /\ EnvSpecTree.__getitem__ (H := sample_externals) self1 "A-v0"
        = Ok (sample_spec None "A" (Some 0))
     /\ exists self2,
          EnvSpecTree.__delitem__ (H := sample_externals) self1 "A-v0" = Ok self2
          /\ EnvSpecTree.__contains__ self2 "A-v0" = Ok false)
  /\ (exists self',
        EnvSpecTree.__delitem__ (H := sample_externals) tree_A_v0 "A-v0" = Ok self'
        /\ dict_in "A" (EnvSpecTree.names_of self' None) = false)
  /\ (exists self',
        EnvSpecTree.__delitem__ (H := sample_externals) tree_A_v0 "A-v0" = Ok self'
        /\ dict_in None (EnvSpecTree.tree self') = false).
Proof.
  destruct (@set_get_delete_contains sample_externals tree_A_v0 "A-v0"
              (sample_spec None "A" (Some 0)) None "A" (Some 0) eq_refl)
    as (H1 & H2 & H3).
  split; [exact H1 |].
  split; [exact (H2 eq_refl) | exact (H3 eq_refl eq_refl)].
Defined.

(** C9, as the claim states it, fails on a malformed id: [contains] raises
    the parser's error. *)
Lemma contains_raises_on_malformed_id :
  ~ exists b : bool,
      EnvSpecTree.__contains__ EnvSpecTree.__init__ "Pong v0" = Ok b.
Proof. intros [b Hb]. vm_compute in Hb. discriminate. Qed.

(** C9, amended.  [contains(id)] parses the id as [get] does.  On an id that
    parses it raises nothing and returns a boolean, true exactly when
    namespace, name and version are all present, which is exactly when
    [get] succeeds; on a malformed id it raises the same error as [get]. *)
Theorem contains_spec `{Externals} (self : EnvSpecTree.t) (key : string) :
  match parse_env_id key with
  | Ok (ns, n, v) =>
      exists b : bool,
        EnvSpecTree.__contains__ self key = Ok b
        /\ (b = true <-> present self ns n v)
        /\ b = succeeds (EnvSpecTree.__getitem__ self key)
  | Raise e =>
      EnvSpecTree.__contains__ self key = Raise e
      /\ EnvSpecTree.__getitem__ self key = Raise e
  end.
Proof.
  destruct (parse_env_id key) as [[[ns n] v]|e] eqn:Hparse.
  - exists (present_b self ns n v). split; [| split].
    + unfold EnvSpecTree.__contains__. now rewrite Hparse.
    + apply present_b_true.
    + symmetry. now apply getitem_succeeds.
  - unfold EnvSpecTree.__contains__, EnvSpecTree.__getitem__.
    now rewrite Hparse.
Qed.

(** Where the name is missing under the namespace, [versions] raises the
    error of the name check: NamespaceNotFound when the tree lacks the
    namespace, NameNotFound when the namespace lacks the name. *)
Lemma versions_name_missing `{Externals} (self : EnvSpecTree.t)
  (namespace : option string) (name : string) :
  dict_in namespace (EnvSpecTree.tree self)
  && dict_in name (EnvSpecTree.names_of self namespace) = false ->
  exists message,
    EnvSpecTree.versions self namespace name
    = Raise (GymError (if dict_in namespace (EnvSpecTree.tree self)
                       then NameNotFound else NamespaceNotFound) message).
Proof.
  intros Hmiss. unfold EnvSpecTree.versions, EnvSpecTree._assert_name_exists.
  destruct (dict_in namespace (EnvSpecTree.tree self)) eqn:Hns.
  - rewrite assert_namespace_exists_ok by exact Hns. cbn [bind].
    simpl in Hmiss. rewrite Hmiss. unfold EnvSpecTree.names.
    rewrite assert_namespace_exists_ok by exact Hns. cbn [bind].
    destruct namespace as [ns|];
      [| destruct (dict_get name internal_env_relocation_map) as [[[?|] ?]|]];
      cbn [bind]; eauto.
  - destruct (assert_namespace_exists_raises _ _ Hns) as [message ->].
    cbn [bind]. eauto.
Qed.

(** C5, as the claim states it, fails where the name is registered under the
    relocated namespace only: the namespace asked for is the no-namespace
    key, Breakout is in the relocation table, the relocated namespace ALE
    holds it, and yet [versions] returns no sequence: it raises the
    NameNotFound of the first name check. *)
Lemma versions_raises_without_base_name :
  dict_get "Breakout" (internal_env_relocation_map (Externals := sample_externals))
  = Some (Some "ALE", "ale-py")
  /\ dict_in "Breakout" (EnvSpecTree.names_of tree_A_ALE_Breakout (Some "ALE"))
     = true
  /\ EnvSpecTree.versions (H := sample_externals) tree_A_ALE_Breakout None
       "Breakout"
     = Raise (GymError NameNotFound
         "The environment `Breakout` has been moved out of Gym to the package `ale-py`. Please install the package via `pip install ale-py`. You can instantiate the new namespaced environment as `ALE/Breakout`.").
Proof. repeat split. Qed.

(** C5, amended.  [versions] first checks the namespace and the name: where
    the tree lacks the namespace it raises NamespaceNotFound, where the
    namespace lacks the name it raises NameNotFound, also when the name is
    registered under its relocated namespace.  Where the name exists under
    the namespace, it returns the records stored there, followed, exactly
    when the namespace is the no-namespace key, the name is in the
    relocation table and the relocated namespace holds the name, by the
    records stored under the relocated namespace; when the relocated lookup
    fails, the base records alone are returned, without error. *)
Theorem versions_with_relocation `{Externals} (self : EnvSpecTree.t)
  (namespace : option string) (name : string) :
  if dict_in namespace (EnvSpecTree.tree self)
     && dict_in name (EnvSpecTree.names_of self namespace)
  then
    EnvSpecTree.versions self namespace name
    = Ok (dict_values (EnvSpecTree.versions_of self namespace name)
          ++ match namespace, dict_get name internal_env_relocation_map with
             | None, Some (relocated_namespace, _) =>
                 if dict_in relocated_namespace (EnvSpecTree.tree self)
                    && dict_in name
                         (EnvSpecTree.names_of self relocated_namespace)
                 then dict_values
                        (EnvSpecTree.versions_of self relocated_namespace name)
                 else []
             | _, _ => []
             end)%list
  else
    exists message,
      EnvSpecTree.versions self namespace name
      = Raise (GymError (if dict_in namespace (EnvSpecTree.tree self)
                         then NameNotFound else NamespaceNotFound) message).
Proof.
  destruct (dict_in namespace (EnvSpecTree.tree self)
            && dict_in name (EnvSpecTree.names_of self namespace)) eqn:Hname;
    [| exact (versions_name_missing _ _ _ Hname)].
  apply andb_true_iff in Hname as [Hns Hn]. unfold EnvSpecTree.versions.
  rewrite assert_name_exists_ok by assumption. simpl.
  destruct namespace as [ns|]; [now rewrite app_nil_r |].
  destruct (dict_get name internal_env_relocation_map) as [[rns pkg]|];
    [| now rewrite app_nil_r].
  destruct (dict_in rns (EnvSpecTree.tree self)
            && dict_in name (EnvSpecTree.names_of self rns)) eqn:Hreloc.
  - apply andb_true_iff in Hreloc as [Hrns Hrn].
    now rewrite assert_name_exists_ok by assumption.
  - destruct (assert_name_exists_raises _ _ _ Hreloc) as (e & -> & -> & _).
    now rewrite app_nil_r.
Qed.

Example versions_of_Breakout :
  EnvSpecTree.versions (H := sample_externals) tree_Breakout None "Breakout"
  = Ok [sample_spec None "Breakout" (Some 0);
        sample_spec (Some "ALE") "Breakout" (Some 5)].
Proof. reflexivity. Qed.

(** ** Canonical ids and totality of the parser *)

(** The parts of an id with a version: after the name, the search for the
    name finds the version group, and its digits are those of the id. *)
Lemma fullmatch_version (ns : option string) (n digits : string) :
  match ns with
  | Some o => nonempty o && all_chars is_namespace_char o = true
  | None => True
  end ->
  nonempty n && all_chars is_name_char n = true ->
  nonempty digits && all_chars is_decimal digits = true ->
  fullmatch (match ns with Some o => o ++ "/" | None => "" end
             ++ n ++ "-v" ++ digits)
  = Some (ns, n, Some digits).
Proof.
  intros Hns Hn Hds.
  assert (Hname : match_name (n ++ "-v" ++ digits) = Some (n, Some digits)).
  { apply match_name_exact; [exact Hn | |].
    - unfold match_suffix. now rewrite match_version_digits.
    - intros a b _ Hb _. now apply match_suffix_inside. }
  unfold fullmatch. destruct ns as [o|].
  - rewrite append_assoc, match_namespace_app by exact Hns. now rewrite Hname.
  - rewrite append_empty_l, Hname.
    rewrite match_namespace_no_slash; [reflexivity |].
    apply andb_true_iff in Hn as [_ Hn]. apply andb_true_iff in Hds as [_ Hds].
    rewrite !all_chars_app.
    rewrite (all_chars_weaken is_name_char _ n name_char_not_slash Hn).
    simpl. apply (all_chars_weaken is_decimal); [| exact Hds].
    intros c Hc. apply name_char_not_slash, is_decimal_name_char, Hc.
Qed.

(** C6, as the claim states it, fails on an id of the grammar whose version
    has more digits than [int] accepts: the id [A-v99...9] with 4301 nines
    matches the grammar, and parsing it raises ValueError, neither a
    result nor the malformed-identifier error. *)
Lemma parse_env_id_raises_value_error :
  matches_grammar ("A-v" ++ repeat_char "9" 4301)
  /\ parse_env_id ("A-v" ++ repeat_char "9" 4301) = Raise ValueError.
Proof.
  split.
  - exists None, "A", (Some (repeat_char "9" 4301)).
    split; [reflexivity |]. split; [exact I |].
    split; vm_compute; reflexivity.
  - vm_compute. reflexivity.
Qed.

(** C6, amended.  For an id that parses, the canonical string rebuilt from
    the parsed triple parses to the same triple, so rebuilding it again
    gives the same canonical string.  Parsing has three outcomes: an id
    outside the grammar fails with the malformed-identifier error; an id of
    the grammar parses, or raises ValueError; and it raises ValueError
    exactly when the id ends in a version of more than 4300 digits after a
    name. *)
Theorem parse_env_id_canonical_total (id : string) :
  (forall ns n v,
     parse_env_id id = Ok (ns, n, v) ->
     parse_env_id (EnvSpec.make_id ns n v) = Ok (ns, n, v))
  /\ (forall a spec,
        EnvSpec.__init__ id a = Ok spec ->
        exists spec',
          EnvSpec.__init__ (EnvSpec.id spec) a = Ok spec'
          /\ EnvSpec.id spec' = EnvSpec.id spec)
  /\ (~ matches_grammar id ->
      exists message, parse_env_id id = Raise (GymError Error message))
  /\ (matches_grammar id ->
      (exists t, parse_env_id id = Ok t) \/ parse_env_id id = Raise ValueError)
  /\ (parse_env_id id = Raise ValueError
      <-> exists (ns : option string) (n digits : string),
            id = match ns with Some o => o ++ "/" | None => "" end
                 ++ n ++ "-v" ++ digits
            /\ match ns with
               | Some o => nonempty o && all_chars is_namespace_char o = true
               | None => True
               end
            /\ nonempty n && all_chars is_name_char n = true
            /\ nonempty digits && all_chars is_decimal digits = true
            /\ int_max_str_digits < Z.of_nat (String.length digits)).
Proof.
  split; [| split; [| split; [| split]]].
  - intros ns n v. apply parse_env_id_canonical.
  - intros a spec. unfold EnvSpec.__init__.
    destruct (parse_env_id id) as [[[ns n] v]|e] eqn:Hparse; [| discriminate].
    simpl. intros [= <-]. unfold EnvSpec.id. simpl.
    rewrite (parse_env_id_canonical _ _ _ _ Hparse). simpl. eauto.
  - intros Hno. rewrite parse_env_id_fullmatch.
    destruct (fullmatch id) as [t|] eqn:Ht; [| eauto].
    destruct Hno. exact (fullmatch_sound _ _ Ht).
  - intros [[[ns n] v] Ht]%fullmatch_complete.
    rewrite parse_env_id_fullmatch, Ht.
    destruct (within_limit v); eauto.
  - rewrite parse_env_id_fullmatch. split.
    + destruct (fullmatch id) as [[[ns n] v]|] eqn:Ht; [| discriminate].
      destruct (within_limit v) eqn:Hlimit; [discriminate |]. intros _.
      destruct v as [digits|]; [| discriminate].
      destruct (fullmatch_inv _ _ _ _ Ht) as [(s & Hs & ->) Hns].
      destruct (match_name_spelled _ _ _ Hs) as (-> & Hn & Hds).
      exists ns, n, digits. repeat split; try assumption.
      simpl in Hlimit. now apply Z.leb_gt in Hlimit.
    + intros (ns & n & digits & -> & Hns & Hn & Hds & Hlong).
      rewrite (fullmatch_version ns n digits Hns Hn Hds). simpl.
      now rewrite (proj2 (Z.leb_gt _ _) Hlong).
Qed.

Lemma parse_env_id_canonical_total_witness :
  parse_env_id "ALE/Breakout-v5" = Ok (Some "ALE", "Breakout", Some 5)
  /\ (exists message,
        parse_env_id "ALE/Atari/Breakout" = Raise (GymError Error message))
  /\ ((exists t, parse_env_id "ALE/Breakout-v005" = Ok t)
      \/ parse_env_id "ALE/Breakout-v005" = Raise ValueError)
  /\ parse_env_id ("ALE/Breakout-v" ++ repeat_char "0" 4301) = Raise ValueError.
Proof.
  split; [| split; [| split]].
  - exact (proj1 (parse_env_id_canonical_total "ALE/Breakout-v005")
             (Some "ALE") "Breakout" (Some 5) eq_refl).
  - apply (proj1 (proj2 (proj2 (parse_env_id_canonical_total "ALE/Atari/Breakout")))).
    intros [t Ht]%fullmatch_complete. vm_compute in Ht. discriminate.
  - apply (proj1 (proj2 (proj2 (proj2
             (parse_env_id_canonical_total "ALE/Breakout-v005"))))).
    exists (Some "ALE"), "Breakout", (Some "005"). repeat split.
  - apply (proj2 (proj2 (proj2 (proj2
             (parse_env_id_canonical_total
                ("ALE/Breakout-v" ++ repeat_char "0" 4301)))))).
    exists (Some "ALE"), "Breakout", (repeat_char "0" 4301).
    split; [reflexivity |]. split; [reflexivity |]. split; [reflexivity |].
    split; vm_compute; reflexivity.
Defined.

(** ** The size counter and the version errors *)

(** C2 fails on the code: [__setitem__] adds one to the counter on every
    call.  After two [register] calls with the id [A-v0] the tree holds one
    record and reports the length 2, where one call gives the length 1. *)
Theorem second_register_counts_again :
  exists once twice,
    registered EnvRegistry.__init__ "A-v0" = Ok once
    /\ registered once "A-v0" = Ok twice
    /\ EnvSpecTree.__iter__ (EnvRegistry.env_specs once) = Ok ["A-v0"]
    /\ EnvSpecTree.__iter__ (EnvRegistry.env_specs twice) = Ok ["A-v0"]
    /\ EnvSpecTree.__len__ (EnvRegistry.env_specs once) = 1
    /\ EnvSpecTree.__len__ (EnvRegistry.env_specs twice) = 2.
Proof. eexists _, _. repeat split. Qed.

(** Every assignment, to a new id or not, adds one to the counter. *)
Lemma setitem_length (self self' : EnvSpecTree.t) (key : string)
  (value : EnvSpec.t) :
  EnvSpecTree.__setitem__ self key value = Ok self' ->
  EnvSpecTree.__len__ self' = EnvSpecTree.__len__ self + 1.
Proof.
  unfold EnvSpecTree.__setitem__.
  destruct (parse_env_id key) as [[[ns n] v]|e]; [| discriminate].
  simpl. now intros [= <-].
Qed.

(** C4, as the claim states it, fails: after the two registrations [A-v0] is
    a registered id, and requesting it raises nothing. *)
Lemma registered_old_version_not_deprecated :
  ~ forall r,
      (let* r0 := registered EnvRegistry.__init__ "A-v0" in registered r0 "A-v1")
      = Ok r ->
      exists message,
        EnvSpecTree.__getitem__ (H := sample_externals)
          (EnvRegistry.env_specs r) "A-v0"
        = Raise (GymError DeprecatedEnv message).
Proof.
  intros Hclaim. destruct (Hclaim _ eq_refl) as [message Hget].
  vm_compute in Hget. discriminate.
Qed.

(** C4, amended.  After registering [A-v0] and then [A-v1], requesting
    [A-v0] returns the record registered under it, and requesting [A-v2]
    raises VersionNotFound whose message lists v0 and v1.  Requesting [A-v0]
    raises DeprecatedEnv naming v1 when [A-v1] alone is registered. *)
Theorem versions_v0_v1_lookups `{Externals} :
  (let* r0 := registered EnvRegistry.__init__ "A-v0" in registered r0 "A-v1")
  = Ok {| EnvRegistry.env_specs := tree_A_v0_v1; EnvRegistry._ns := None |}
  /\ EnvSpecTree.__getitem__ tree_A_v0_v1 "A-v0"
     = Ok (sample_spec None "A" (Some 0))
  /\ EnvSpecTree.__getitem__ tree_A_v0_v1 "A-v2"
     = Raise (GymError VersionNotFound
         "Environment version `v2` for `A` A could not be found. Valid versions are: [ `v0`, `v1` ].")
  /\ exists r1,
       registered EnvRegistry.__init__ "A-v1" = Ok r1
       /\ EnvSpecTree.__getitem__ (EnvRegistry.env_specs r1) "A-v0"
          = Raise (GymError DeprecatedEnv
              "Environment version `v0` for `A` is deprecated. Please use the latest version `v1`.").
Proof.
  split; [reflexivity |]. split; [reflexivity |]. split; [reflexivity |].
  eexists. split; reflexivity.
Qed.

(** C3 fails on the code: the maximum is taken over every record of the
    name, the unversioned one included.  With [A] and [A-v1] registered,
    requesting [A-v0] raises TypeError, where the claim has DeprecatedEnv
    recommending v1; with [A] alone registered, the message lists [vNone]
    as a valid version, where the claim has the note that the environment
    is unversioned. *)
Theorem unversioned_entry_breaks_version_errors `{Externals} :
  (let* r0 := registered EnvRegistry.__init__ "A" in registered r0 "A-v1")
  = Ok {| EnvRegistry.env_specs := tree_A_A_v1; EnvRegistry._ns := None |}
  /\ EnvSpecTree.__getitem__ tree_A_A_v1 "A-v0" = Raise TypeError
  /\ exists r1,
       registered EnvRegistry.__init__ "A" = Ok r1
       /\ EnvSpecTree.__getitem__ (EnvRegistry.env_specs r1) "A-v0"
          = Raise (GymError VersionNotFound
              "Environment version `v0` for `A` A could not be found. Valid versions are: [ `vNone` ].").
Proof.
  split; [reflexivity |]. split; [reflexivity |].
  eexists. split; reflexivity.
Qed.

(** ** The namespace scope *)

Lemma namespace_enter (ns : string) (self : EnvRegistry.t) :
  EnvRegistry._ns (__enter__ (EnvRegistry.namespace ns) self) = Some ns.
Proof. reflexivity. Qed.

(** Leaving the scope without exception clears the override. *)
Lemma namespace_exit_normal (ns : string) (self : EnvRegistry.t) :
  EnvRegistry._ns (__exit__ (EnvRegistry.namespace ns) None self) = None.
Proof. reflexivity. Qed.

(** Leaving the scope by an exception leaves the registry as the body left
    it. *)
Lemma namespace_exit_exception (ns : string) (e : Exception)
  (self : EnvRegistry.t) :
  __exit__ (EnvRegistry.namespace ns) (Some e) self = self.
Proof. reflexivity. Qed.

(** C1 fails on the code: the assignment that clears the override stands
    after a [yield] that no [try] encloses.  When the body of
    [with registry.namespace("plugin")] raises, the override is still
    ["plugin"] after the scope, and a later [register("Env-v0")] stores its
    record under that namespace. *)
Theorem namespace_override_survives_exception :
  exists after_scope,
    with_statement (EnvRegistry.namespace "plugin")
      (fun registry => (registry, Some TypeError)) EnvRegistry.__init__
    = (after_scope, Some TypeError)
    /\ EnvRegistry._ns after_scope = Some "plugin"
    /\ exists after_register,
         registered after_scope "Env-v0" = Ok after_register
         /\ EnvSpecTree.__contains__ (EnvRegistry.env_specs after_register)
              "plugin/Env-v0" = Ok true
         /\ EnvSpecTree.__contains__ (EnvRegistry.env_specs after_register)
              "Env-v0" = Ok false.
Proof.
  eexists. split; [reflexivity |]. split; [reflexivity |].
  eexists. split; [reflexivity |]. split; reflexivity.
Qed.




(** ** The store *)

Lemma deref_alloc_old (h : Store) (d : Kwargs) (r : nat) :
  (r < List.length h)%nat -> deref (snd (alloc h d)) r = deref h r.
Proof.
  intros Hr. change (snd (alloc h d)) with (h ++ [d])%list.
  unfold deref. now rewrite lookup_app_l.
Qed.

Lemma deref_alloc_new (h : Store) (d : Kwargs) :
  deref (snd (alloc h d)) (fst (alloc h d)) = d.
Proof.
  change (snd (alloc h d)) with (h ++ [d])%list.
  change (fst (alloc h d)) with (List.length h).
  unfold deref. now rewrite list_lookup_middle.
Qed.

Lemma deref_insert_eq (h : Store) (d : Kwargs) (r : nat) :
  (r < List.length h)%nat -> deref (<[r := d]> h) r = d.
Proof. intros Hr. unfold deref. now rewrite list_lookup_insert_eq. Qed.

Lemma deref_insert_ne (h : Store) (d : Kwargs) (r r' : nat) :
  r <> r' -> deref (<[r := d]> h) r' = deref h r'.
Proof. intros Hne. unfold deref. now rewrite list_lookup_insert_ne. Qed.

(** ** Instantiation *)

(** A deep copy that completes leaves every record and every dictionary as
    it was, and is a new record, equal to the one copied in every field but
    its entry point and its keyword dictionary, which is a new
    dictionary. *)
Lemma deepcopy_new `{Runtime} (h h' : Store)
  (objects objects' : EnvSpec.Instances) (record : EnvSpec.t) (copied : nat) :
  EnvSpec.deepcopy h objects record = Ok (copied, h', objects') ->
  copied = List.length objects
  /\ (forall r, (r < List.length h)%nat -> deref h' r = deref h r)
  /\ List.length h' = S (List.length h)
  /\ exists copy,
       objects' = (objects ++ [copy])%list
       /\ EnvSpec.kwargs copy = List.length h
       /\ EnvSpec.set_entry_point (EnvSpec.entry_point record)
            (EnvSpec.set_kwargs (EnvSpec.kwargs record) copy)
          = record.
Proof.
  unfold EnvSpec.deepcopy.
  destruct (match EnvSpec.entry_point record with
            | Some (Callable fn) => _
            | _ => _
            end) as [copied_entry_point|e]; [| discriminate].
  cbn [bind].
  destruct (deepcopy_dict _) as [copied_kwargs|e]; [| discriminate].
  cbn [bind alloc]. intros [= <- <- <-].
  split; [reflexivity |]. split.
  { intros r Hr. unfold deref. now rewrite lookup_app_l. }
  split.
  { rewrite length_app. simpl. lia. }
  eexists. split; [reflexivity |]. split; [reflexivity |].
  now destruct record.
Qed.

(** Whether a deep copy completes, and the exception that it raises, do
    not depend on the records, nor on the dictionaries other than the
    record's own. *)
Lemma deepcopy_raises `{Runtime} (h1 h2 : Store)
  (objects1 objects2 : EnvSpec.Instances) (record : EnvSpec.t) :
  deref h1 (EnvSpec.kwargs record) = deref h2 (EnvSpec.kwargs record) ->
  match EnvSpec.deepcopy h1 objects1 record,
        EnvSpec.deepcopy h2 objects2 record with
  | Raise e1, Raise e2 => e1 = e2
  | Ok _, Ok _ => True
  | _, _ => False
  end.
Proof.
  intros Hd. unfold EnvSpec.deepcopy. rewrite Hd.
  destruct (match EnvSpec.entry_point record with
            | Some (Callable fn) => _
            | _ => _
            end) as [copied_entry_point|e]; [| reflexivity].
  cbn [bind].
  destruct (deepcopy_dict _) as [copied_kwargs|e]; [exact I | reflexivity].
Qed.

(** C8.  Whatever its outcome, a call of [make] on a record changes no
    record and no dictionary that existed before it, the record on which it
    is called and its dictionary included.  On a record with a construction
    target, [make] calls the target, once it is resolved, with the per-call
    keyword arguments merged over the record's stored ones, the per-call
    ones winning.  The call raises what resolving or calling the target,
    the deep copy or reading the base environment raises, in this order;
    and otherwise it returns the environment that the target made, which
    carries a new record, equal to the registered one but for its entry
    point, a copy, and its keyword dictionary, which is a new object
    holding the merged arguments.  On a record without target [make] raises
    [Error].  The per-call arguments are a dictionary: no key occurs
    twice. *)
Theorem make_merges_and_keeps_record `{Runtime} (h : Store)
  (objects : EnvSpec.Instances) (self : nat) (record : EnvSpec.t)
  (call_kwargs : Kwargs) :
  objects !! self = Some record ->
  (EnvSpec.kwargs record < List.length h)%nat ->
  NoDup (dict_keys call_kwargs) ->
  let merged := dict_update (deref h (EnvSpec.kwargs record)) call_kwargs in
  (forall k,
     dict_get k merged
     = match dict_get k call_kwargs with
       | Some value => Some value
       | None => dict_get k (deref h (EnvSpec.kwargs record))
       end)
  /\ exists h' objects' outcome,
    EnvSpec.make h objects self call_kwargs = (h', objects', outcome)
    /\ objects' !! self = Some record
    /\ (forall o, (o < List.length objects)%nat -> objects' !! o = objects !! o)
    /\ (forall r, (r < List.length h)%nat -> deref h' r = deref h r)
    /\ match EnvSpec.entry_point record with
       | None => exists message, outcome = Raise (GymError Error message)
       | Some target =>
           match
             (let* fn :=
                match target with
                | Callable fn => Ok fn
                | Path name => load name
                end in
              call fn merged)
           with
           | Raise e => outcome = Raise e
           | Ok made =>
               match EnvSpec.deepcopy h objects record with
               | Raise e => outcome = Raise e
               | Ok _ =>
                   match unwrapped made with
                   | Raise e => outcome = Raise e
                   | Ok unwrapped_env =>
                       exists env copied,
                         outcome = Ok env
                         /\ EnvSpec.constructed env = made
                         /\ EnvSpec.base env = unwrapped_env
                         /\ (List.length objects <= EnvSpec.spec env)%nat
                         /\ objects' !! EnvSpec.spec env = Some copied
                         /\ (List.length h <= EnvSpec.kwargs copied)%nat
                         /\ deref h' (EnvSpec.kwargs copied) = merged
                         /\ EnvSpec.set_entry_point
                              (EnvSpec.entry_point record)
                              (EnvSpec.set_kwargs (EnvSpec.kwargs record)
                                 copied)
                            = record
                   end
               end
           end
       end.
Proof.
  intros Hself Hkwargs Hdict merged. subst merged.
  split; [intros k; now apply dict_get_update |].
  unfold EnvSpec.make. rewrite Hself.
  destruct (EnvSpec.entry_point record) as [target|] eqn:Htarget.
  2:{ eexists h, objects, _. split; [reflexivity |]. repeat split; eauto. }
  set (d0 := deref h (EnvSpec.kwargs record)).
  set (h1 := snd (alloc h d0)).
  set (new := fst (alloc h d0)).
  change (alloc h d0) with (new, h1). cbv beta iota.
  assert (Hnew : new = List.length h) by reflexivity.
  assert (Hlen1 : List.length h1 = S (List.length h)).
  { unfold h1, alloc. simpl. rewrite length_app. simpl. lia. }
  assert (Hd1 : deref h1 new = d0) by apply deref_alloc_new.
  rewrite Hd1.
  set (h2 := <[new := dict_update d0 call_kwargs]> h1).
  assert (Hd2 : deref h2 new = dict_update d0 call_kwargs).
  { apply deref_insert_eq. lia. }
  assert (Hold2 : forall r, (r < List.length h)%nat -> deref h2 r = deref h r).
  { intros r Hr. unfold h2. rewrite deref_insert_ne by lia.
    now apply deref_alloc_old. }
  assert (Hlen2 : List.length h2 = S (List.length h)).
  { unfold h2. now rewrite length_insert. }
  rewrite Hd2.
  pose proof (lookup_lt_Some _ _ _ Hself) as Hself_lt.
  destruct (let* fn := match target with
                       | Callable fn => Ok fn
                       | Path name => load name
                       end in
            call fn (dict_update d0 call_kwargs)) as [made|e] eqn:Hcalled.
  2:{ exists h2, objects, (Raise e). repeat split; auto. }
  pose proof (deepcopy_raises h2 h objects objects record
                (Hold2 _ Hkwargs)) as Hsame.
  destruct (EnvSpec.deepcopy h2 objects record) as [[[copied h3] objects3]|e]
    eqn:Hcopy.
  2:{ exists h2, objects, (Raise e).
      destruct (EnvSpec.deepcopy h objects record); [contradiction |].
      subst. repeat split; auto. }
  destruct (EnvSpec.deepcopy h objects record) as [ok|]; [| contradiction].
  destruct (deepcopy_new _ _ _ _ _ _ Hcopy)
    as (-> & Hold3 & Hlen3 & copy & -> & Hcopy_kwargs & Hcopy_fields).
  assert (Hframe : forall o, (o < List.length objects)%nat ->
    alter (EnvSpec.set_kwargs new) (List.length objects) (objects ++ [copy])%list
      !! o = objects !! o).
  { intros o Ho. rewrite list_lookup_alter_ne by lia. now apply lookup_app_l. }
  assert (Hstored :
    alter (EnvSpec.set_kwargs new) (List.length objects) (objects ++ [copy])%list
      !! List.length objects = Some (EnvSpec.set_kwargs new copy)).
  { rewrite list_lookup_alter, list_lookup_middle by reflexivity.
    now rewrite decide_True. }
  destruct (unwrapped made) as [unwrapped_env|e] eqn:Hunwrapped.
  2:{ eexists h3, _, (Raise e). split; [reflexivity |].
      split; [rewrite Hframe by exact Hself_lt; exact Hself |].
      split; [exact Hframe |]. split; [| reflexivity].
      intros r Hr. rewrite Hold3 by lia. now apply Hold2. }
  eexists h3, _, (Ok _). split; [reflexivity |].
  split; [rewrite Hframe by exact Hself_lt; exact Hself |].
  split; [exact Hframe |]. split.
  { intros r Hr. rewrite Hold3 by lia. now apply Hold2. }
  eexists _, (EnvSpec.set_kwargs new copy).
  split; [reflexivity |]. cbn [EnvSpec.constructed EnvSpec.base EnvSpec.spec].
  split; [reflexivity |]. split; [reflexivity |]. split; [lia |].
  split; [exact Hstored |]. cbn [EnvSpec.set_kwargs EnvSpec.kwargs].
  split; [lia |]. split.
  { rewrite Hold3 by lia. exact Hd2. }
  rewrite <- Htarget. etransitivity; [| exact Hcopy_fields]. now destruct copy.
Qed.

Lemma make_merges_and_keeps_record_witness :
  exists h' objects' env copied,
    EnvSpec.make (H := sample_runtime) sample_store [sample_target_spec] 0
      [("frameskip", PyInt 1); ("mode", PyInt 2)]
    = (h', objects', Ok env)
    /\ EnvSpec.constructed env = 100%nat
    /\ objects' !! 0%nat = Some sample_target_spec
    /\ deref h' 0 = deref sample_store 0
    /\ objects' !! EnvSpec.spec env = Some copied
    /\ deref h' (EnvSpec.kwargs copied)
       = [("render_mode", PyStr "human"); ("frameskip", PyInt 1);
          ("mode", PyInt 2)].
Proof.
  assert (Hdict : NoDup (dict_keys [("frameskip", PyInt 1); ("mode", PyInt 2)])).
  { simpl. apply NoDup_cons. split; [| apply NoDup_singleton].
    rewrite list_elem_of_singleton. discriminate. }
  destruct (@make_merges_and_keeps_record sample_runtime sample_store
              [sample_target_spec] 0 sample_target_spec
              [("frameskip", PyInt 1); ("mode", PyInt 2)] eq_refl
              (le_n 1) Hdict)
    as (_ & h' & objects' & outcome & Hmake & Hself & _ & Hstore & Hout).
  vm_compute in Hout.
  destruct Hout as (env & copied & -> & Hmade & _ & _ & Hcopied & _ & Hmerged & _).
  exists h', objects', env, copied.
  split; [exact Hmake |]. split; [exact Hmade |]. split; [exact Hself |].
  split; [apply Hstore; apply le_n |]. split; [exact Hcopied | exact Hmerged].
Defined.

(** ** Maximum and sorting over versioned records *)

Section Versioned.
Context {A : Type} (key : A -> option Z).

Lemma max_loop_versioned (items : list A) (m : A) :
  key m <> None -> versioned key items ->
  exists m',
    max_loop key items m = Ok m'
    /\ key m' <> None
    /\ In m' (m :: items)
    /\ Forall (fun x => key_value key x <= key_value key m') (m :: items).
Proof.
  revert m. induction items as [|x items IH]; intros m Hm Hitems.
  - exists m. simpl. split; [reflexivity |]. split; [exact Hm |].
    split; [now left |]. constructor; [lia | constructor].
  - inversion Hitems as [|? ? Hx Hitems']; subst. simpl.
    destruct (key x) as [zx|] eqn:Ex; [| congruence].
    destruct (key m) as [zm|] eqn:Em; [| congruence]. simpl.
    destruct (zm <? zx)%Z eqn:Hcmp.
    + destruct (IH x) as (m' & -> & Hm' & Hin & Hall); [congruence | exact Hitems' |].
      exists m'. split; [reflexivity |]. split; [exact Hm' |].
      split; [simpl in *; tauto |].
      inversion Hall as [|? ? Hxm' Hrest]; subst.
      apply Z.ltb_lt in Hcmp.
      constructor; [| constructor; assumption].
      unfold key_value in *. rewrite Em. rewrite Ex in Hxm'. lia.
    + destruct (IH m) as (m' & -> & Hm' & Hin & Hall); [congruence | exact Hitems' |].
      exists m'. split; [reflexivity |]. split; [exact Hm' |].
      split; [simpl in *; tauto |].
      inversion Hall as [|? ? Hmm' Hrest]; subst.
      apply Z.ltb_ge in Hcmp.
      constructor; [exact Hmm' | constructor; [| exact Hrest]].
      unfold key_value in *. rewrite Ex. rewrite Em in Hmm'. lia.
Qed.

Lemma sorted_insert_versioned (x : A) (l : list A) :
  key x <> None -> versioned key l ->
  StronglySorted (fun a b => key_value key a <= key_value key b) l ->
  exists l',
    sorted_insert key x l = Ok l'
    /\ Permutation l' (x :: l)
    /\ StronglySorted (fun a b => key_value key a <= key_value key b) l'.
Proof.
  intros Hx. induction l as [|y l IH]; intros Hl Hsorted.
  - exists [x]. simpl. split; [reflexivity |]. split; [reflexivity |].
    constructor; constructor.
  - inversion Hl as [|? ? Hy Hl']; subst.
    inversion Hsorted as [|? ? Hsorted' Hyl]; subst. simpl.
    destruct (key y) as [zy|] eqn:Ey; [| congruence].
    destruct (key x) as [zx|] eqn:Ex; [| congruence]. simpl.
    destruct (zy <? zx)%Z eqn:Hcmp.
    + destruct (IH Hl' Hsorted') as (l' & -> & Hperm & Hs'). simpl.
      exists (y :: l'). split; [reflexivity |]. split.
      * rewrite Hperm. apply perm_swap.
      * constructor; [exact Hs' |].
        apply Z.ltb_lt in Hcmp.
        rewrite Forall_forall. intros b Hb.
        rewrite Hperm in Hb. apply elem_of_cons in Hb as [-> | Hb].
        -- unfold key_value. rewrite Ey, Ex. lia.
        -- rewrite Forall_forall in Hyl. now apply Hyl.
    + exists (x :: y :: l). split; [reflexivity |]. split; [reflexivity |].
      apply Z.ltb_ge in Hcmp.
      assert (Hxy : key_value key x <= key_value key y).
      { unfold key_value. rewrite Ey, Ex. lia. }
      constructor; [exact Hsorted |].
      constructor; [exact Hxy |].
      rewrite Forall_forall in Hyl |- *. intros b Hb.
      specialize (Hyl b Hb). lia.
Qed.

Lemma py_sorted_versioned (items : list A) :
  versioned key items ->
  exists l,
    py_sorted key items = Ok l
    /\ Permutation l items
    /\ StronglySorted (fun a b => key_value key a <= key_value key b) l.
Proof.
  induction items as [|x items IH]; intros Hitems.
  - exists []. split; [reflexivity |]. split; constructor.
  - inversion Hitems as [|? ? Hx Hitems']; subst.
    destruct (IH Hitems') as (l & Hl & Hperm & Hsorted). simpl. rewrite Hl.
    simpl.
    assert (Hvl : versioned key l).
    { unfold versioned. rewrite Forall_forall. intros b Hb.
      rewrite Hperm in Hb.
      unfold versioned in Hitems'. rewrite Forall_forall in Hitems'. auto. }
    destruct (sorted_insert_versioned x l Hx Hvl Hsorted)
      as (l' & -> & Hperm' & Hsorted').
    exists l'. split; [reflexivity |]. split; [| exact Hsorted'].
    rewrite Hperm'. now constructor.
Qed.
End Versioned.

(** X8.  Where every record of the name carries an integer version, a
    request for an absent version is answered as the specification words it:
    DeprecatedEnv naming the largest known version when the request is
    smaller, VersionNotFound listing the known versions in ascending order
    otherwise. *)
Lemma assert_version_exists_versioned `{Externals} (self : EnvSpecTree.t)
  (namespace : option string) (name : string) (version : option Z) :
  dict_in namespace (EnvSpecTree.tree self)
  && dict_in name (EnvSpecTree.names_of self namespace) = true ->
  dict_in version (EnvSpecTree.versions_of self namespace name) = false ->
  dict_values (EnvSpecTree.versions_of self namespace name) <> [] ->
  versioned EnvSpec.version
    (dict_values (EnvSpecTree.versions_of self namespace name)) ->
  exists latest all_versions_sorted,
    In (Some latest)
       (map EnvSpec.version
          (dict_values (EnvSpecTree.versions_of self namespace name)))
    /\ Forall (fun spec => key_value EnvSpec.version spec <= latest)
         (dict_values (EnvSpecTree.versions_of self namespace name))
    /\ Permutation all_versions_sorted
         (dict_values (EnvSpecTree.versions_of self namespace name))
    /\ StronglySorted
         (fun a b => key_value EnvSpec.version a <= key_value EnvSpec.version b)
         all_versions_sorted
    /\ EnvSpecTree._assert_version_exists self namespace name version
       = let subject :=
           match version with
           | Some v => "Environment version `v" ++ str v ++ "` for `"
           | None => "The default version for `"
           end
           ++ match namespace with Some ns => ns ++ "/" | None => "" end
           ++ name ++ "` " in
         let not_found :=
           GymError VersionNotFound
             (subject ++ name ++ " could not be found. "
              ++ "Valid versions are: [ "
              ++ join ", "
                   (map (fun spec => "`v" ++ fmt_int (EnvSpec.version spec) ++ "`")
                        all_versions_sorted)
              ++ " ].") in
         Raise match version with
               | Some v =>
                   if (v <? latest)%Z then
                     GymError DeprecatedEnv
                       (subject ++ "is deprecated. "
                        ++ "Please use the latest version `v" ++ str latest ++ "`.")
                   else not_found
               | None => not_found
               end.
Proof.
  intros [Hns Hn]%andb_true_iff Hv Hne Hversioned.
  unfold EnvSpecTree._assert_version_exists.
  rewrite assert_name_exists_ok by assumption. cbn [bind]. rewrite Hv.
  destruct (dict_values (EnvSpecTree.versions_of self namespace name))
    as [|first rest] eqn:Hall; [congruence |].
  inversion Hversioned as [|? ? Hfirst Hrest]; subst.
  destruct (max_loop_versioned EnvSpec.version rest first Hfirst Hrest)
    as (m & Hmax & Hm & Hin & Hle).
  destruct (py_sorted_versioned EnvSpec.version (first :: rest) Hversioned)
    as (l & Hsorted & Hperm & Hss).
  destruct (EnvSpec.version m) as [latest|] eqn:Elatest; [| congruence].
  exists latest, l. split.
  { rewrite <- Elatest. now apply in_map. }
  split.
  { unfold key_value in Hle at 2. now rewrite Elatest in Hle. }
  split; [exact Hperm |]. split; [exact Hss |].
  unfold py_max. rewrite Hmax. cbn [bind]. rewrite Elatest, Hsorted.
  cbn [bind].
  destruct version as [v|]; [destruct (v <? latest)%Z |];
    destruct namespace as [ns|];
    rewrite ?append_empty_l, ?append_assoc; reflexivity.
Qed.

(** * Further properties *)

(** ** Checks on dictionaries *)

Section DictCheckFacts.
Context {K V : Type} `{EqDecision K}.
Implicit Types (k : K) (v : V) (d : Dict K V).

Lemma dict_in_set_ne k k' v d :
  k <> k' -> dict_in k' (dict_set k v d) = dict_in k' d.
Proof. intros Hne. unfold dict_in. now rewrite dict_get_set_ne. Qed.

Lemma dict_in_pop_ne k k' d :
  k <> k' -> dict_in k' (dict_pop k d) = dict_in k' d.
Proof. intros Hne. unfold dict_in. now rewrite dict_get_pop_ne. Qed.

Lemma dict_in_set k k' v d :
  dict_in k' (dict_set k v d) = bool_decide (k = k') || dict_in k' d.
Proof.
  destruct (decide (k = k')) as [->|Hne].
  - rewrite dict_in_set_eq. now rewrite bool_decide_eq_true_2.
  - rewrite dict_in_set_ne by exact Hne. now rewrite bool_decide_eq_false_2.
Qed.

Lemma dict_all_get (p : K -> V -> bool) k v d :
  dict_all p d = true -> dict_get k d = Some v -> p k v = true.
Proof.
  induction d as [|[k' v'] d IH]; simpl; [discriminate |].
  intros [Hp Hd]%andb_true_iff. destruct (decide (k = k')) as [->|Hne].
  - now intros [= <-].
  - now apply IH.
Qed.

Lemma dict_all_set (p : K -> V -> bool) k v d :
  dict_all p d = true -> p k v = true -> dict_all p (dict_set k v d) = true.
Proof.
  intros Hd Hv. induction d as [|[k' v'] d IH]; simpl in *.
  - now rewrite Hv.
  - apply andb_true_iff in Hd as [Hp Hd].
    destruct (decide (k = k')) as [->|Hne]; simpl.
    + now rewrite Hv, Hd.
    + now rewrite Hp, IH.
Qed.

Lemma dict_all_pop (p : K -> V -> bool) k d :
  dict_all p d = true -> dict_all p (dict_pop k d) = true.
Proof.
  induction d as [|[k' v'] d IH]; simpl; [reflexivity |].
  intros [Hp Hd]%andb_true_iff.
  destruct (decide (k = k')); simpl; [now apply IH |].
  now rewrite Hp, IH.
Qed.

Lemma distinct_keys_set k v d :
  distinct_keys d = true -> distinct_keys (dict_set k v d) = true.
Proof.
  induction d as [|[k' v'] d IH]; simpl; [reflexivity |].
  intros [Hk' Hd]%andb_true_iff.
  destruct (decide (k = k')) as [->|Hne]; simpl.
  - now rewrite Hk', Hd.
  - rewrite dict_in_set_ne by exact Hne. now rewrite Hk', IH.
Qed.

Lemma distinct_keys_pop k d :
  distinct_keys d = true -> distinct_keys (dict_pop k d) = true.
Proof.
  induction d as [|[k' v'] d IH]; simpl; [reflexivity |].
  intros [Hk' Hd]%andb_true_iff.
  destruct (decide (k = k')) as [->|Hne]; simpl; [now apply IH |].
  rewrite dict_in_pop_ne by exact Hne. now rewrite Hk', IH.
Qed.

Lemma is_empty_set k v d : is_empty (dict_set k v d) = false.
Proof.
  destruct d as [|[k' v'] d]; simpl; [reflexivity |].
  now destruct (decide (k = k')).
Qed.

(** In a dictionary without repeated keys, every binding is the one that
    its key reads. *)
Lemma distinct_keys_bindings d :
  distinct_keys d = true ->
  Forall (fun kv => dict_get (fst kv) d = Some (snd kv)) d.
Proof.
  induction d as [|[k v] d IH]; simpl; [constructor |].
  intros [Hk Hd]%andb_true_iff. constructor.
  - simpl. now rewrite decide_True.
  - specialize (IH Hd). rewrite Forall_forall in IH |- *.
    intros [k' v'] Hin. simpl. specialize (IH _ Hin). simpl in IH.
    destruct (decide (k' = k)) as [->|Hne]; [| exact IH].
    unfold dict_in in Hk. now rewrite IH in Hk.
Qed.

Lemma dict_sum_set (f : V -> nat) k v d :
  (dict_sum f (dict_set k v d)
   + match dict_get k d with Some old => f old | None => 0 end
   = dict_sum f d + f v)%nat.
Proof.
  induction d as [|[k' v'] d IH]; simpl; [lia |].
  destruct (decide (k = k')) as [->|Hne]; simpl; lia.
Qed.

Lemma dict_sum_pop (f : V -> nat) k d :
  distinct_keys d = true ->
  (dict_sum f (dict_pop k d)
   + match dict_get k d with Some old => f old | None => 0 end
   = dict_sum f d)%nat.
Proof.
  induction d as [|[k' v'] d IH]; simpl; [reflexivity |].
  intros [Hk' Hd]%andb_true_iff. specialize (IH Hd).
  destruct (decide (k = k')) as [->|Hne]; simpl; [| lia].
  unfold dict_in in Hk'. destruct (dict_get k' d); [discriminate |]. lia.
Qed.

Lemma dict_sum_length d : dict_sum (fun _ => 1%nat) d = List.length d.
Proof. induction d as [|[k v] d IH]; simpl; [reflexivity | now rewrite IH]. Qed.
End DictCheckFacts.

(** ** Canonical ids under a namespace *)

Lemma namespace_char_not_slash (c : ascii) :
  is_namespace_char c = true -> no_slash c = true.
Proof.
  intros Hc. unfold no_slash. destruct (Ascii.eqb c "/") eqn:E; [| reflexivity].
  apply Ascii.eqb_eq in E. subst. discriminate.
Qed.

Lemma match_name_no_slash (s n : string) (v : option string) :
  match_name s = Some (n, v) -> all_chars no_slash s = true.
Proof.
  intros (-> & [_ Hn]%andb_true_iff & Hv)%match_name_spelled.
  rewrite all_chars_app.
  rewrite (all_chars_weaken is_name_char no_slash n name_char_not_slash Hn).
  destruct v as [ds|]; [| reflexivity].
  apply andb_true_iff in Hv as [_ Hds].
  simpl. apply (all_chars_weaken is_decimal); [| exact Hds].
  intros c Hc. apply name_char_not_slash, is_decimal_name_char, Hc.
Qed.

(** A string is cut at its first slash in one way only. *)
Lemma first_slash_unique (a b c d : string) :
  all_chars no_slash a = true -> all_chars no_slash b = true ->
  a ++ "/" ++ b = c ++ "/" ++ d -> a = c /\ b = d.
Proof.
  intros Ha Hb. revert c. induction a as [|x a IH]; intros c Heq.
  - destruct c as [|y c]; simpl in Heq.
    + injection Heq as ->. auto.
    + injection Heq as <- ->. rewrite all_chars_app in Hb. simpl in Hb.
      now rewrite andb_false_r in Hb.
  - simpl in Ha. apply andb_true_iff in Ha as [Hx Ha].
    destruct c as [|y c]; simpl in Heq.
    + injection Heq as -> _. discriminate.
    + injection Heq as <- Heq. destruct (IH Ha _ Heq) as [-> ->]. auto.
Qed.

Lemma parse_env_id_parts (id : string) (ns : option string) (n : string)
  (v : option Z) :
  parse_env_id id = Ok (ns, n, v) ->
  (exists s digits,
     match_name s = Some (n, digits)
     /\ v = version_of digits
     /\ within_limit digits = true)
  /\ match ns with Some ns => valid_namespace ns = true | None => True end.
Proof.
  intros (digits & Hmatch & -> & Hlimit)%parse_env_id_inv.
  destruct (fullmatch_inv _ _ _ _ Hmatch) as [(s & Hs & _) Hns].
  split; [| exact Hns]. exists s, digits. auto.
Qed.

(** The canonical id of a name and version that the parser produced, put
    under any namespace: it parses, to that namespace, name and version,
    exactly when the namespace is a non-empty string of namespace
    characters, and is a malformed id otherwise. *)
Lemma parse_make_id (id n : string) (v : option Z) (ns0 ns : option string) :
  parse_env_id id = Ok (ns0, n, v) ->
  parse_env_id (EnvSpec.make_id ns n v)
  = match ns with
    | None => Ok (None, n, v)
    | Some o =>
        if valid_namespace o then Ok (Some o, n, v)
        else Raise (GymError Error
               ("Malformed environment ID: " ++ EnvSpec.make_id ns n v ++ "."
                ++ "(Currently all IDs must be of the form " ++ pattern ++ ".)"))
    end.
Proof.
  intros [(s & digits & Hs & -> & Hlimit) _]%parse_env_id_parts.
  pose proof (match_name_canonical _ _ _ Hs) as Hcanon.
  pose proof (match_name_no_slash _ _ _ Hcanon) as Hslash.
  destruct (match_name_inv _ _ _ Hs) as (_ & suffix & _ & Hsuf).
  destruct (version_of_str _ _ Hsuf Hlimit) as [Hlimit' Hversion].
  rewrite parse_env_id_fullmatch, make_id_unfold. unfold fullmatch.
  destruct ns as [o|].
  - destruct (valid_namespace o) eqn:Hvalid.
    + rewrite append_assoc, match_namespace_app by exact Hvalid.
      now rewrite Hcanon, Hlimit', Hversion.
    + assert (Hwhole :
        match_name ((o ++ "/") ++ n ++ version_suffix (version_of digits))
        = None).
      { destruct (match_name
                    ((o ++ "/") ++ n ++ version_suffix (version_of digits)))
          as [[n' v']|] eqn:E; [| reflexivity].
        apply match_name_no_slash in E. rewrite !all_chars_app in E.
        simpl in E. now rewrite andb_false_r in E. }
      rewrite Hwhole.
      destruct (match_namespace
                  ((o ++ "/") ++ n ++ version_suffix (version_of digits)))
        as [[ns1 rest1]|] eqn:Hns; [| reflexivity].
      destruct (match_name rest1) as [[n' v']|] eqn:Hrest; [| reflexivity].
      apply match_namespace_inv in Hns as [Heq Hns1].
      apply match_name_no_slash in Hrest.
      rewrite append_assoc in Heq. symmetry in Heq.
      apply first_slash_unique in Heq as [-> _]; [| | exact Hrest].
      * unfold valid_namespace in Hvalid. congruence.
      * apply andb_true_iff in Hns1 as [_ Hns1].
        exact (all_chars_weaken _ _ _ namespace_char_not_slash Hns1).
  - rewrite append_empty_l, Hcanon.
    rewrite match_namespace_no_slash by exact Hslash.
    now rewrite Hlimit', Hversion.
Qed.

(** ** Registration under an override *)

(** The namespace that [register] gives a record: the override when one
    is set, the namespace of the id otherwise. *)
Lemma register_outcome (self : EnvRegistry.t) (id : string)
  (a : EnvSpec.args) (ns0 : option string) (n : string) (v : option Z) :
  parse_env_id id = Ok (ns0, n, v) ->
  let ns := match EnvRegistry._ns self with Some o => Some o | None => ns0 end in
  match EnvRegistry._ns self with
  | Some o => valid_namespace o = true
  | None => True
  end ->
  parse_env_id (EnvSpec.make_id ns n v) = Ok (ns, n, v)
  /\ EnvRegistry.register self id a
     = (app match EnvRegistry._ns self, ns0 with
            | Some o, Some given =>
                ["Custom namespace '" ++ given
                 ++ "' is being overridden by namespace '" ++ o ++ "'. "
                 ++ "If you are developing a plugin you shouldn't specify a namespace in `register` calls. "
                 ++ "The namespace is specified through the entry point key."]
            | _, _ => []
            end
            (if present_b (EnvRegistry.env_specs self) ns n v
             then ["Overriding environment " ++ id] else []),
        let* specs :=
          EnvSpecTree.__setitem__ (EnvRegistry.env_specs self)
            (EnvSpec.make_id ns n v) (spec_of a ns n v) in
        Ok {| EnvRegistry.env_specs := specs;
              EnvRegistry._ns := EnvRegistry._ns self |}).
Proof.
  intros Hparse ns Hvalid.
  destruct (parse_env_id_parts _ _ _ _ Hparse) as [_ Hns0].
  assert (Hcanon : parse_env_id (EnvSpec.make_id ns n v) = Ok (ns, n, v)).
  { rewrite (parse_make_id id n v ns0) by exact Hparse.
    subst ns. destruct (EnvRegistry._ns self) as [o|].
    - now rewrite Hvalid.
    - destruct ns0 as [o|]; [| reflexivity]. now rewrite Hns0. }
  split; [exact Hcanon |].
  unfold EnvRegistry.register, EnvSpec.__init__. rewrite Hparse.
  cbn [bind]. subst ns.
  destruct (EnvRegistry._ns self) as [o|] eqn:Hns.
  - unfold EnvSpecTree.__contains__, EnvSpec.id. cbn [EnvSpec.set_namespace
      EnvSpec.namespace EnvSpec.name EnvSpec.version].
    rewrite Hcanon. cbn [bind]. fold (present_b (EnvRegistry.env_specs self) (Some o) n v).
    destruct ns0 as [given|];
      destruct (present_b (EnvRegistry.env_specs self) (Some o) n v); reflexivity.
  - unfold EnvSpecTree.__contains__, EnvSpec.id. cbn [EnvSpec.namespace
      EnvSpec.name EnvSpec.version].
    rewrite Hcanon. cbn [bind]. fold (present_b (EnvRegistry.env_specs self) ns0 n v).
    destruct ns0 as [given|];
      destruct (present_b (EnvRegistry.env_specs self) _ n v); reflexivity.
Qed.

(** An override that the grammar does not admit makes the id of the record
    malformed. *)
Lemma register_invalid_override (self : EnvRegistry.t) (id : string)
  (a : EnvSpec.args) (o : string) (ns0 : option string) (n : string)
  (v : option Z) :
  EnvRegistry._ns self = Some o ->
  parse_env_id id = Ok (ns0, n, v) ->
  valid_namespace o = false ->
  exists message,
    snd (EnvRegistry.register self id a) = Raise (GymError Error message).
Proof.
  intros Hns Hparse Hvalid.
  unfold EnvRegistry.register, EnvSpec.__init__. rewrite Hparse, Hns.
  cbn [bind].
  unfold EnvSpecTree.__contains__, EnvSpec.id.
  cbn [EnvSpec.set_namespace EnvSpec.namespace EnvSpec.name EnvSpec.version].
  rewrite (parse_make_id id n v ns0) by exact Hparse.
  rewrite Hvalid. cbn [bind].
  destruct ns0; cbn [snd]; eauto.
Qed.

(** X1.  Under an override that the grammar admits as a namespace,
    [register] stores the record under the override, whatever namespace
    the id names: the record is then read back under the override, and is
    not added under the id's own namespace.  Under an override that the
    grammar does not admit, [register] raises the malformed-id error. *)
Theorem register_under_override `{Externals} (self : EnvRegistry.t)
  (id : string) (a : EnvSpec.args) (o : string) (ns0 : option string)
  (n : string) (v : option Z) :
  EnvRegistry._ns self = Some o ->
  parse_env_id id = Ok (ns0, n, v) ->
  if valid_namespace o then
    exists self',
      snd (EnvRegistry.register self id a) = Ok self'
      /\ EnvRegistry._ns self' = Some o
      /\ EnvSpecTree.__getitem__ (EnvRegistry.env_specs self')
           (EnvSpec.make_id (Some o) n v)
         = Ok (spec_of a (Some o) n v)
      /\ (ns0 <> Some o ->
          EnvSpecTree.__contains__ (EnvRegistry.env_specs self') id
          = EnvSpecTree.__contains__ (EnvRegistry.env_specs self) id)
  else
    exists message,
      snd (EnvRegistry.register self id a) = Raise (GymError Error message).
Proof.
  intros Hns Hparse. destruct (valid_namespace o) eqn:Hvalid.
  - destruct (register_outcome self id a _ _ _ Hparse) as [Hcanon Hreg].
    { now rewrite Hns. }
    rewrite Hns in Hcanon, Hreg. rewrite Hreg. cbn [snd].
    destruct (setitem_ok (EnvRegistry.env_specs self) _
                (spec_of a (Some o) n v) _ _ _ Hcanon)
      as (specs & Hset & Hin & Hnames & Hversions & _).
    rewrite Hset. cbn [bind]. eexists. split; [reflexivity |].
    split; [reflexivity |]. cbn [EnvRegistry.env_specs]. split.
    + rewrite (getitem_present _ _ _ _ _ Hcanon).
      * rewrite Hversions. now rewrite dict_get_set_eq.
      * unfold present_b. now rewrite Hin, Hnames, Hversions, !dict_in_set_eq.
    + intros Hother. unfold EnvSpecTree.__contains__. rewrite Hparse.
      cbn [bind]. f_equal.
      unfold EnvSpecTree.__setitem__ in Hset. rewrite Hcanon in Hset.
      cbn [bind] in Hset. injection Hset as <-.
      unfold EnvSpecTree.versions_of, EnvSpecTree.names_of.
      cbn [EnvSpecTree.tree].
      assert (Hne : Some o <> ns0) by congruence.
      rewrite dict_in_set_ne, dict_get_set_ne by exact Hne. reflexivity.
  - exact (register_invalid_override self id a o ns0 n v Hns Hparse Hvalid).
Qed.

Lemma register_under_override_witness :
  exists self',
    snd (EnvRegistry.register
           (EnvRegistry.set_ns (Some "ALE") EnvRegistry.__init__)
           "Mine/Pong-v5" (EnvSpec.defaults 0)) = Ok self'
    /\ EnvRegistry._ns self' = Some "ALE"
    /\ EnvSpecTree.__getitem__ (H := sample_externals)
         (EnvRegistry.env_specs self') "ALE/Pong-v5"
       = Ok (sample_spec (Some "ALE") "Pong" (Some 5))
    /\ EnvSpecTree.__contains__ (EnvRegistry.env_specs self') "Mine/Pong-v5"
       = Ok false.
Proof.
  destruct (@register_under_override sample_externals
              (EnvRegistry.set_ns (Some "ALE") EnvRegistry.__init__)
              "Mine/Pong-v5" (EnvSpec.defaults 0) "ALE" (Some "Mine") "Pong"
              (Some 5) eq_refl eq_refl)
    as (self' & Hreg & Hns & Hget & Hother).
  exists self'. split; [exact Hreg |]. split; [exact Hns |].
  split; [exact Hget |]. rewrite Hother; [reflexivity | discriminate].
Defined.

(** ** Well-formed trees *)

Lemma leaf_ok_spec_of (a : EnvSpec.args) (ns : option string) (n : string)
  (v : option Z) :
  parse_env_id (EnvSpec.make_id ns n v) = Ok (ns, n, v) ->
  leaf_ok ns n v (spec_of a ns n v) = true.
Proof.
  intros Hcanon. unfold leaf_ok. rewrite Hcanon. simpl.
  now rewrite !bool_decide_eq_true_2.
Qed.

Lemma leaf_ok_inv (ns : option string) (n : string) (v : option Z)
  (spec : EnvSpec.t) :
  leaf_ok ns n v spec = true ->
  EnvSpec.namespace spec = ns /\ EnvSpec.name spec = n
  /\ EnvSpec.version spec = v
  /\ parse_env_id (EnvSpec.make_id ns n v) = Ok (ns, n, v).
Proof.
  unfold leaf_ok.
  intros [[[Hns Hn]%andb_true_iff Hv]%andb_true_iff Hparse]%andb_true_iff.
  apply bool_decide_eq_true in Hns, Hn, Hv.
  destruct (parse_env_id _) as [[[ns' n'] v']|e]; [| discriminate].
  apply andb_true_iff in Hparse as [[H1 H2]%andb_true_iff H3].
  apply bool_decide_eq_true in H1, H2, H3. subst. auto.
Qed.

Lemma names_of_checked (self : EnvSpecTree.t) (ns : option string) :
  well_formed self = true ->
  distinct_keys (EnvSpecTree.names_of self ns) = true
  /\ dict_all (versions_ok ns) (EnvSpecTree.names_of self ns) = true
  /\ (dict_in ns (EnvSpecTree.tree self) = true ->
      is_empty (EnvSpecTree.names_of self ns) = false).
Proof.
  unfold well_formed. intros [_ Hall]%andb_true_iff.
  unfold EnvSpecTree.names_of, dict_in.
  destruct (dict_get ns (EnvSpecTree.tree self)) as [names|] eqn:Hget.
  - pose proof (dict_all_get _ _ _ _ Hall Hget) as Hok. unfold names_ok in Hok.
    apply andb_true_iff in Hok as [[Hne Hd]%andb_true_iff Ha].
    apply negb_true_iff in Hne. auto.
  - repeat split; [discriminate].
Qed.

Lemma versions_of_checked (self : EnvSpecTree.t) (ns : option string)
  (n : string) :
  well_formed self = true ->
  distinct_keys (EnvSpecTree.versions_of self ns n) = true
  /\ dict_all (leaf_ok ns n) (EnvSpecTree.versions_of self ns n) = true
  /\ (dict_in n (EnvSpecTree.names_of self ns) = true ->
      is_empty (EnvSpecTree.versions_of self ns n) = false).
Proof.
  intros Hwf. destruct (names_of_checked self ns Hwf) as (_ & Hall & _).
  unfold EnvSpecTree.versions_of, dict_in.
  destruct (dict_get n (EnvSpecTree.names_of self ns)) as [versions|] eqn:Hget.
  - pose proof (dict_all_get _ _ _ _ Hall Hget) as Hok. unfold versions_ok in Hok.
    apply andb_true_iff in Hok as [[Hne Hd]%andb_true_iff Ha].
    apply negb_true_iff in Hne. auto.
  - repeat split; [discriminate].
Qed.

Lemma setitem_well_formed (self self' : EnvSpecTree.t) (key : string)
  (value : EnvSpec.t) (ns : option string) (n : string) (v : option Z) :
  well_formed self = true ->
  parse_env_id key = Ok (ns, n, v) ->
  leaf_ok ns n v value = true ->
  EnvSpecTree.__setitem__ self key value = Ok self' ->
  well_formed self' = true.
Proof.
  intros Hwf Hparse Hleaf. unfold EnvSpecTree.__setitem__. rewrite Hparse.
  cbn [bind]. intros [= <-].
  destruct (names_of_checked self ns Hwf) as (Hnd & Hna & _).
  destruct (versions_of_checked self ns n Hwf) as (Hvd & Hva & _).
  pose proof Hwf as Hwf'. unfold well_formed in Hwf'.
  apply andb_true_iff in Hwf' as [Htd Hta].
  unfold well_formed. cbn [EnvSpecTree.tree].
  rewrite distinct_keys_set by exact Htd. apply dict_all_set; [exact Hta |].
  unfold names_ok. rewrite is_empty_set, distinct_keys_set by exact Hnd.
  apply dict_all_set; [exact Hna |].
  unfold versions_ok. rewrite is_empty_set, distinct_keys_set by exact Hvd.
  now apply dict_all_set.
Qed.

Lemma delitem_well_formed `{Externals} (self self' : EnvSpecTree.t)
  (key : string) :
  well_formed self = true ->
  EnvSpecTree.__delitem__ self key = Ok self' ->
  well_formed self' = true.
Proof.
  intros Hwf. unfold EnvSpecTree.__delitem__.
  destruct (parse_env_id key) as [[[ns n] v]|e]; [| discriminate].
  cbn [bind].
  destruct (EnvSpecTree._assert_version_exists self ns n v); [| discriminate].
  cbn [bind]. intros [= <-].
  destruct (names_of_checked self ns Hwf) as (Hnd & Hna & _).
  destruct (versions_of_checked self ns n Hwf) as (Hvd & Hva & _).
  pose proof Hwf as Hwf'. unfold well_formed in Hwf'.
  apply andb_true_iff in Hwf' as [Htd Hta].
  unfold well_formed. cbn [EnvSpecTree.tree].
  assert (Hnames :
    let names :=
      match dict_pop v (EnvSpecTree.versions_of self ns n) with
      | [] => dict_pop n (EnvSpecTree.names_of self ns)
      | _ => dict_set n (dict_pop v (EnvSpecTree.versions_of self ns n))
               (EnvSpecTree.names_of self ns)
      end in
    distinct_keys names = true /\ dict_all (versions_ok ns) names = true).
  { destruct (dict_pop v (EnvSpecTree.versions_of self ns n)) as [|b vs] eqn:Hpop.
    - split; [now apply distinct_keys_pop | now apply dict_all_pop].
    - split; [now apply distinct_keys_set |].
      apply dict_all_set; [exact Hna |].
      unfold versions_ok. rewrite <- Hpop.
      rewrite distinct_keys_pop, dict_all_pop by assumption.
      now rewrite Hpop. }
  cbv zeta in Hnames. destruct Hnames as [Hnd' Hna'].
  match goal with |- context [match ?m with [] => dict_pop ns _ | _ => _ end] =>
    destruct m as [|b names] eqn:Hn end.
  - rewrite distinct_keys_pop by exact Htd. now apply dict_all_pop.
  - rewrite distinct_keys_set by exact Htd. apply dict_all_set; [exact Hta |].
    unfold names_ok. now rewrite Hnd', Hna'.
Qed.

(** X2.  The empty tree is well formed, and [register] and [__delitem__]
    keep a tree well formed: every level binds a key once, no namespace is
    left without names and no name without versions, and every record sits
    at the position that its own canonical id parses to. *)
Theorem register_delete_keep_well_formed `{Externals} :
  well_formed EnvSpecTree.__init__ = true
  /\ (forall self id a self',
        well_formed (EnvRegistry.env_specs self) = true ->
        snd (EnvRegistry.register self id a) = Ok self' ->
        well_formed (EnvRegistry.env_specs self') = true)
  /\ (forall self key self',
        well_formed self = true ->
        EnvSpecTree.__delitem__ self key = Ok self' ->
        well_formed self' = true).
Proof.
  split; [reflexivity |]. split.
  - intros self id a self' Hwf Hreg.
    destruct (parse_env_id id) as [[[ns0 n] v]|e] eqn:Hparse.
    + destruct (EnvRegistry._ns self) as [o|] eqn:Hns.
      * destruct (valid_namespace o) eqn:Hvalid.
        -- destruct (register_outcome self id a _ _ _ Hparse) as [Hcanon Hout].
           { now rewrite Hns. }
           rewrite Hns in Hcanon, Hout. rewrite Hout in Hreg. cbn [snd] in Hreg.
           destruct (EnvSpecTree.__setitem__ _ _ _) as [specs|e] eqn:Hset;
             [| discriminate].
           cbn [bind] in Hreg. injection Hreg as <-. cbn [EnvRegistry.env_specs].
           exact (setitem_well_formed _ _ _ _ _ _ _ Hwf Hcanon
                    (leaf_ok_spec_of a _ _ _ Hcanon) Hset).
        -- destruct (register_invalid_override self id a o ns0 n v Hns Hparse Hvalid)
             as [message Hraise].
           congruence.
      * destruct (register_outcome self id a _ _ _ Hparse) as [Hcanon Hout].
        { now rewrite Hns. }
        rewrite Hns in Hcanon, Hout. rewrite Hout in Hreg. cbn [snd] in Hreg.
        destruct (EnvSpecTree.__setitem__ _ _ _) as [specs|e] eqn:Hset;
          [| discriminate].
        cbn [bind] in Hreg. injection Hreg as <-. cbn [EnvRegistry.env_specs].
        exact (setitem_well_formed _ _ _ _ _ _ _ Hwf Hcanon
                 (leaf_ok_spec_of a _ _ _ Hcanon) Hset).
    + unfold EnvRegistry.register, EnvSpec.__init__ in Hreg.
      rewrite Hparse in Hreg. discriminate.
  - intros self key self'. apply delitem_well_formed.
Qed.

Lemma register_delete_keep_well_formed_witness :
  exists self self',
    registered EnvRegistry.__init__ "ALE/Pong-v5" = Ok self
    /\ well_formed (EnvRegistry.env_specs self) = true
    /\ EnvSpecTree.__delitem__ (H := sample_externals)
         (EnvRegistry.env_specs self) "ALE/Pong-v5" = Ok self'
    /\ well_formed self' = true.
Proof.
  destruct (@register_delete_keep_well_formed sample_externals)
    as (Hinit & Hreg & Hdel).
  eexists _, _. split; [reflexivity |].
  assert (Hwf := Hreg EnvRegistry.__init__ "ALE/Pong-v5" (EnvSpec.defaults 0)
                   _ Hinit eq_refl).
  split; [exact Hwf |]. split; [reflexivity |].
  exact (Hdel _ "ALE/Pong-v5" _ Hwf eq_refl).
Defined.

(** ** Iteration and [all] on well-formed trees *)

Lemma Forall_flat_map_intro {A B : Type} (P : B -> Prop) (f : A -> list B)
  (l : list A) :
  (forall x, x ∈ l -> Forall P (f x)) -> Forall P (flat_map f l).
Proof.
  induction l as [|x l IH]; intros Hl; simpl; [constructor |].
  apply Forall_app. split.
  - apply Hl. now left.
  - apply IH. intros y Hy. apply Hl. now right.
Qed.

Lemma Forall_map_intro {A B : Type} (P : B -> Prop) (g : A -> B) (l : list A) :
  (forall x, x ∈ l -> P (g x)) -> Forall P (map g l).
Proof.
  induction l as [|x l IH]; intros Hl; simpl; constructor.
  - apply Hl. now left.
  - apply IH. intros y Hy. apply Hl. now right.
Qed.

Lemma binding_read {K V : Type} `{EqDecision K} (d : Dict K V) (k : K) (v : V) :
  distinct_keys d = true -> (k, v) ∈ d -> dict_get k d = Some v.
Proof.
  intros Hd Hin. pose proof (distinct_keys_bindings d Hd) as Hall.
  rewrite Forall_forall in Hall. exact (Hall _ Hin).
Qed.

Lemma items_found (self : EnvSpecTree.t) :
  well_formed self = true -> Forall (leaf_found self) (EnvSpecTree.items self).
Proof.
  intros Hwf. pose proof Hwf as Hwf'. unfold well_formed in Hwf'.
  apply andb_true_iff in Hwf' as [Htd Hta].
  unfold EnvSpecTree.items. apply Forall_flat_map_intro.
  intros [ns names] Hns. apply (binding_read _ _ _ Htd) in Hns.
  pose proof (dict_all_get _ _ _ _ Hta Hns) as Hok. unfold names_ok in Hok.
  apply andb_true_iff in Hok as [[_ Hnd]%andb_true_iff Hna].
  apply Forall_flat_map_intro.
  intros [n versions] Hn. apply (binding_read _ _ _ Hnd) in Hn.
  pose proof (dict_all_get _ _ _ _ Hna Hn) as Hok. unfold versions_ok in Hok.
  apply andb_true_iff in Hok as [[_ Hvd]%andb_true_iff Hva].
  apply Forall_map_intro.
  intros [v spec] Hv. apply (binding_read _ _ _ Hvd) in Hv.
  assert (Hnames : EnvSpecTree.names_of self ns = names).
  { unfold EnvSpecTree.names_of. now rewrite Hns. }
  assert (Hversions : EnvSpecTree.versions_of self ns n = versions).
  { unfold EnvSpecTree.versions_of. now rewrite Hnames, Hn. }
  split; [exact (dict_all_get _ _ _ _ Hva Hv) |]. split.
  - unfold present_b, dict_in. now rewrite Hnames, Hversions, Hns, Hn, Hv.
  - now rewrite Hversions.
Qed.

Lemma iterate_found (self : EnvSpecTree.t)
  (leaves : list (option string * string * option Z * EnvSpec.t)) :
  Forall (leaf_found self) leaves ->
  EnvSpecTree.iterate leaves = Ok (map (fun leaf => EnvSpec.id (snd leaf)) leaves).
Proof.
  induction 1 as [|[[[ns n] v] spec] leaves (Hleaf & _ & _) _ IH]; [reflexivity |].
  apply leaf_ok_inv in Hleaf as (Hns & Hn & Hv & _). simpl.
  rewrite !bool_decide_eq_true_2 by assumption. simpl. now rewrite IH.
Qed.

Lemma read_leaves_found `{Externals} (self : EnvSpecTree.t)
  (leaves : list (option string * string * option Z * EnvSpec.t)) :
  Forall (leaf_found self) leaves ->
  read_leaves self leaves = Ok (map snd leaves).
Proof.
  induction 1 as [|[[[ns n] v] spec] leaves (Hleaf & Hpresent & Hget) _ IH];
    [reflexivity |].
  apply leaf_ok_inv in Hleaf as (Hns & Hn & Hv & Hparse). simpl.
  rewrite !bool_decide_eq_true_2 by assumption. simpl.
  unfold EnvSpec.id. rewrite Hns, Hn, Hv.
  rewrite (getitem_present _ _ _ _ _ Hparse Hpresent), Hget. simpl.
  now rewrite IH.
Qed.

(** X3.  On a well-formed tree the iteration passes its assertions at every
    leaf and yields the canonical ids of the leaves in order; each of them
    is contained in the tree; and [all], which reads each yielded id,
    returns the records of the leaves in that order. *)
Theorem iteration_reads_every_leaf `{Externals} (self : EnvRegistry.t) :
  well_formed (EnvRegistry.env_specs self) = true ->
  EnvSpecTree.__iter__ (EnvRegistry.env_specs self)
  = Ok (map (fun leaf => EnvSpec.id (snd leaf))
          (EnvSpecTree.items (EnvRegistry.env_specs self)))
  /\ registry_all self
     = Ok (map snd (EnvSpecTree.items (EnvRegistry.env_specs self)))
  /\ Forall (fun leaf =>
               EnvSpecTree.__contains__ (EnvRegistry.env_specs self)
                 (EnvSpec.id (snd leaf)) = Ok true)
       (EnvSpecTree.items (EnvRegistry.env_specs self)).
Proof.
  intros Hwf. pose proof (items_found _ Hwf) as Hfound.
  split; [exact (iterate_found _ _ Hfound) |].
  split; [exact (read_leaves_found _ _ Hfound) |].
  eapply Forall_impl; [exact Hfound |].
  intros [[[ns n] v] spec] (Hleaf & Hpresent & _).
  apply leaf_ok_inv in Hleaf as (Hns & Hn & Hv & Hparse). simpl.
  unfold EnvSpecTree.__contains__, EnvSpec.id. rewrite Hns, Hn, Hv, Hparse.
  simpl. f_equal. exact Hpresent.
Qed.

Lemma iteration_reads_every_leaf_witness :
  EnvSpecTree.__iter__ tree_Breakout = Ok ["Breakout-v0"; "ALE/Breakout-v5"]
  /\ registry_all (H := sample_externals)
       {| EnvRegistry.env_specs := tree_Breakout; EnvRegistry._ns := None |}
     = Ok [sample_spec None "Breakout" (Some 0);
           sample_spec (Some "ALE") "Breakout" (Some 5)].
Proof.
  destruct (@iteration_reads_every_leaf sample_externals
              {| EnvRegistry.env_specs := tree_Breakout; EnvRegistry._ns := None |}
              eq_refl) as (Hiter & Hall & _).
  split; [exact Hiter | exact Hall].
Defined.

(** ** The counter and the number of leaves *)

Lemma items_length (self : EnvSpecTree.t) :
  List.length (EnvSpecTree.items self)
  = dict_sum (dict_sum (fun versions : EnvSpecTree.Versions => List.length versions))
      (EnvSpecTree.tree self).
Proof.
  unfold EnvSpecTree.items.
  induction (EnvSpecTree.tree self) as [|[ns names] tree IH]; [reflexivity |].
  simpl. rewrite length_app, IH. f_equal.
  clear. induction names as [|[n versions] names IH]; [reflexivity |].
  simpl. rewrite length_app, IH, length_map. reflexivity.
Qed.

Lemma dict_set_length {K V : Type} `{EqDecision K} (k : K) (v : V)
  (d : Dict K V) :
  List.length (dict_set k v d)
  = (List.length d + if dict_in k d then 0 else 1)%nat.
Proof.
  pose proof (dict_sum_set (fun _ => 1%nat) k v d) as Hsum.
  rewrite !dict_sum_length in Hsum. unfold dict_in.
  destruct (dict_get k d); lia.
Qed.

Lemma dict_pop_length {K V : Type} `{EqDecision K} (k : K) (d : Dict K V) :
  distinct_keys d = true ->
  (List.length (dict_pop k d) + if dict_in k d then 1 else 0)%nat
  = List.length d.
Proof.
  intros Hd. pose proof (dict_sum_pop (fun _ => 1%nat) k d Hd) as Hsum.
  rewrite !dict_sum_length in Hsum. unfold dict_in.
  destruct (dict_get k d); lia.
Qed.

Lemma names_of_sum (self : EnvSpecTree.t) (ns : option string) :
  match dict_get ns (EnvSpecTree.tree self) with
  | Some names => leaves_of_names names
  | None => 0%nat
  end = leaves_of_names (EnvSpecTree.names_of self ns).
Proof. unfold EnvSpecTree.names_of. now destruct (dict_get ns _). Qed.

Lemma versions_of_sum (self : EnvSpecTree.t) (ns : option string) (n : string) :
  match dict_get n (EnvSpecTree.names_of self ns) with
  | Some versions => List.length versions
  | None => 0%nat
  end = List.length (EnvSpecTree.versions_of self ns n).
Proof. unfold EnvSpecTree.versions_of. now destruct (dict_get n _). Qed.

Lemma present_b_version (self : EnvSpecTree.t) (ns : option string)
  (n : string) (v : option Z) :
  present_b self ns n v = dict_in v (EnvSpecTree.versions_of self ns n).
Proof.
  unfold present_b.
  destruct (dict_in v (EnvSpecTree.versions_of self ns n)) eqn:Hv;
    [| apply andb_false_r].
  destruct (versions_of_nonempty self ns n) as [-> ->]; [| reflexivity].
  intros Hnil. rewrite Hnil in Hv. discriminate.
Qed.

Lemma setitem_leaf_count (self self' : EnvSpecTree.t) (key : string)
  (value : EnvSpec.t) (ns : option string) (n : string) (v : option Z) :
  parse_env_id key = Ok (ns, n, v) ->
  EnvSpecTree.__setitem__ self key value = Ok self' ->
  leaf_count self'
  = leaf_count self + if present_b self ns n v then 0 else 1.
Proof.
  intros Hparse. unfold EnvSpecTree.__setitem__. rewrite Hparse. cbn [bind].
  intros [= <-]. unfold leaf_count. rewrite !items_length.
  cbn [EnvSpecTree.tree].
  pose proof (dict_sum_set leaves_of_names ns
                (dict_set n (dict_set v value (EnvSpecTree.versions_of self ns n))
                   (EnvSpecTree.names_of self ns))
                (EnvSpecTree.tree self)) as Htree.
  rewrite names_of_sum in Htree.
  pose proof (dict_sum_set (fun versions : EnvSpecTree.Versions => List.length versions)
                n (dict_set v value (EnvSpecTree.versions_of self ns n))
                (EnvSpecTree.names_of self ns)) as Hnames.
  rewrite versions_of_sum in Hnames.
  pose proof (dict_set_length v value (EnvSpecTree.versions_of self ns n)) as Hvs.
  rewrite present_b_version.
  unfold EnvSpecTree.Versions, EnvSpecTree.Names in *.
  destruct (dict_in v (EnvSpecTree.versions_of self ns n)); lia.
Qed.

Lemma one_leaf_less (tree' tree names' names versions' versions : nat) :
  (tree' + names = tree + names')%nat ->
  (names' + versions = names + versions')%nat ->
  (versions' + 1 = versions)%nat ->
  (tree' + 1 = tree)%nat.
Proof. lia. Qed.

Lemma delitem_leaf_count `{Externals} (self self' : EnvSpecTree.t)
  (key : string) :
  well_formed self = true ->
  EnvSpecTree.__delitem__ self key = Ok self' ->
  leaf_count self' = leaf_count self - 1.
Proof.
  intros Hwf. unfold EnvSpecTree.__delitem__.
  destruct (parse_env_id key) as [[[ns n] v]|e]; [| discriminate].
  cbn [bind].
  destruct (present_b self ns n v) eqn:Hpresent.
  2:{ destruct (assert_version_exists_raises _ _ _ _ Hpresent) as [e ->].
      discriminate. }
  rewrite assert_version_exists_ok by exact Hpresent. cbn [bind].
  intros [= <-]. unfold leaf_count. rewrite !items_length.
  cbn [EnvSpecTree.tree].
  destruct (names_of_checked self ns Hwf) as (Hnd & _ & _).
  destruct (versions_of_checked self ns n Hwf) as (Hvd & _ & _).
  pose proof Hwf as Hwf'. unfold well_formed in Hwf'.
  apply andb_true_iff in Hwf' as [Htd _].
  pose proof (dict_pop_length v _ Hvd) as Hvs.
  rewrite <- present_b_version, Hpresent in Hvs.
  set (versions := dict_pop v (EnvSpecTree.versions_of self ns n)) in *.
  set (names :=
         match versions with
         | [] => dict_pop n (EnvSpecTree.names_of self ns)
         | _ => dict_set n versions (EnvSpecTree.names_of self ns)
         end).
  assert (Hnames :
    (leaves_of_names names + List.length (EnvSpecTree.versions_of self ns n)
     = leaves_of_names (EnvSpecTree.names_of self ns) + List.length versions)%nat).
  { subst names. destruct versions as [|b vs] eqn:Hversions.
    - pose proof (dict_sum_pop
                    (fun versions : EnvSpecTree.Versions => List.length versions)
                    n _ Hnd) as Hpop.
      rewrite versions_of_sum in Hpop. simpl. lia.
    - pose proof (dict_sum_set
                    (fun versions : EnvSpecTree.Versions => List.length versions)
                    n (b :: vs) (EnvSpecTree.names_of self ns)) as Hset.
      rewrite versions_of_sum in Hset. exact Hset. }
  assert (Htree :
    (dict_sum leaves_of_names
       match names with
       | [] => dict_pop ns (EnvSpecTree.tree self)
       | _ => dict_set ns names (EnvSpecTree.tree self)
       end
     + leaves_of_names (EnvSpecTree.names_of self ns)
     = dict_sum leaves_of_names (EnvSpecTree.tree self) + leaves_of_names names)%nat).
  { destruct names as [|b ns'] eqn:Hn.
    - pose proof (dict_sum_pop leaves_of_names ns _ Htd) as Hpop.
      rewrite names_of_sum in Hpop. simpl. rewrite Nat.add_0_r. exact Hpop.
    - pose proof (dict_sum_set leaves_of_names ns (b :: ns')
                    (EnvSpecTree.tree self)) as Hset.
      rewrite names_of_sum in Hset. exact Hset. }
  match goal with |- Z.of_nat ?after = Z.of_nat ?before - 1 =>
    enough (after + 1 = before)%nat by lia end.
  exact (one_leaf_less _ _ _ _ _ _ Htree Hnames Hvs).
Qed.

(** X4.  Where the counter equals the number of leaves, it still does after
    assigning to an id that was not contained and after a deletion from a
    well-formed tree; after assigning to an id that was contained, the
    counter is one more than the number of leaves. *)
Theorem length_counts_leaves `{Externals} (self : EnvSpecTree.t) :
  EnvSpecTree.__len__ self = leaf_count self ->
  (forall key value self',
     EnvSpecTree.__contains__ self key = Ok false ->
     EnvSpecTree.__setitem__ self key value = Ok self' ->
     EnvSpecTree.__len__ self' = leaf_count self')
  /\ (forall key value self',
        EnvSpecTree.__contains__ self key = Ok true ->
        EnvSpecTree.__setitem__ self key value = Ok self' ->
        EnvSpecTree.__len__ self' = leaf_count self' + 1)
  /\ (well_formed self = true ->
      forall key self',
        EnvSpecTree.__delitem__ self key = Ok self' ->
        EnvSpecTree.__len__ self' = leaf_count self').
Proof.
  intros Hlen.
  assert (Hset : forall key value self' b,
    EnvSpecTree.__contains__ self key = Ok b ->
    EnvSpecTree.__setitem__ self key value = Ok self' ->
    EnvSpecTree.__len__ self' = leaf_count self' + if b then 1 else 0).
  { intros key value self' b Hin Hset.
    destruct (parse_env_id key) as [[[ns n] v]|e] eqn:Hparse.
    - rewrite (setitem_leaf_count _ _ _ _ _ _ _ Hparse Hset).
      rewrite (setitem_length _ _ _ _ Hset), Hlen.
      unfold EnvSpecTree.__contains__ in Hin. rewrite Hparse in Hin.
      cbn [bind] in Hin. injection Hin as <-.
      fold (present_b self ns n v). destruct (present_b self ns n v); lia.
    - unfold EnvSpecTree.__contains__ in Hin. rewrite Hparse in Hin.
      discriminate. }
  split; [| split].
  - intros key value self' Hin Hs. rewrite (Hset _ _ _ _ Hin Hs). lia.
  - intros key value self' Hin Hs. exact (Hset _ _ _ _ Hin Hs).
  - intros Hwf key self' Hdel.
    rewrite (delitem_leaf_count _ _ _ Hwf Hdel), <- Hlen.
    unfold EnvSpecTree.__delitem__ in Hdel.
    destruct (parse_env_id key) as [[[ns n] v]|e]; [| discriminate].
    cbn [bind] in Hdel.
    destruct (EnvSpecTree._assert_version_exists self ns n v); [| discriminate].
    cbn [bind] in Hdel. now injection Hdel as <-.
Qed.

Lemma length_counts_leaves_witness :
  (exists self',
     EnvSpecTree.__setitem__ tree_A_v0 "A-v1" (sample_spec None "A" (Some 1))
     = Ok self'
     /\ EnvSpecTree.__len__ self' = leaf_count self')
  /\ (exists self',
        EnvSpecTree.__setitem__ tree_A_v0 "A-v0" (sample_spec None "A" (Some 0))
        = Ok self'
        /\ EnvSpecTree.__len__ self' = leaf_count self' + 1)
  /\ (exists self',
        EnvSpecTree.__delitem__ (H := sample_externals) tree_A_v0 "A-v0"
        = Ok self'
        /\ EnvSpecTree.__len__ self' = leaf_count self').
Proof.
  destruct (@length_counts_leaves sample_externals tree_A_v0 eq_refl)
    as (Hnew & Hold & Hdel).
  split; [| split].
  - eexists. split; [reflexivity |]. exact (Hnew "A-v1" _ _ eq_refl eq_refl).
  - eexists. split; [reflexivity |]. exact (Hold "A-v0" _ _ eq_refl eq_refl).
  - eexists. split; [reflexivity |]. exact (Hdel eq_refl "A-v0" _ eq_refl).
Defined.

(** ** What an assignment and a deletion leave alone *)

Lemma names_of_tree (tree : Dict (option string) EnvSpecTree.Names) (l : Z)
  (ns : option string) :
  EnvSpecTree.names_of {| EnvSpecTree.tree := tree; EnvSpecTree._length := l |} ns
  = match dict_get ns tree with Some names => names | None => [] end.
Proof. reflexivity. Qed.

(** The versions of every name after an assignment. *)
Lemma setitem_versions_of (self self' : EnvSpecTree.t) (key : string)
  (value : EnvSpec.t) (ns : option string) (n : string) (v : option Z)
  (ns' : option string) (n' : string) :
  parse_env_id key = Ok (ns, n, v) ->
  EnvSpecTree.__setitem__ self key value = Ok self' ->
  EnvSpecTree.versions_of self' ns' n'
  = if bool_decide (ns = ns') && bool_decide (n = n')
    then dict_set v value (EnvSpecTree.versions_of self ns n)
    else EnvSpecTree.versions_of self ns' n'.
Proof.
  intros Hparse. unfold EnvSpecTree.__setitem__. rewrite Hparse. cbn [bind].
  intros [= <-]. unfold EnvSpecTree.versions_of at 1. rewrite names_of_tree.
  destruct (decide (ns = ns')) as [<-|Hns].
  - rewrite bool_decide_eq_true_2 by reflexivity. rewrite dict_get_set_eq.
    destruct (decide (n = n')) as [<-|Hn].
    + rewrite bool_decide_eq_true_2 by reflexivity. now rewrite dict_get_set_eq.
    + rewrite bool_decide_eq_false_2 by exact Hn.
      now rewrite dict_get_set_ne by exact Hn.
  - rewrite bool_decide_eq_false_2 by exact Hns.
    now rewrite dict_get_set_ne by exact Hns.
Qed.

(** The versions of every name after a deletion. *)
Lemma delitem_versions_of `{Externals} (self self' : EnvSpecTree.t)
  (key : string) (ns : option string) (n : string) (v : option Z)
  (ns' : option string) (n' : string) :
  parse_env_id key = Ok (ns, n, v) ->
  EnvSpecTree.__delitem__ self key = Ok self' ->
  EnvSpecTree.versions_of self' ns' n'
  = if bool_decide (ns = ns') && bool_decide (n = n')
    then dict_pop v (EnvSpecTree.versions_of self ns n)
    else EnvSpecTree.versions_of self ns' n'.
Proof.
  intros Hparse. unfold EnvSpecTree.__delitem__. rewrite Hparse. cbn [bind].
  destruct (EnvSpecTree._assert_version_exists self ns n v); [| discriminate].
  cbn [bind]. intros [= <-].
  unfold EnvSpecTree.versions_of at 1. rewrite names_of_tree.
  set (versions := dict_pop v (EnvSpecTree.versions_of self ns n)).
  set (names :=
         match versions with
         | [] => dict_pop n (EnvSpecTree.names_of self ns)
         | _ => dict_set n versions (EnvSpecTree.names_of self ns)
         end).
  assert (Hnames : forall m,
    match dict_get m names with Some vs => vs | None => [] end
    = if bool_decide (n = m) then versions
      else EnvSpecTree.versions_of self ns m).
  { intros m. subst names. destruct (decide (n = m)) as [<-|Hn].
    - rewrite bool_decide_eq_true_2 by reflexivity.
      destruct versions as [|b vs].
      + now rewrite dict_get_pop_eq.
      + now rewrite dict_get_set_eq.
    - rewrite bool_decide_eq_false_2 by exact Hn.
      unfold EnvSpecTree.versions_of.
      destruct versions as [|b vs].
      + now rewrite dict_get_pop_ne by exact Hn.
      + now rewrite dict_get_set_ne by exact Hn. }
  destruct (decide (ns = ns')) as [<-|Hns].
  - rewrite bool_decide_eq_true_2 by reflexivity. cbn [andb].
    rewrite <- Hnames. destruct names as [|b ns'].
    + now rewrite dict_get_pop_eq.
    + now rewrite dict_get_set_eq.
  - rewrite bool_decide_eq_false_2 by exact Hns. cbn [andb].
    unfold EnvSpecTree.versions_of, EnvSpecTree.names_of.
    destruct names as [|b ns''].
    + now rewrite dict_get_pop_ne by exact Hns.
    + now rewrite dict_get_set_ne by exact Hns.
Qed.

Lemma getitem_read `{Externals} (self : EnvSpecTree.t) (key : string)
  (ns : option string) (n : string) (v : option Z) (spec : EnvSpec.t) :
  parse_env_id key = Ok (ns, n, v) ->
  EnvSpecTree.__getitem__ self key = Ok spec
  <-> dict_get v (EnvSpecTree.versions_of self ns n) = Some spec.
Proof.
  intros Hparse. destruct (present_b self ns n v) eqn:Hpresent.
  - rewrite (getitem_present _ _ _ _ _ Hparse Hpresent).
    destruct (dict_get v _); split; congruence.
  - pose proof Hpresent as Hmiss. rewrite present_b_version in Hmiss.
    unfold dict_in in Hmiss.
    unfold EnvSpecTree.__getitem__. rewrite Hparse. cbn [bind].
    destruct (assert_version_exists_raises _ _ _ _ Hpresent) as [e ->].
    cbn [bind]. destruct (dict_get v _); split; congruence.
Qed.

Lemma contains_read (self : EnvSpecTree.t) (key : string)
  (ns : option string) (n : string) (v : option Z) :
  parse_env_id key = Ok (ns, n, v) ->
  EnvSpecTree.__contains__ self key
  = Ok (dict_in v (EnvSpecTree.versions_of self ns n)).
Proof.
  intros Hparse. unfold EnvSpecTree.__contains__. rewrite Hparse. cbn [bind].
  f_equal. apply present_b_version.
Qed.

(** X5.  An assignment and a deletion at one position change nothing at any
    other position: for an id that parses to a different namespace, name or
    version, [contains] answers as before, and a record that [get] returned
    before is returned after. *)
Theorem other_positions_untouched `{Externals} (self : EnvSpecTree.t)
  (key key' : string) (ns ns' : option string) (n n' : string)
  (v v' : option Z) :
  parse_env_id key = Ok (ns, n, v) ->
  parse_env_id key' = Ok (ns', n', v') ->
  (ns, n, v) <> (ns', n', v') ->
  (forall value self',
     EnvSpecTree.__setitem__ self key value = Ok self' ->
     EnvSpecTree.__contains__ self' key' = EnvSpecTree.__contains__ self key'
     /\ forall spec,
          EnvSpecTree.__getitem__ self key' = Ok spec ->
          EnvSpecTree.__getitem__ self' key' = Ok spec)
  /\ (forall self',
        EnvSpecTree.__delitem__ self key = Ok self' ->
        EnvSpecTree.__contains__ self' key' = EnvSpecTree.__contains__ self key'
        /\ forall spec,
             EnvSpecTree.__getitem__ self key' = Ok spec ->
             EnvSpecTree.__getitem__ self' key' = Ok spec).
Proof.
  intros Hparse Hparse' Hother.
  assert (Hsame : forall self',
    (exists value,
       EnvSpecTree.versions_of self' ns' n'
       = if bool_decide (ns = ns') && bool_decide (n = n')
         then dict_set v value (EnvSpecTree.versions_of self ns n)
         else EnvSpecTree.versions_of self ns' n')
    \/ EnvSpecTree.versions_of self' ns' n'
       = (if bool_decide (ns = ns') && bool_decide (n = n')
          then dict_pop v (EnvSpecTree.versions_of self ns n)
          else EnvSpecTree.versions_of self ns' n') ->
    dict_get v' (EnvSpecTree.versions_of self' ns' n')
    = dict_get v' (EnvSpecTree.versions_of self ns' n')).
  { intros self' Hview.
    destruct (bool_decide (ns = ns') && bool_decide (n = n')) eqn:Hpos.
    - apply andb_true_iff in Hpos as [Hns Hn].
      apply bool_decide_eq_true in Hns, Hn. subst ns' n'.
      assert (Hv : v <> v') by congruence.
      destruct Hview as [[value ->] | ->].
      + now apply dict_get_set_ne.
      + now apply dict_get_pop_ne.
    - destruct Hview as [[value ->] | ->]; reflexivity. }
  split.
  - intros value self' Hset.
    pose proof (setitem_versions_of _ _ _ value _ _ _ ns' n' Hparse Hset) as Hview.
    assert (Hget := Hsame self' (or_introl (ex_intro _ value Hview))).
    split.
    + rewrite !(contains_read _ _ _ _ _ Hparse'). unfold dict_in. now rewrite Hget.
    + intros spec. rewrite !(getitem_read _ _ _ _ _ _ Hparse'). now rewrite Hget.
  - intros self' Hdel.
    pose proof (delitem_versions_of _ _ _ _ _ _ ns' n' Hparse Hdel) as Hview.
    assert (Hget := Hsame self' (or_intror Hview)).
    split.
    + rewrite !(contains_read _ _ _ _ _ Hparse'). unfold dict_in. now rewrite Hget.
    + intros spec. rewrite !(getitem_read _ _ _ _ _ _ Hparse'). now rewrite Hget.
Qed.

Lemma other_positions_untouched_witness :
  (exists self',
     EnvSpecTree.__setitem__ tree_A_v0 "A-v1" (sample_spec None "A" (Some 1))
     = Ok self'
     /\ EnvSpecTree.__getitem__ (H := sample_externals) self' "A-v0"
        = Ok (sample_spec None "A" (Some 0)))
  /\ (exists self',
        EnvSpecTree.__delitem__ (H := sample_externals) tree_A_v0_v1 "A-v1"
        = Ok self'
        /\ EnvSpecTree.__getitem__ (H := sample_externals) self' "A-v0"
           = Ok (sample_spec None "A" (Some 0))).
Proof.
  assert (Hother : (None, "A", Some 1) <> (None : option string, "A", Some 0))
    by discriminate.
  split.
  - destruct (@other_positions_untouched sample_externals tree_A_v0
                "A-v1" "A-v0" None None "A" "A" (Some 1) (Some 0)
                eq_refl eq_refl Hother) as [Hset _].
    eexists. split; [reflexivity |].
    exact (proj2 (Hset _ _ eq_refl) _ eq_refl).
  - destruct (@other_positions_untouched sample_externals tree_A_v0_v1
                "A-v1" "A-v0" None None "A" "A" (Some 1) (Some 0)
                eq_refl eq_refl Hother) as [_ Hdel].
    eexists. split; [reflexivity |].
    exact (proj2 (Hdel _ eq_refl) _ eq_refl).
Defined.

(** ** The errors of a lookup *)

Lemma assert_name_exists_name_missing `{Externals} (self : EnvSpecTree.t)
  (ns : option string) (n : string) :
  dict_in ns (EnvSpecTree.tree self) = true ->
  dict_in n (EnvSpecTree.names_of self ns) = false ->
  exists message,
    EnvSpecTree._assert_name_exists self ns n
    = Raise (GymError NameNotFound message).
Proof.
  intros Hns Hn. unfold EnvSpecTree._assert_name_exists, EnvSpecTree.names.
  rewrite assert_namespace_exists_ok by exact Hns. cbn [bind]. rewrite Hn.
  destruct ns as [ns|];
    [| destruct (dict_get n internal_env_relocation_map) as [[[?|] ?]|]];
    cbn [bind]; eauto.
Qed.

(** X6.  [get] fails with the kind of the first level that is missing: an
    id that does not parse gives the parser's exception, [Error] for a
    malformed id and ValueError for a version of too many digits; an absent
    namespace, NamespaceNotFound; a present namespace without the name,
    NameNotFound; a present name without the version, DeprecatedEnv,
    VersionNotFound or the TypeError of ordering [None]; it never fails with
    KeyError, and with all three levels present it returns the record
    stored there. *)
Theorem get_error_kinds `{Externals} (self : EnvSpecTree.t) (key : string) :
  match parse_env_id key with
  | Raise e =>
      EnvSpecTree.__getitem__ self key = Raise e
      /\ (e = ValueError \/ exists message, e = GymError Error message)
  | Ok (ns, n, v) =>
      if negb (dict_in ns (EnvSpecTree.tree self)) then
        exists message,
          EnvSpecTree.__getitem__ self key
          = Raise (GymError NamespaceNotFound message)
      else if negb (dict_in n (EnvSpecTree.names_of self ns)) then
        exists message,
          EnvSpecTree.__getitem__ self key
          = Raise (GymError NameNotFound message)
      else
        match dict_get v (EnvSpecTree.versions_of self ns n) with
        | Some spec => EnvSpecTree.__getitem__ self key = Ok spec
        | None =>
            EnvSpecTree.__getitem__ self key = Raise TypeError
            \/ exists message,
                 EnvSpecTree.__getitem__ self key
                 = Raise (GymError DeprecatedEnv message)
                 \/ EnvSpecTree.__getitem__ self key
                    = Raise (GymError VersionNotFound message)
        end
  end.
Proof.
  destruct (parse_env_id key) as [[[ns n] v]|e] eqn:Hparse.
  2:{ split.
      - unfold EnvSpecTree.__getitem__. now rewrite Hparse.
      - rewrite parse_env_id_fullmatch in Hparse.
        destruct (fullmatch key) as [[[ns n] v]|].
        + destruct (within_limit v); [discriminate |].
          injection Hparse as <-. now left.
        + injection Hparse as <-. eauto. }
  unfold EnvSpecTree.__getitem__. rewrite Hparse. cbn [bind].
  unfold EnvSpecTree._assert_version_exists.
  destruct (dict_in ns (EnvSpecTree.tree self)) eqn:Hns; cbn [negb].
  2:{ unfold EnvSpecTree._assert_name_exists.
      destruct (assert_namespace_exists_raises _ _ Hns) as [message ->].
      cbn [bind]. eauto. }
  destruct (dict_in n (EnvSpecTree.names_of self ns)) eqn:Hn; cbn [negb].
  2:{ destruct (assert_name_exists_name_missing _ _ _ Hns Hn) as [message ->].
      cbn [bind]. eauto. }
  rewrite assert_name_exists_ok by assumption. cbn [bind]. unfold dict_in.
  destruct (dict_get v (EnvSpecTree.versions_of self ns n)) as [spec|];
    [reflexivity |].
  destruct (py_max _ _) as [latest|e] eqn:Hmax; cbn [bind].
  2:{ left. destruct (dict_values _) as [|first rest]; [discriminate |].
      unfold py_max in Hmax.
      destruct (max_loop _ _ _) eqn:Hloop; [discriminate |].
      injection Hmax as <-. f_equal.
      clear -Hloop. revert first Hloop.
      induction rest as [|x rest IH]; intros first; simpl; [discriminate |].
      destruct (EnvSpec.version x), (EnvSpec.version first); simpl;
        try (now intros [= <-]). apply IH. }
  match goal with |- context [match ?d with Some _ => _ | None => _ end] =>
    destruct d end; cbn [bind]; [right; eauto |].
  destruct (dict_values _) as [|first rest]; cbn [bind]; [right; eauto |].
  destruct (py_sorted _ _) as [sorted|e] eqn:Hsorted; cbn [bind];
    [right; eauto |].
  left. f_equal. clear -Hsorted. revert e Hsorted.
  generalize (first :: rest). intros l.
  induction l as [|x l IH]; intros e; simpl; [discriminate |].
  destruct (py_sorted EnvSpec.version l) as [r|e'] eqn:Hl; simpl.
  - clear. induction r as [|y r IHr]; simpl; [discriminate |].
    destruct (EnvSpec.version y), (EnvSpec.version x); simpl;
      try (now intros [= <-]).
    destruct (_ <? _)%Z; [| discriminate].
    destruct (sorted_insert EnvSpec.version x r) eqn:Hins; simpl; [discriminate |].
    intros [= <-]. now apply IHr.
  - intros [= <-]. now apply (IH e').
Qed.

(** X7.  A relocated name that the root namespace lacks: looked up without
    namespace, it raises NameNotFound with the message that names the
    external package, with the install hint when the package is not found,
    and with the relocated id when the table relocates the name to a
    namespace (not when it relocates it to the no-namespace key); but in a
    tree without any unnamespaced registration the lookup stops one level
    earlier, at NamespaceNotFound for the namespace [None]. *)
Theorem relocated_name_error `{Externals} (self : EnvSpecTree.t)
  (key n : string) (v : option Z) (relocated_namespace : option string)
  (package : string) :
  parse_env_id key = Ok (None, n, v) ->
  dict_get n internal_env_relocation_map = Some (relocated_namespace, package) ->
  dict_in n (EnvSpecTree.names_of self None) = false ->
  EnvSpecTree.__getitem__ self key
  = Raise
      (if dict_in None (EnvSpecTree.tree self) then
         GymError NameNotFound
           ("The environment `" ++ n
            ++ "` has been moved out of Gym to the package `" ++ package ++ "`."
            ++ (if find_spec package then ""
                else " Please install the package via `pip install "
                     ++ package ++ "`.")
            ++ match relocated_namespace with
               | Some target =>
                   " You can instantiate the new namespaced environment as `"
                   ++ target ++ "/" ++ n ++ "`."
               | None => ""
               end)
       else GymError NamespaceNotFound "Namespace `None` does not exist.").
Proof.
  intros Hparse Hreloc Hn.
  unfold EnvSpecTree.__getitem__, EnvSpecTree._assert_version_exists,
    EnvSpecTree._assert_name_exists. rewrite Hparse. cbn [bind].
  destruct (dict_in None (EnvSpecTree.tree self)) eqn:Hns.
  - rewrite assert_namespace_exists_ok by exact Hns. cbn [bind].
    rewrite Hn, Hreloc. cbn [bind].
    destruct relocated_namespace as [target|]; destruct (find_spec package);
      cbn [bind bool_decide decide_rel fmt_str];
      rewrite ?append_assoc, ?append_empty_l, ?append_empty_r; reflexivity.
  - unfold EnvSpecTree._assert_namespace_exists. rewrite Hns. reflexivity.
Qed.

Lemma relocated_name_error_witness :
  EnvSpecTree.__getitem__ (H := sample_externals) tree_A_v0 "Breakout-v0"
  = Raise (GymError NameNotFound
      "The environment `Breakout` has been moved out of Gym to the package `ale-py`. Please install the package via `pip install ale-py`. You can instantiate the new namespaced environment as `ALE/Breakout`.")
  /\ EnvSpecTree.__getitem__ (H := sample_externals) tree_A_v0 "FrozenLake-v1"
     = Raise (GymError NameNotFound
         "The environment `FrozenLake` has been moved out of Gym to the package `gym-toytext`. Please install the package via `pip install gym-toytext`.")
  /\ EnvSpecTree.__getitem__ (H := sample_externals) EnvSpecTree.__init__
       "Breakout-v0"
     = Raise (GymError NamespaceNotFound "Namespace `None` does not exist.").
Proof.
  split; [| split].
  - exact (@relocated_name_error sample_externals tree_A_v0 "Breakout-v0"
             "Breakout" (Some 0) (Some "ALE") "ale-py" eq_refl eq_refl eq_refl).
  - exact (@relocated_name_error sample_externals tree_A_v0 "FrozenLake-v1"
             "FrozenLake" (Some 1) None "gym-toytext" eq_refl eq_refl eq_refl).
  - exact (@relocated_name_error sample_externals EnvSpecTree.__init__
             "Breakout-v0" "Breakout" (Some 0) (Some "ALE") "ale-py"
             eq_refl eq_refl eq_refl).
Defined.

Lemma assert_version_exists_versioned_witness :
  exists latest all_versions_sorted,
    EnvSpecTree._assert_version_exists (H := sample_externals)
      tree_A_v0_v1 None "A" (Some 2)
    = Raise (GymError VersionNotFound
        ("Environment version `v2` for `A` A could not be found. "
         ++ "Valid versions are: [ "
         ++ join ", "
              (map (fun spec => "`v" ++ fmt_int (EnvSpec.version spec) ++ "`")
                 all_versions_sorted)
         ++ " ]."))
    /\ Permutation all_versions_sorted
         [sample_spec None "A" (Some 0); sample_spec None "A" (Some 1)]
    /\ latest <= 2.
Proof.
  assert (Hversioned : versioned EnvSpec.version
            (dict_values (EnvSpecTree.versions_of tree_A_v0_v1 None "A"))).
  { repeat constructor; discriminate. }
  assert (Hne : dict_values (EnvSpecTree.versions_of tree_A_v0_v1 None "A") <> [])
    by discriminate.
  destruct (@assert_version_exists_versioned sample_externals tree_A_v0_v1
              None "A" (Some 2) eq_refl eq_refl Hne Hversioned)
    as (latest & sorted & Hin & _ & Hperm & _ & Hraise).
  exists latest, sorted.
  assert (Hlatest : latest <= 2).
  { simpl in Hin. destruct Hin as [[= <-] | [[= <-] | []]]; lia. }
  split; [| split; [exact Hperm | exact Hlatest]].
  rewrite Hraise. cbv zeta.
  destruct (2 <? latest)%Z eqn:Hcmp; [apply Z.ltb_lt in Hcmp; lia |].
  reflexivity.
Defined.

(** ** Ids *)

(** X9.  What the parser returns is within the grammar and spells the id:
    the name is a non-empty string of name characters, the namespace a
    non-empty string of namespace characters, the version the number that
    [int] reads from a non-empty digit string and never negative, and the
    id is the namespace with its slash, the name, and [-v] with those
    digits. *)
Theorem parse_env_id_components (id : string) (ns : option string)
  (n : string) (v : option Z) :
  parse_env_id id = Ok (ns, n, v) ->
  nonempty n && all_chars is_name_char n = true
  /\ match ns with Some o => valid_namespace o = true | None => True end
  /\ exists suffix,
       id = match ns with Some o => o ++ "/" | None => "" end ++ n ++ suffix
       /\ match v with
          | None => suffix = ""
          | Some z =>
              0 <= z
              /\ exists digits,
                   suffix = "-v" ++ digits
                   /\ nonempty digits && all_chars is_decimal digits = true
                   /\ int digits = Ok z
          end.
Proof.
  intros (digits & Hmatch & -> & Hlimit)%parse_env_id_inv.
  destruct (fullmatch_inv _ _ _ _ Hmatch) as [(s & Hs & ->) Hns].
  destruct (match_name_spelled _ _ _ Hs) as (-> & Hn & Hds).
  split; [exact Hn |]. split; [exact Hns |].
  eexists. split; [reflexivity |].
  destruct digits as [ds|]; [| reflexivity]. simpl. split.
  - apply andb_true_iff in Hds as [_ Hds].
    apply int_acc_nonneg; [exact Hds | lia].
  - exists ds. split; [reflexivity |]. split; [exact Hds |].
    apply int_ok. simpl in Hlimit. now apply Z.leb_le.
Qed.

Lemma parse_env_id_components_witness :
  exists suffix,
    "ALE/Pong-v05" = "ALE/" ++ "Pong" ++ suffix
    /\ exists digits,
         suffix = "-v" ++ digits
         /\ nonempty digits && all_chars is_decimal digits = true
         /\ int digits = Ok 5.
Proof.
  destruct (parse_env_id_components "ALE/Pong-v05" (Some "ALE") "Pong" (Some 5)
              eq_refl) as (_ & _ & suffix & Hid & _ & Hdigits).
  exists suffix. split; [exact Hid | exact Hdigits].
Defined.

(** X10.  Ids that parse to different namespaces, names or versions have
    different canonical ids: the canonical id of a parsed triple determines
    the triple. *)
Theorem canonical_id_determines_triple (id1 id2 : string)
  (ns1 ns2 : option string) (n1 n2 : string) (v1 v2 : option Z) :
  parse_env_id id1 = Ok (ns1, n1, v1) ->
  parse_env_id id2 = Ok (ns2, n2, v2) ->
  EnvSpec.make_id ns1 n1 v1 = EnvSpec.make_id ns2 n2 v2 ->
  (ns1, n1, v1) = (ns2, n2, v2).
Proof.
  intros H1%parse_env_id_canonical H2%parse_env_id_canonical Heq.
  rewrite Heq in H1. congruence.
Qed.

Lemma canonical_id_determines_triple_witness :
  (None : option string, "A-v1", Some 2) = (None, "A-v1", Some 2).
Proof.
  exact (canonical_id_determines_triple "A-v1-v2" "A-v1-v002" None None
           "A-v1" "A-v1" (Some 2) (Some 2) eq_refl eq_refl eq_refl).
Defined.

(** ** Names and namespaces *)

Lemma dict_keys_set {K V : Type} `{EqDecision K} (k : K) (v : V) (d : Dict K V) :
  k ∈ dict_keys (dict_set k v d).
Proof.
  induction d as [|[k' v'] d IH]; simpl; [now left |].
  destruct (decide (k = k')) as [->|Hne]; simpl; [now left | now right].
Qed.

(** X11.  After an assignment, [names] of the id's namespace succeeds and
    lists the id's name, and [namespaces] lists the id's namespace when it
    has one; [names] of a namespace that the tree lacks raises
    NamespaceNotFound. *)
Theorem names_after_setitem `{Externals} (self self' : EnvSpecTree.t)
  (key : string) (value : EnvSpec.t) (ns : option string) (n : string)
  (v : option Z) :
  parse_env_id key = Ok (ns, n, v) ->
  EnvSpecTree.__setitem__ self key value = Ok self' ->
  (exists listed, EnvSpecTree.names self' ns = Ok listed /\ n ∈ listed)
  /\ (forall o, ns = Some o -> o ∈ EnvSpecTree.namespaces self')
  /\ (forall other,
        dict_in other (EnvSpecTree.tree self') = false ->
        exists message,
          EnvSpecTree.names self' other
          = Raise (GymError NamespaceNotFound message)).
Proof.
  intros Hparse Hset.
  destruct (setitem_ok self key value _ _ _ Hparse)
    as (t & Hset' & Hin & Hnames & _).
  rewrite Hset in Hset'. injection Hset' as <-.
  split; [| split].
  - unfold EnvSpecTree.names. rewrite assert_namespace_exists_ok by exact Hin.
    cbn [bind]. eexists. split; [reflexivity |].
    rewrite Hnames. apply dict_keys_set.
  - intros o ->.
    destruct (parse_env_id_parts _ _ _ _ Hparse) as [_ Ho].
    unfold EnvSpecTree.__setitem__ in Hset. rewrite Hparse in Hset.
    cbn [bind] in Hset. injection Hset as <-.
    unfold EnvSpecTree.namespaces. cbn [EnvSpecTree.tree].
    apply list_elem_of_omap. exists (Some o). split; [apply dict_keys_set |].
    unfold valid_namespace in Ho. apply andb_true_iff in Ho as [Ho _].
    destruct o; [discriminate | reflexivity].
  - intros other Hother. unfold EnvSpecTree.names.
    destruct (assert_namespace_exists_raises _ _ Hother) as [message ->].
    cbn [bind]. eauto.
Qed.

Lemma names_after_setitem_witness :
  exists self',
    EnvSpecTree.__setitem__ tree_A_v0 "ALE/Pong-v5"
      (sample_spec (Some "ALE") "Pong" (Some 5)) = Ok self'
    /\ (exists listed,
          EnvSpecTree.names (H := sample_externals) self' (Some "ALE")
          = Ok listed /\ "Pong" ∈ listed)
    /\ "ALE" ∈ EnvSpecTree.namespaces self'.
Proof.
  eexists. split; [reflexivity |].
  destruct (@names_after_setitem sample_externals tree_A_v0 _ "ALE/Pong-v5"
              (sample_spec (Some "ALE") "Pong" (Some 5)) (Some "ALE") "Pong"
              (Some 5) eq_refl eq_refl) as (Hnames & Hns & _).
  split; [exact Hnames | exact (Hns "ALE" eq_refl)].
Defined.

(** ** Module-qualified paths *)

Lemma partition_colon_app (m rest : string) :
  all_chars no_colon m = true ->
  partition_colon (m ++ String ":" rest) = Some (m, rest).
Proof.
  intros Hm. induction m as [|c m IH]; [reflexivity |].
  simpl in Hm. apply andb_true_iff in Hm as [Hc Hm].
  simpl. unfold no_colon in Hc. apply negb_true_iff in Hc. rewrite Hc.
  now rewrite (IH Hm).
Qed.

Lemma partition_colon_none (s : string) :
  all_chars no_colon s = true -> partition_colon s = None.
Proof.
  induction s as [|c s IH]; [reflexivity |]. simpl.
  intros [Hc Hs]%andb_true_iff. unfold no_colon in Hc.
  apply negb_true_iff in Hc. rewrite Hc. now rewrite (IH Hs).
Qed.

(** Where the override, if any, is a namespace of the grammar, [register]
    succeeds, keeps the override, and the record is read back under the
    namespace it was given. *)
Lemma register_stores `{Externals} (self : EnvRegistry.t) (id : string)
  (a : EnvSpec.args) (ns0 : option string) (n : string) (v : option Z) :
  parse_env_id id = Ok (ns0, n, v) ->
  match EnvRegistry._ns self with
  | Some o => valid_namespace o = true
  | None => True
  end ->
  let ns := match EnvRegistry._ns self with Some o => Some o | None => ns0 end in
  exists log self',
    EnvRegistry.register self id a = (log, Ok self')
    /\ EnvRegistry._ns self' = EnvRegistry._ns self
    /\ EnvSpecTree.__getitem__ (EnvRegistry.env_specs self')
         (EnvSpec.make_id ns n v)
       = Ok (spec_of a ns n v).
Proof.
  intros Hparse Hvalid ns.
  destruct (register_outcome self id a _ _ _ Hparse Hvalid) as [Hcanon Hreg].
  fold ns in Hcanon, Hreg. rewrite Hreg.
  destruct (setitem_ok (EnvRegistry.env_specs self) _ (spec_of a ns n v)
              _ _ _ Hcanon)
    as (specs & Hset & Hin & Hnames & Hversions & _).
  rewrite Hset. cbn [bind]. eexists _, _. split; [reflexivity |].
  split; [reflexivity |]. cbn [EnvRegistry.env_specs].
  rewrite (getitem_present _ _ _ _ _ Hcanon).
  - rewrite Hversions. now rewrite dict_get_set_eq.
  - unfold present_b. now rewrite Hin, Hnames, Hversions, !dict_in_set_eq.
Qed.

(** X12.  [spec] cuts its path at the first colon.  A path without colon is
    looked up as it is, and nothing is imported.  A path with one is never
    looked up as it is, even when it is a registered id whose name has a
    colon: the part before the first colon is imported as a module, and the
    lookup is made for the part after it, in the registry as the import
    leaves it.  A relative module name raises TypeError and an empty one
    ValueError, before anything is imported; where the module is not found
    [spec] raises [Error]; any other exception of the import propagates.
    An id that the imported module registers is found, whether it was
    registered before or not.  [spec] itself logs nothing: the messages of
    the call are those of the imported module. *)
Theorem spec_cuts_at_first_colon {E : Externals} {M : EnvRegistry.Modules}
  (self : EnvRegistry.t) :
  (forall path,
     all_chars no_colon path = true ->
     EnvRegistry.spec self path
     = (self, [], EnvSpecTree.__getitem__ (EnvRegistry.env_specs self) path))
  /\ (forall mod_name id,
        all_chars no_colon mod_name = true ->
        EnvRegistry.spec self (mod_name ++ ":" ++ id)
        = if String.prefix "." mod_name then (self, [], Raise TypeError)
          else if negb (nonempty mod_name) then (self, [], Raise ValueError)
          else
            match EnvRegistry.run_module mod_name self with
            | (self', log, None) =>
                (self', log,
                 EnvSpecTree.__getitem__ (EnvRegistry.env_specs self') id)
            | (self', log, Some ModuleNotFoundError) =>
                (self', log,
                 Raise (GymError Error
                   ("A module (" ++ mod_name
                    ++ ") was specified for the environment but was not found, "
                    ++ "make sure the package is installed with `pip install` before calling `gym.make()`")))
            | (self', log, Some e) => (self', log, Raise e)
            end)
  /\ (forall mod_name id a self' log ns n v,
        all_chars no_colon mod_name = true ->
        import_check mod_name = Ok tt ->
        EnvRegistry.run_module mod_name self = (self', log, None) ->
        EnvRegistry._ns self = None ->
        snd (EnvRegistry.register self id a) = Ok self' ->
        parse_env_id id = Ok (ns, n, v) ->
        EnvRegistry.spec self (mod_name ++ ":" ++ id)
        = (self', log, Ok (spec_of a ns n v))).
Proof.
  assert (Hcut : forall mod_name id,
    all_chars no_colon mod_name = true ->
    EnvRegistry.spec self (mod_name ++ ":" ++ id)
    = match EnvRegistry.import_module mod_name self with
      | (self', log, None) =>
          (self', log, EnvSpecTree.__getitem__ (EnvRegistry.env_specs self') id)
      | (self', log, Some ModuleNotFoundError) =>
          (self', log,
           Raise (GymError Error
             ("A module (" ++ mod_name
              ++ ") was specified for the environment but was not found, "
              ++ "make sure the package is installed with `pip install` before calling `gym.make()`")))
      | (self', log, Some e) => (self', log, Raise e)
      end).
  { intros mod_name id Hmod. unfold EnvRegistry.spec.
    change (mod_name ++ ":" ++ id) with (mod_name ++ String ":" id).
    now rewrite partition_colon_app by exact Hmod. }
  split; [| split].
  - intros path Hpath. unfold EnvRegistry.spec.
    now rewrite partition_colon_none.
  - intros mod_name id Hmod. rewrite (Hcut _ _ Hmod).
    unfold EnvRegistry.import_module, import_check.
    destruct (String.prefix "." mod_name); [reflexivity |].
    destruct mod_name; reflexivity.
  - intros mod_name id a self' log ns n v Hmod Hcheck Hrun Hns Hreg Hparse.
    rewrite (Hcut _ _ Hmod). unfold EnvRegistry.import_module.
    rewrite Hcheck, Hrun. f_equal.
    destruct (register_stores self id a _ _ _ Hparse)
      as (rlog & r & Hr & _ & Hget).
    { now rewrite Hns. }
    rewrite Hr in Hreg. cbn [snd] in Hreg. injection Hreg as ->.
    rewrite Hns in Hget.
    apply (getitem_read _ _ _ _ _ _ (parse_env_id_canonical _ _ _ _ Hparse))
      in Hget.
    now apply (getitem_read _ _ _ _ _ _ Hparse).
Qed.

Lemma spec_cuts_at_first_colon_witness :
  (exists self,
     registered EnvRegistry.__init__ "my:Env-v0" = Ok self
     /\ EnvSpecTree.__contains__ (EnvRegistry.env_specs self) "my:Env-v0"
        = Ok true
     /\ exists message,
          EnvRegistry.spec (E := sample_externals) (M := sample_modules) self
            "my:Env-v0"
          = (self, [], Raise (GymError Error message)))
  /\ EnvRegistry.spec (E := sample_externals) (M := sample_modules)
       {| EnvRegistry.env_specs := tree_A_v0; EnvRegistry._ns := None |} "A-v0"
     = ({| EnvRegistry.env_specs := tree_A_v0; EnvRegistry._ns := None |}, [],
        Ok (sample_spec None "A" (Some 0)))
  /\ EnvRegistry.spec (E := sample_externals) (M := sample_modules)
       {| EnvRegistry.env_specs := tree_A_v0; EnvRegistry._ns := None |} ":A-v0"
     = ({| EnvRegistry.env_specs := tree_A_v0; EnvRegistry._ns := None |}, [],
        Raise ValueError)
  /\ EnvRegistry.spec (E := sample_externals) (M := sample_modules)
       {| EnvRegistry.env_specs := tree_A_v0; EnvRegistry._ns := None |}
       "my_pkg:A-v1"
     = ({| EnvRegistry.env_specs := tree_A_v0_v1; EnvRegistry._ns := None |},
        [], Ok (sample_spec None "A" (Some 1))).
Proof.
  split; [| split; [| split]].
  - eexists. split; [reflexivity |]. split; [reflexivity |]. eexists.
    exact (proj1 (proj2 (@spec_cuts_at_first_colon sample_externals
                           sample_modules _)) "my" "Env-v0" eq_refl).
  - exact (proj1 (@spec_cuts_at_first_colon sample_externals sample_modules
                    {| EnvRegistry.env_specs := tree_A_v0;
                       EnvRegistry._ns := None |}) "A-v0" eq_refl).
  - exact (proj1 (proj2 (@spec_cuts_at_first_colon sample_externals
                           sample_modules
                           {| EnvRegistry.env_specs := tree_A_v0;
                              EnvRegistry._ns := None |})) "" "A-v0" eq_refl).
  - exact (proj2 (proj2 (@spec_cuts_at_first_colon sample_externals
                           sample_modules
                           {| EnvRegistry.env_specs := tree_A_v0;
                              EnvRegistry._ns := None |}))
             "my_pkg" "A-v1" (EnvSpec.defaults 0) _ [] None "A" (Some 1)
             eq_refl eq_refl eq_refl eq_refl eq_refl eq_refl).
Defined.

(** ** Instantiation through the registry *)



(** ** The plugin loader *)

Lemma namespace_enter_leave (name : string) (registry : EnvRegistry.t) :
  enter (namespace name) registry = EnvRegistry.set_ns (Some name) registry
  /\ (forall r, leave (namespace name) false r = EnvRegistry.set_ns None r)
  /\ (forall r, leave (namespace name) true r = r).
Proof. repeat split. Qed.

Lemma plugin_context_not_reserved (name : string) :
  name <> "__root__" -> name <> "__internal__" ->
  snd (plugin_context name) = namespace name.
Proof.
  intros Hroot Hinternal. unfold plugin_context.
  destruct (String.prefix "__" name && endswith name "__"); [| reflexivity].
  apply String.eqb_neq in Hroot, Hinternal. now rewrite Hroot, Hinternal.
Qed.

(** X14.  A plugin whose function can be loaded, under a name other than the
    two reserved ones: its function runs with the override set to the
    plugin's name; when the function returns, or raises an exception of a
    class under [Exception], the exception's text is logged, the override
    is cleared, and the loader goes on to the remaining plugins. *)
Theorem plugin_errors_are_logged (plugin : Plugin) (rest : list Plugin)
  (fn : Callback) (registry after : EnvRegistry.t) (log messages : list string)
  (raised : option Raised) :
  check_attr plugin = Ok tt ->
  plugin_name plugin <> "__root__" ->
  plugin_name plugin <> "__internal__" ->
  plugin_load plugin = inr fn ->
  fn (EnvRegistry.set_ns (Some (plugin_name plugin)) registry)
  = (after, messages, raised) ->
  match raised with Some r => is_Exception r = true | None => True end ->
  load_env_plugins (plugin :: rest) registry log
  = load_env_plugins rest (EnvRegistry.set_ns None after)
      (app (app (app log (fst (plugin_context (plugin_name plugin)))) messages)
           match raised with Some r => [raised_str r] | None => [] end).
Proof.
  intros Hattr Hroot Hinternal Hload Hfn Hraised.
  cbn [load_env_plugins]. unfold load_plugin. rewrite Hattr, Hload.
  pose proof (plugin_context_not_reserved _ Hroot Hinternal) as Hcontext.
  destruct (plugin_context (plugin_name plugin)) as [warnings context].
  cbn [snd fst] in *. subst context.
  destruct (namespace_enter_leave (plugin_name plugin) registry)
    as (-> & Hleave & _).
  rewrite Hfn. destruct raised as [r|].
  - rewrite Hraised. rewrite Hleave. reflexivity.
  - rewrite Hleave. now rewrite app_nil_r.
Qed.

Lemma plugin_errors_are_logged_witness :
  exists registry,
    load_env_plugins [sample_plugin] EnvRegistry.__init__ []
    = (registry, ["no ROMs"], Completed)
    /\ EnvRegistry._ns registry = None
    /\ EnvSpecTree.__contains__ (EnvRegistry.env_specs registry) "ALE/Pong-v5"
       = Ok true.
Proof.
  eexists. split.
  - exact (plugin_errors_are_logged sample_plugin [] _ EnvRegistry.__init__ _ []
             _ _ eq_refl ltac:(discriminate) ltac:(discriminate) eq_refl
             eq_refl eq_refl).
  - split; reflexivity.
Defined.

(** X15.  A plugin whose function makes one [register(id)] call, loaded into
    a registry without override.  Under one of the reserved names
    [__root__] and [__internal__] the record is stored under the id's own
    namespace.  Under any other name that the grammar admits as a
    namespace, [__x__]-style names included, it is stored under the
    plugin's name.  Either way the loader completes and leaves no
    override. *)
Theorem plugin_registers_under_its_name `{Externals} (plugin : Plugin)
  (id : string) (registry : EnvRegistry.t) (log : list string)
  (ns0 : option string) (n : string) (v : option Z) :
  check_attr plugin = Ok tt ->
  plugin_load plugin = inr (registering id) ->
  parse_env_id id = Ok (ns0, n, v) ->
  EnvRegistry._ns registry = None ->
  valid_namespace (plugin_name plugin) = true ->
  let ns :=
    if String.eqb (plugin_name plugin) "__root__"
       || String.eqb (plugin_name plugin) "__internal__"
    then ns0 else Some (plugin_name plugin) in
  exists registry' log',
    load_env_plugins [plugin] registry log = (registry', log', Completed)
    /\ EnvRegistry._ns registry' = None
    /\ EnvSpecTree.__getitem__ (EnvRegistry.env_specs registry')
         (EnvSpec.make_id ns n v)
       = Ok (spec_of (EnvSpec.defaults 0) ns n v).
Proof.
  intros Hattr Hload Hparse Hns Hvalid ns.
  cbn [load_env_plugins]. unfold load_plugin. rewrite Hattr, Hload.
  destruct (String.eqb (plugin_name plugin) "__root__"
            || String.eqb (plugin_name plugin) "__internal__") eqn:Hreserved.
  - assert (Hcontext : plugin_context (plugin_name plugin) = ([], nullcontext)).
    { unfold plugin_context. rewrite Hreserved.
      apply orb_true_iff in Hreserved as [E|E]; apply String.eqb_eq in E;
        rewrite E; reflexivity. }
    rewrite Hcontext. cbn [enter leave].
    destruct (register_stores registry id (EnvSpec.defaults 0) _ _ _ Hparse)
      as (rlog & self' & Hreg & Hns' & Hget).
    { now rewrite Hns. }
    rewrite Hns in Hget. unfold registering. rewrite Hreg.
    eexists _, _. split; [reflexivity |]. split; [congruence | exact Hget].
  - apply orb_false_iff in Hreserved as [Hroot Hinternal].
    apply String.eqb_neq in Hroot, Hinternal.
    pose proof (plugin_context_not_reserved _ Hroot Hinternal) as Hcontext.
    destruct (plugin_context (plugin_name plugin)) as [warnings context].
    cbn [snd] in Hcontext. subst context.
    destruct (namespace_enter_leave (plugin_name plugin) registry)
      as (-> & Hleave & _).
    destruct (register_stores
                (EnvRegistry.set_ns (Some (plugin_name plugin)) registry)
                id (EnvSpec.defaults 0) _ _ _ Hparse Hvalid)
      as (rlog & self' & Hreg & Hns' & Hget).
    unfold registering. rewrite Hreg, Hleave.
    eexists _, _. split; [reflexivity |]. split; [reflexivity | exact Hget].
Qed.

Lemma plugin_registers_under_its_name_witness :
  (exists registry' log',
     load_env_plugins
       [{| plugin_name := "__atari__"; plugin_value := "atari:register";
           plugin_attributes := RaisesAttributeError;
           plugin_load := inr (registering "Pong-v5") |}]
       EnvRegistry.__init__ []
     = (registry', log', Completed)
     /\ EnvRegistry._ns registry' = None
     /\ EnvSpecTree.__getitem__ (H := sample_externals)
          (EnvRegistry.env_specs registry') "__atari__/Pong-v5"
        = Ok (sample_spec (Some "__atari__") "Pong" (Some 5)))
  /\ (exists registry' log',
        load_env_plugins
          [{| plugin_name := "__root__"; plugin_value := "atari:register";
              plugin_attributes := RaisesAttributeError;
              plugin_load := inr (registering "Pong-v5") |}]
          EnvRegistry.__init__ []
        = (registry', log', Completed)
        /\ EnvRegistry._ns registry' = None
        /\ EnvSpecTree.__getitem__ (H := sample_externals)
             (EnvRegistry.env_specs registry') "Pong-v5"
           = Ok (sample_spec None "Pong" (Some 5))).
Proof.
  split.
  - exact (@plugin_registers_under_its_name sample_externals
             {| plugin_name := "__atari__"; plugin_value := "atari:register";
                plugin_attributes := RaisesAttributeError;
                plugin_load := inr (registering "Pong-v5") |}
             "Pong-v5" EnvRegistry.__init__ [] None "Pong" (Some 5)
             eq_refl eq_refl eq_refl eq_refl eq_refl).
  - exact (@plugin_registers_under_its_name sample_externals
             {| plugin_name := "__root__"; plugin_value := "atari:register";
                plugin_attributes := RaisesAttributeError;
                plugin_load := inr (registering "Pong-v5") |}
             "Pong-v5" EnvRegistry.__init__ [] None "Pong" (Some 5)
             eq_refl eq_refl eq_refl eq_refl eq_refl).
Defined.



(** ** Registering and deleting again *)

Section DictRestore.
Context {K V : Type} `{EqDecision K}.
Implicit Types (k : K) (v : V) (d : Dict K V).

Lemma dict_pop_absent k d : dict_in k d = false -> dict_pop k d = d.
Proof.
  unfold dict_in. induction d as [|[k' v'] d IH]; simpl; [reflexivity |].
  destruct (decide (k = k')); [discriminate |]. intros Hd. now rewrite IH.
Qed.

Lemma dict_pop_set_absent k v d :
  dict_in k d = false -> dict_pop k (dict_set k v d) = d.
Proof.
  unfold dict_in. induction d as [|[k' v'] d IH]; simpl.
  - now rewrite decide_True.
  - destruct (decide (k = k')) as [->|Hne]; [discriminate |]. simpl.
    rewrite decide_False by exact Hne. intros Hd. now rewrite IH.
Qed.

Lemma dict_set_back k v v' d :
  dict_get k d = Some v -> dict_set k v (dict_set k v' d) = d.
Proof.
  induction d as [|[k0 v0] d IH]; simpl; [discriminate |].
  destruct (decide (k = k0)) as [->|Hne]; simpl.
  - intros [= ->]. now rewrite decide_True.
  - intros Hd. rewrite decide_False by exact Hne. now rewrite IH.
Qed.
End DictRestore.

(** X17.  On a well-formed tree, assigning to an id that is not contained and
    then deleting that id gives back the tree as it was, counter
    included. *)
Theorem set_then_delete_restores `{Externals} (self self1 : EnvSpecTree.t)
  (key : string) (value : EnvSpec.t) :
  well_formed self = true ->
  EnvSpecTree.__contains__ self key = Ok false ->
  EnvSpecTree.__setitem__ self key value = Ok self1 ->
  EnvSpecTree.__delitem__ self1 key = Ok self.
Proof.
  intros Hwf Hin Hset.
  destruct (parse_env_id key) as [[[ns n] v]|e] eqn:Hparse.
  2:{ unfold EnvSpecTree.__contains__ in Hin. rewrite Hparse in Hin.
      discriminate. }
  rewrite (contains_read _ _ _ _ _ Hparse) in Hin. injection Hin as Hfresh.
  destruct (setitem_ok self key value _ _ _ Hparse)
    as (t & Hset' & Hnsin & Hnames & Hversions & Hlen).
  rewrite Hset in Hset'. injection Hset' as <-.
  assert (Htree : EnvSpecTree.tree self1
                  = dict_set ns (EnvSpecTree.names_of self1 ns)
                      (EnvSpecTree.tree self)).
  { rewrite Hnames. unfold EnvSpecTree.__setitem__ in Hset.
    rewrite Hparse in Hset. cbn [bind] in Hset. now injection Hset as <-. }
  unfold EnvSpecTree.__delitem__. rewrite Hparse. cbn [bind].
  rewrite assert_version_exists_ok.
  2:{ unfold present_b. now rewrite Hnsin, Hnames, Hversions, !dict_in_set_eq. }
  cbn [bind]. rewrite Hversions, (dict_pop_set_absent _ _ _ Hfresh).
  destruct (names_of_checked self ns Hwf) as (_ & _ & Hnsne).
  destruct (versions_of_checked self ns n Hwf) as (_ & _ & Hnne).
  match goal with |- context [dict_set ns ?m (EnvSpecTree.tree self1)] =>
    set (names2 := m) end.
  assert (Hnames' : names2 = EnvSpecTree.names_of self ns).
  { subst names2. rewrite Hnames.
    destruct (dict_get n (EnvSpecTree.names_of self ns)) as [vs|] eqn:Hget.
    - assert (Hvs : EnvSpecTree.versions_of self ns n = vs).
      { unfold EnvSpecTree.versions_of. now rewrite Hget. }
      assert (Hne : is_empty (EnvSpecTree.versions_of self ns n) = false).
      { apply Hnne. unfold dict_in. now rewrite Hget. }
      rewrite Hvs in *. destruct vs as [|b vs]; [discriminate |].
      now apply dict_set_back.
    - assert (Hvs : EnvSpecTree.versions_of self ns n = []).
      { unfold EnvSpecTree.versions_of. now rewrite Hget. }
      rewrite Hvs. apply dict_pop_set_absent. unfold dict_in. now rewrite Hget. }
  clearbody names2. subst names2. rewrite Htree.
  match goal with |- Ok {| EnvSpecTree.tree := ?m; EnvSpecTree._length := _ |} = _ =>
    set (tree2 := m) end.
  assert (Htree' : tree2 = EnvSpecTree.tree self).
  { subst tree2.
    destruct (dict_get ns (EnvSpecTree.tree self)) as [names|] eqn:Hget.
    - assert (Hns : EnvSpecTree.names_of self ns = names).
      { unfold EnvSpecTree.names_of. now rewrite Hget. }
      assert (Hne : is_empty (EnvSpecTree.names_of self ns) = false).
      { apply Hnsne. unfold dict_in. now rewrite Hget. }
      rewrite Hns in *. destruct names as [|b names]; [discriminate |].
      now apply dict_set_back.
    - assert (Hns : EnvSpecTree.names_of self ns = []).
      { unfold EnvSpecTree.names_of. now rewrite Hget. }
      rewrite Hns. apply dict_pop_set_absent. unfold dict_in. now rewrite Hget. }
  clearbody tree2. subst tree2.
  rewrite Hlen. destruct self as [tree len]. simpl. do 2 f_equal. lia.
Qed.

Lemma set_then_delete_restores_witness :
  exists self1,
    EnvSpecTree.__setitem__ tree_A_v0 "ALE/Pong-v5"
      (sample_spec (Some "ALE") "Pong" (Some 5)) = Ok self1
    /\ EnvSpecTree.__delitem__ (H := sample_externals) self1 "ALE/Pong-v5"
       = Ok tree_A_v0.
Proof.
  eexists. split; [reflexivity |].
  exact (@set_then_delete_restores sample_externals tree_A_v0 _ "ALE/Pong-v5"
           (sample_spec (Some "ALE") "Pong" (Some 5)) eq_refl eq_refl eq_refl).
Defined.
